(** * TicTacToe browser client ([static/script.js]): a shallow embedding

    The script is one [DOMContentLoaded] closure whose local variables are the
    session state.  The embedding makes that state an explicit record, writes
    every handler as a computation in a small state-and-exception monad, and
    keeps a chronological log of the helper calls and browser API calls the
    handlers perform. *)

From Stdlib Require Import ZArith NArith QArith Qround Qabs Qpower List String Ascii Bool Lia Lqa.
From stdpp Require Import base tactics option list.
Import ListNotations.

#[local] Set Warnings "-register-all".

Local Open Scope string_scope.
Local Open Scope list_scope.
Local Open Scope nat_scope.

(** ** JavaScript values used by the script *)

(** A board cell is a JSON string; reading past the end of an array yields
    [undefined], which is [None] here. *)
Definition jsval := option string.

(** [ToBoolean]: [undefined], [null] and the empty string are falsy. *)
Definition truthy (v : jsval) : bool :=
  match v with
  | Some s => negb (String.eqb s "")
  | None => false
  end.

(** [===] on values that are strings or [undefined]. *)
Definition strict_eq (v w : jsval) : bool :=
  match v, w with
  | Some s, Some t => String.eqb s t
  | None, None => true
  | _, _ => false
  end.

(** ** Win detector *)

Module Win.

(** A line is the three-element array [[a, b1, c]] of cell indices. *)
Definition line := (nat * nat * nat)%type.

Definition lines : list line :=
  [(0,1,2); (3,4,5); (6,7,8); (0,3,6); (1,4,7); (2,5,8); (0,4,8); (2,4,6)].

(** The test of the [if] inside the loop:
    [b[a] && b[a] === b[b1] && b[a] === b[c]]. *)
Definition wins (b : list string) (l : line) : bool :=
  let '(a, b1, c) := l in
  truthy (b !! a) && strict_eq (b !! a) (b !! b1) && strict_eq (b !! a) (b !! c).

(** The [for (const l of lines)] loop with its early [return l]. *)
Fixpoint scan (b : list string) (ls : list line) : option line :=
  match ls with
  | [] => None
  | l :: rest => if wins b l then Some l else scan b rest
  end.

Definition findWinningTriple (b : list string) : option line := scan b lines.

(** *** The specification's vocabulary *)

Definition row (r : nat) : line := (3 * r, 3 * r + 1, 3 * r + 2).
Definition column (c : nat) : line := (c, c + 3, c + 6).
Definition diagonals : list line := [(0,4,8); (2,4,6)].

(** The fixed scan order: three rows, then three columns, then the two
    diagonals. *)
Definition scan_order : list line :=
  map row [0;1;2] ++ map column [0;1;2] ++ diagonals.

(** A line is fully owned when its three cells hold one and the same
    non-empty mark. *)
Definition fully_owned (b : list string) (l : line) : Prop :=
  let '(a, m, c) := l in
  exists s : string, s <> "" /\ b !! a = Some s /\ b !! m = Some s /\ b !! c = Some s.

(** [l] is the first fully owned line of the scan order. *)
Definition first_owned (b : list string) (l : line) : Prop :=
  exists before after : list line,
    scan_order = before ++ l :: after /\
    fully_owned b l /\
    forall l', In l' before -> ~ fully_owned b l'.

End Win.

(** ** The document: cell contents *)

Module Dom.

(** A DOM node: a text node, or an element with its attributes, its inline
    style and its children. *)
Inductive node : Type :=
| Text (s : string)
| Element (tag : string) (attrs style : list (string * string)) (children : list node).

(** [Node.textContent]: the concatenation of the text nodes below the node,
    in document order. *)
Fixpoint textContent (n : node) : string :=
  match n with
  | Text s => s
  | Element _ _ _ ch =>
      (fix below (l : list node) : string :=
         match l with
         | [] => ""
         | c :: r => (textContent c ++ below r)%string
         end) ch
  end.

(** [textContent] of an element whose children are [ch]. *)
Definition text_of (ch : list node) : string := textContent (Element "div" [] [] ch).

(** [el.style[prop] = v] *)
Definition set_style (prop v : string) (n : node) : node :=
  match n with
  | Text s => Text s
  | Element tag attrs style ch => Element tag attrs (style ++ [(prop, v)]) ch
  end.

(** [String.prototype.trim] strips the code points of [WhiteSpace] and
    [LineTerminator] from both ends: U+0009 to U+000D, U+0020, U+00A0,
    U+1680, U+2000 to U+200A, U+2028, U+2029, U+202F, U+205F, U+3000 and
    U+FEFF.  A string is its UTF-8 bytes here, so these are sequences of one,
    two or three bytes. *)
Definition is_space1 (c : ascii) : bool :=
  match nat_of_ascii c with
  | 9 | 10 | 11 | 12 | 13 | 32 => true
  | _ => false
  end.

Definition is_space2 (c1 c2 : ascii) : bool :=
  match nat_of_ascii c1, nat_of_ascii c2 with
  | 194, 160 => true                       (* U+00A0 *)
  | _, _ => false
  end.

Definition is_space3 (c1 c2 c3 : ascii) : bool :=
  match nat_of_ascii c1, nat_of_ascii c2 with
  | 225, 154 => Nat.eqb (nat_of_ascii c3) 128                      (* U+1680 *)
  | 226, 128 =>
      let n := nat_of_ascii c3 in
      (Nat.leb 128 n && Nat.leb n 138)                             (* U+2000 to U+200A *)
      || Nat.eqb n 168 || Nat.eqb n 169 || Nat.eqb n 175           (* U+2028, U+2029, U+202F *)
  | 226, 129 => Nat.eqb (nat_of_ascii c3) 159                      (* U+205F *)
  | 227, 128 => Nat.eqb (nat_of_ascii c3) 128                      (* U+3000 *)
  | 239, 187 => Nat.eqb (nat_of_ascii c3) 191                      (* U+FEFF *)
  | _, _ => false
  end.

(** Stripping from the front of a byte list; [back] tells that the list is
    a reversed string, in which the bytes of a code point come last byte
    first. *)
Fixpoint strip (back : bool) (s : list ascii) : list ascii :=
  match s with
  | [] => []
  | c1 :: r1 =>
      if is_space1 c1 then strip back r1
      else
        match r1 with
        | [] => s
        | c2 :: r2 =>
            if (if back then is_space2 c2 c1 else is_space2 c1 c2) then strip back r2
            else
              match r2 with
              | [] => s
              | c3 :: r3 =>
                  if (if back then is_space3 c3 c2 c1 else is_space3 c1 c2 c3)
                  then strip back r3
                  else s
              end
        end
  end.

Definition trim (s : string) : string :=
  string_of_list_ascii
    (rev (strip true (rev (strip false (list_ascii_of_string s))))).

(** The trees the HTML parser builds from the two template literals [SVG_X]
    and [SVG_O]: the markup has no character data between its tags. *)
Definition SVG_X : node :=
  Element "svg" [("class", "icon-x"); ("viewBox", "0 0 64 64")] []
    [ Element "line"
        [("x1","12"); ("y1","12"); ("x2","52"); ("y2","52");
         ("stroke","white"); ("stroke-width","6"); ("stroke-linecap","round")] [] [];
      Element "line"
        [("x1","52"); ("y1","12"); ("x2","12"); ("y2","52");
         ("stroke","white"); ("stroke-width","6"); ("stroke-linecap","round")] [] [] ].

Definition SVG_O : node :=
  Element "svg" [("class", "icon-o"); ("viewBox", "0 0 64 64")] []
    [ Element "circle"
        [("cx","32"); ("cy","32"); ("r","18");
         ("fill","none"); ("stroke","white"); ("stroke-width","6")] [] [] ].

(** [getBoundingClientRect()] *)
Record Rect : Type := mkRect { r_left : Q; r_right : Q; r_top : Q; r_bottom : Q }.

(** A [.cell] element: its child nodes and where the layout has put it. *)
Record Cell : Type := mkCell { children : list node; rect : Rect }.

(** The second [function renderMark] declaration of the script (the one in
    force: a later function declaration of the same name replaces the
    earlier one).  The new child list of the cell:
    [if (!mark) { cellEl.innerHTML = ''; return; }], else the parsed SVG with
    [svgEl.style.stroke = 'white'] in either branch. *)
Definition renderMark_children (mark : string) : list node :=
  if negb (truthy (Some mark)) then []
  else
    let svg := if String.eqb mark "X" then SVG_X else SVG_O in
    [set_style "stroke" "white" svg].

(** The first [function renderMark] declaration (replaced by the second):
    the SVG wrapped in a [div.icon], with a drop shadow. *)
Definition renderMark_first_children (mark : string) : list node :=
  if negb (truthy (Some mark)) then []
  else
    let svg :=
      if String.eqb mark "X"
      then set_style "filter" "drop-shadow(0 6px 16px rgba(255,107,107,0.18))" SVG_X
      else set_style "filter" "drop-shadow(0 8px 18px rgba(79,195,247,0.16))" SVG_O in
    [Element "div" [("class", "icon")] [] [svg]].

End Dom.

(** ** The 2D drawing context of the confetti canvas *)

Module Canvas.

Local Open Scope Q_scope.

(** One step of the current transformation.  The script rotates by
    [p.r * Math.PI / 180] radians; the angle is kept in degrees. *)
Inductive xform : Type :=
| Translate (dx dy : Q)
| RotateDeg (deg : Q).

(** What is on the canvas since it was last wiped: filled rectangles, and
    erasures that did not cover the whole canvas. *)
Inductive paint : Type :=
| Filled (tr : list xform) (style : string) (x y w h : Q)
| Erased (tr : list xform) (x y w h : Q).

(** The calls the script makes on [ctx]. *)
Inductive op : Type :=
| ClearRect (x y w h : Q)
| Save
| Restore
| DoTranslate (dx dy : Q)
| DoRotateDeg (deg : Q)
| SetFillStyle (c : option string)
| FillRect (x y w h : Q).

Record Ctx2d : Type := mkCtx {
  transform : list xform;
  fillStyle : string;
  saved : list (list xform * string);
  painted : list paint
}.

(** [clearRect] under the identity transformation over a rectangle that
    contains the whole [cw] by [ch] bitmap wipes the canvas. *)
Definition covers (cw ch : N) (tr : list xform) (x y w h : Q) : bool :=
  match tr with
  | [] => Qle_bool x 0 && Qle_bool y 0 &&
          Qle_bool (inject_Z (Z.of_N cw)) (x + w) &&
          Qle_bool (inject_Z (Z.of_N ch)) (y + h)
  | _ :: _ => false
  end.

Definition apply (cw ch : N) (o : op) (c : Ctx2d) : Ctx2d :=
  match o with
  | ClearRect x y w h =>
      if covers cw ch (transform c) x y w h
      then mkCtx (transform c) (fillStyle c) (saved c) []
      else mkCtx (transform c) (fillStyle c) (saved c)
                 (painted c ++ [Erased (transform c) x y w h])
  | Save =>
      mkCtx (transform c) (fillStyle c) ((transform c, fillStyle c) :: saved c) (painted c)
  | Restore =>
      match saved c with
      | (tr, fs) :: rest => mkCtx tr fs rest (painted c)
      | [] => c
      end
  | DoTranslate dx dy =>
      mkCtx (transform c ++ [Translate dx dy]) (fillStyle c) (saved c) (painted c)
  | DoRotateDeg d =>
      mkCtx (transform c ++ [RotateDeg d]) (fillStyle c) (saved c) (painted c)
  | SetFillStyle (Some col) =>
      mkCtx (transform c) col (saved c) (painted c)
  | SetFillStyle None => c
  | FillRect x y w h =>
      mkCtx (transform c) (fillStyle c) (saved c)
            (painted c ++ [Filled (transform c) (fillStyle c) x y w h])
  end.

End Canvas.

(** ** Session state *)

Module State.

(** [state] of a server response:
    [{board: [...], current_player: ..., winner: ...}]. *)
Record GameState : Type := mkGame {
  board : list string;
  current_player : string;
  winner : jsval          (* [null] is [None] *)
}.

(** The JSON body of a response; absent fields are [None]. *)
Record Body : Type := mkBody {
  b_state : option GameState;
  b_error : jsval
}.

(** How [await fetch(...)] followed by [await res.json()] ends: one of the
    two promises rejects, or a parsed body arrives with [res.ok]. *)
Inductive fetch_result : Type :=
| Rejected
| Response (ok : bool) (data : Body).

Inductive exn : Type :=
| TypeError (what : string)
| FetchError.

(** Closure variables of one confetti run's [frame] function. *)
Record Piece : Type := mkPiece {
  p_x : Q; p_y : Q; p_vx : Q; p_vy : Q; p_s : Q;
  p_c : option string; p_r : Q; p_vr : Q
}.

Record Run : Type := mkRun {
  run_W : N; run_H : N; run_pieces : list Piece; run_t : nat
}.

(** The [<line id="winLineSvg">] element: the attributes and inline styles
    the script writes. *)
Record WinLine : Type := mkWinLine {
  x1 : option Q; y1 : option Q; x2 : option Q; y2 : option Q;
  opacity : option Q;
  transition : option string;
  strokeDashoffset : option Q
}.

(** The arrow functions handed to [setTimeout]. *)
Inductive callback : Type :=
| DrawWinLine (bx by_ : Q)
| FadeWinLine
| StopOscillator.

(** Calls of the script's own functions that the log records. *)
Inductive fn : Type :=
| PostMove (index : nat)
| RequestAiMove
| FindWinningTriple
| AnimateWinLine (aIndex bIndex : nat)
| LaunchConfetti
| Frame.

Inductive event : Type :=
| Called (f : fn)
| Fetch (url : string) (index : option nat)
| Beep (freq : Z) (dur vol : Q)
| ConsoleError (e : exn)
| PreventDefault
| RequestAnimationFrame
| Draw (o : Canvas.op).

(** What the page gives the script and the script never writes. *)
Record Env : Type := mkEnv {
  audioCtx : bool;              (* [audioCtx] is not null *)
  ctx : bool;                   (* [ctx] is not null *)
  canvasW : N;                  (* [confettiCanvas.width] *)
  canvasH : N;                  (* [confettiCanvas.height] *)
  boardRect : Dom.Rect;         (* [.board] bounding box *)
  random : nat -> Q             (* the successive results of [Math.random()] *)
}.

(** The text of a score element: empty, or a decimal numeral. *)
Definition score_text := option N.

Record UI : Type := mkUI {
  env : Env;
  gameId : jsval;
  soundOn : bool;
  cells : list Dom.Cell;
  statusText : string;
  scoreX : score_text;
  scoreO : score_text;
  winLineSvg : WinLine;
  timers : list (Q * callback);
  rafQueue : list Run;
  ctx2d : Canvas.Ctx2d;
  focused : option nat;
  randomCalls : nat;
  log : list event
}.

Definition set_cells (v : list Dom.Cell) (u : UI) : UI :=
  mkUI (env u) (gameId u) (soundOn u) v (statusText u) (scoreX u) (scoreO u)
       (winLineSvg u) (timers u) (rafQueue u) (ctx2d u) (focused u) (randomCalls u) (log u).
Definition set_statusText (v : string) (u : UI) : UI :=
  mkUI (env u) (gameId u) (soundOn u) (cells u) v (scoreX u) (scoreO u)
       (winLineSvg u) (timers u) (rafQueue u) (ctx2d u) (focused u) (randomCalls u) (log u).
Definition set_scoreX (v : score_text) (u : UI) : UI :=
  mkUI (env u) (gameId u) (soundOn u) (cells u) (statusText u) v (scoreO u)
       (winLineSvg u) (timers u) (rafQueue u) (ctx2d u) (focused u) (randomCalls u) (log u).
Definition set_scoreO (v : score_text) (u : UI) : UI :=
  mkUI (env u) (gameId u) (soundOn u) (cells u) (statusText u) (scoreX u) v
       (winLineSvg u) (timers u) (rafQueue u) (ctx2d u) (focused u) (randomCalls u) (log u).
Definition set_winLineSvg (v : WinLine) (u : UI) : UI :=
  mkUI (env u) (gameId u) (soundOn u) (cells u) (statusText u) (scoreX u) (scoreO u)
       v (timers u) (rafQueue u) (ctx2d u) (focused u) (randomCalls u) (log u).
Definition set_timers (v : list (Q * callback)) (u : UI) : UI :=
  mkUI (env u) (gameId u) (soundOn u) (cells u) (statusText u) (scoreX u) (scoreO u)
       (winLineSvg u) v (rafQueue u) (ctx2d u) (focused u) (randomCalls u) (log u).
Definition set_rafQueue (v : list Run) (u : UI) : UI :=
  mkUI (env u) (gameId u) (soundOn u) (cells u) (statusText u) (scoreX u) (scoreO u)
       (winLineSvg u) (timers u) v (ctx2d u) (focused u) (randomCalls u) (log u).
Definition set_ctx2d (v : Canvas.Ctx2d) (u : UI) : UI :=
  mkUI (env u) (gameId u) (soundOn u) (cells u) (statusText u) (scoreX u) (scoreO u)
       (winLineSvg u) (timers u) (rafQueue u) v (focused u) (randomCalls u) (log u).
Definition set_focused (v : option nat) (u : UI) : UI :=
  mkUI (env u) (gameId u) (soundOn u) (cells u) (statusText u) (scoreX u) (scoreO u)
       (winLineSvg u) (timers u) (rafQueue u) (ctx2d u) v (randomCalls u) (log u).
Definition set_randomCalls (v : nat) (u : UI) : UI :=
  mkUI (env u) (gameId u) (soundOn u) (cells u) (statusText u) (scoreX u) (scoreO u)
       (winLineSvg u) (timers u) (rafQueue u) (ctx2d u) (focused u) v (log u).
Definition set_log (v : list event) (u : UI) : UI :=
  mkUI (env u) (gameId u) (soundOn u) (cells u) (statusText u) (scoreX u) (scoreO u)
       (winLineSvg u) (timers u) (rafQueue u) (ctx2d u) (focused u) (randomCalls u) v.

End State.

(** ** Computations over the session: state, exceptions, log *)

Module Js.
Import State.

Inductive outcome (A : Type) : Type :=
| Done (a : A)
| Thrown (e : exn).
Arguments Done {A} a.
Arguments Thrown {A} e.

(** A computation runs on the session and ends normally or by a throw; what
    it wrote before throwing stays written. *)
Definition M (A : Type) : Type := UI -> outcome A * UI.

Definition ret {A : Type} (a : A) : M A := fun u => (Done a, u).

Definition bind {A B : Type} (m : M A) (k : A -> M B) : M B :=
  fun u =>
    match m u with
    | (Done a, u') => k a u'
    | (Thrown e, u') => (Thrown e, u')
    end.

Definition throw {A : Type} (e : exn) : M A := fun u => (Thrown e, u).

(** [try { m } catch (err) { h err }] *)
Definition try_catch (m : M unit) (h : exn -> M unit) : M unit :=
  fun u =>
    match m u with
    | (Done a, u') => (Done a, u')
    | (Thrown e, u') => h e u'
    end.

Definition get : M UI := fun u => (Done u, u).
Definition modify (f : UI -> UI) : M unit := fun u => (Done tt, f u).
Definition emit (e : event) : M unit := modify (fun u => set_log (log u ++ [e]) u).

(** The session a computation leaves behind, and how it ended. *)
Definition exec {A : Type} (m : M A) (u : UI) : UI := snd (m u).
Definition ended {A : Type} (m : M A) (u : UI) : outcome A := fst (m u).

Declare Scope js_scope.
Delimit Scope js_scope with js.
Notation "x <- m ;; k" := (bind m (fun x => k))
  (at level 100, m at next level, k at level 200, right associativity) : js_scope.
Notation "m ;; k" := (bind m (fun _ => k))
  (at level 100, k at level 200, right associativity) : js_scope.

(** IEEE 754 binary64 rounding (to nearest, ties to even) of a natural
    number below the overflow threshold: [Number] arithmetic on integers. *)
Definition to_double (n : N) : N :=
  if (n <? 2 ^ 53)%N then n
  else
    let e := (N.log2 n - 52)%N in
    let q := (n / 2 ^ e)%N in
    let r := (n mod 2 ^ e)%N in
    let half := (2 ^ (e - 1))%N in
    if (r <? half)%N then (q * 2 ^ e)%N
    else if (half <? r)%N then ((q + 1) * 2 ^ e)%N
    else if N.even q then (q * 2 ^ e)%N
    else ((q + 1) * 2 ^ e)%N.

End Js.

(** ** Numbers

    Every number of the script is an IEEE 754 binary64 value, and each
    arithmetic operation rounds its exact result to the nearest such value,
    ties to even.  A finite value is modelled as the rational it denotes.
    Overflow to [Infinity] needs magnitudes of [2^1024] and is not
    represented: screen coordinates, canvas sizes and particle positions are
    far below. *)

Module Double.
Local Open Scope Q_scope.

Definition pow2 (z : Z) : Q := Qpower 2 z.

(** [floor (log2 |q|)] for [q] other than zero. *)
Definition ilog2 (q : Q) : Z :=
  let e := (Z.log2 (Z.abs (Qnum q)) - Z.log2 (Zpos (Qden q)))%Z in
  if Qle_bool (pow2 e) (Qabs q) then e else (e - 1)%Z.

(** The nearest integer, a tie going to the even one. *)
Definition nearest_even (x : Q) : Z :=
  let f := Qfloor x in
  match Qcompare (x - inject_Z f) (1 # 2) with
  | Lt => f
  | Gt => (f + 1)%Z
  | Eq => if Z.even f then f else (f + 1)%Z
  end.

(** The exponent of the last place of the binade of [q]: 53 significant
    bits, and [2^-1074] for the subnormal numbers. *)
Definition quantum (q : Q) : Z := Z.max (ilog2 q - 52) (-1074).

(** Rounding to binary64. *)
Definition rnd (q : Q) : Q :=
  let q := Qred q in
  if Qeq_bool q 0 then 0
  else Qred (inject_Z (nearest_even (q / pow2 (quantum q))) * pow2 (quantum q)).

Definition add (x y : Q) : Q := rnd (x + y).
Definition sub (x y : Q) : Q := rnd (x - y).
Definition mul (x y : Q) : Q := rnd (x * y).
Definition div (x y : Q) : Q := rnd (x / y).

(** The binary64 values: [m * 2^c] with at most 53 bits in [m] and [c] not
    below the subnormal exponent. *)
Definition representable (f : Q) : Prop :=
  exists m c : Z, (-1074 <= c)%Z /\ (Z.abs m <= 2 ^ 53)%Z /\ f == inject_Z m * pow2 c.

End Double.

(** ** The script's functions and handlers *)

Module Script.
Import State Js.
Local Open Scope js_scope.

(** *** Timers, sound, status *)

Definition setTimeout (cb : callback) (ms : Q) : M unit :=
  modify (fun u => set_timers (timers u ++ [(ms, cb)]) u).

(** [beep(freq, dur, vol)]: silent without an audio context or with the
    sound switched off; otherwise one tone, stopped [dur*1000 + 20] ms later.
    [dur] and [vol] are the decimal literals of the call; the delay is
    computed from the binary64 value of [dur]. *)
Definition beep (freq : Z) (dur vol : Q) : M unit :=
  u <- get;;
  if negb (audioCtx (env u)) || negb (soundOn u) then ret tt
  else
    emit (Beep freq dur vol);;
    setTimeout StopOscillator (Double.add (Double.mul (Double.rnd dur) 1000) 20).

Definition setStatus (text : string) : M unit := modify (set_statusText text).

(** *** Board renderer *)

(** [renderMark(cells[i], mark)]: [cells[i]] is [undefined] past the last
    cell, and writing its [innerHTML] then throws. *)
Definition renderMark (i : nat) (mark : string) : M unit :=
  u <- get;;
  match cells u !! i with
  | None => throw (TypeError "cellEl is undefined")
  | Some c =>
      modify (set_cells (<[i := Dom.mkCell (Dom.renderMark_children mark) (Dom.rect c)]> (cells u)))
  end.

(** [state.board.forEach((v,i) => { renderMark(cells[i], v); })], from
    index [i] on. *)
Fixpoint render_from (i : nat) (b : list string) : M unit :=
  match b with
  | [] => ret tt
  | v :: rest => renderMark i v;; render_from (S i) rest
  end.

(** *** Win-line animator *)

(** [(a.left + a.right)/2] and [(a.top + a.bottom)/2] *)
Definition center_x (r : Dom.Rect) : Q :=
  Double.div (Double.add (Dom.r_left r) (Dom.r_right r)) 2.
Definition center_y (r : Dom.Rect) : Q :=
  Double.div (Double.add (Dom.r_top r) (Dom.r_bottom r)) 2.

Definition animateWinLine (aIndex bIndex : nat) : M unit :=
  emit (Called (AnimateWinLine aIndex bIndex));;
  u <- get;;
  let r := boardRect (env u) in
  match cells u !! aIndex with
  | None => throw (TypeError "cells[aIndex] is undefined")
  | Some ca =>
      match cells u !! bIndex with
      | None => throw (TypeError "cells[bIndex] is undefined")
      | Some cb =>
          let a := Dom.rect ca in
          let b := Dom.rect cb in
          let ax := Double.sub (center_x a) (Dom.r_left r) in
          let ay := Double.sub (center_y a) (Dom.r_top r) in
          let bx := Double.sub (center_x b) (Dom.r_left r) in
          let by_ := Double.sub (center_y b) (Dom.r_top r) in
          modify (fun u =>
            set_winLineSvg
              (mkWinLine (Some ax) (Some ay) (Some ax) (Some ay) (Some 1%Q)
                         (Some "opacity .25s linear")
                         (strokeDashoffset (winLineSvg u))) u);;
          setTimeout (DrawWinLine bx by_) 20%Q;;
          setTimeout FadeWinLine 1800%Q
      end
  end.

(** The bodies of the arrow functions given to [setTimeout]. *)
Definition run_callback (cb : callback) : M unit :=
  match cb with
  | DrawWinLine bx by_ =>
      modify (fun u =>
        let w := winLineSvg u in
        set_winLineSvg
          (mkWinLine (x1 w) (y1 w) (Some bx) (Some by_) (Some 1%Q)
             (Some "stroke-dashoffset 700ms cubic-bezier(.2,.9,.2,1), x2 700ms")
             (Some 0%Q)) u)
  | FadeWinLine =>
      modify (fun u =>
        let w := winLineSvg u in
        set_winLineSvg
          (mkWinLine (x1 w) (y1 w) (x2 w) (y2 w) (Some 0%Q)
             (Some "opacity 600ms") (strokeDashoffset w)) u)
  | StopOscillator => ret tt
  end.

(** *** Confetti engine *)

Definition colors : list string :=
  ["#7c5cff"; "#4be1a2"; "#ff6b6b"; "#4fc3f7"; "#ffd166"].

(** [Math.random()] *)
Definition next_random : M Q :=
  u <- get;;
  modify (set_randomCalls (S (randomCalls u)));;
  ret (random (env u) (randomCalls u)).

Definition QofN (n : N) : Q := inject_Z (Z.of_N n).

(** [colors[k]] for an integer [k]: [undefined] outside the array. *)
Definition pick (k : Z) : option string :=
  if (k <? 0)%Z then None else colors !! Z.to_nat k.

(** The object literal pushed for one particle; its properties are evaluated
    in the order written. *)
Definition new_piece (W H : N) : M Piece :=
  rx <- next_random;;
  ry <- next_random;;
  rvx <- next_random;;
  rvy <- next_random;;
  rs <- next_random;;
  rc <- next_random;;
  rr <- next_random;;
  rvr <- next_random;;
  ret (mkPiece
         (Double.mul rx (QofN W))
         (Double.sub (- (20)) (Double.mul (Double.mul ry (QofN H)) (Double.rnd (2 # 10))))
         (Double.mul (Double.sub rvx (5 # 10)) 6)
         (Double.add 2 (Double.mul rvy 6))
         (Double.add 6 (Double.mul rs 8))
         (pick (Qfloor (Double.mul rc (inject_Z (Z.of_nat (length colors))))))
         (Double.mul rr 360)
         (Double.mul (Double.sub rvr (5 # 10)) 8)).

(** [for (let i=0;i<count;i++) pieces.push({...})] *)
Fixpoint seed (count : nat) (W H : N) : M (list Piece) :=
  match count with
  | O => ret []
  | S k => p <- new_piece W H;; ps <- seed k W H;; ret (p :: ps)
  end.

(** [Math.min(120, Math.floor(W/8))] *)
Definition particle_count (W : N) : N := N.min 120 (W / 8).

Definition draw (o : Canvas.op) : M unit :=
  emit (Draw o);;
  modify (fun u =>
    set_ctx2d (Canvas.apply (canvasW (env u)) (canvasH (env u)) o (ctx2d u)) u).

Definition requestAnimationFrame (r : Run) : M unit :=
  emit RequestAnimationFrame;;
  modify (fun u => set_rafQueue (rafQueue u ++ [r]) u).

(** [launchConfetti()]: the particle batch, [t = 0], and the first frame
    request. *)
Definition launchConfetti : M unit :=
  emit (Called LaunchConfetti);;
  u <- get;;
  if negb (ctx (env u)) then ret tt
  else
    let W := canvasW (env u) in
    let H := canvasH (env u) in
    pieces <- seed (N.to_nat (particle_count W)) W H;;
    requestAnimationFrame (mkRun W H pieces 0).

(** The three [+=] on one particle. *)
Definition advance (p : Piece) : Piece :=
  mkPiece (Double.add (p_x p) (p_vx p)) (Double.add (p_y p) (p_vy p)) (p_vx p) (p_vy p)
          (p_s p) (p_c p) (Double.add (p_r p) (p_vr p)) (p_vr p).

(** [save; translate; rotate; fillStyle; fillRect; restore] for one
    (already advanced) particle. *)
Definition paint_piece (p : Piece) : M unit :=
  draw Canvas.Save;;
  draw (Canvas.DoTranslate (p_x p) (p_y p));;
  draw (Canvas.DoRotateDeg (p_r p));;
  draw (Canvas.SetFillStyle (p_c p));;
  draw (Canvas.FillRect (Double.div (- p_s p) 2) (Double.div (- p_s p) 2) (p_s p) (p_s p));;
  draw Canvas.Restore.

(** [for (const p of pieces) { ... }] of [frame]. *)
Fixpoint frame_pieces (ps : list Piece) : M (list Piece) :=
  match ps with
  | [] => ret []
  | p :: rest =>
      let p' := advance p in
      paint_piece p';;
      rest' <- frame_pieces rest;;
      ret (p' :: rest')
  end.

(** The tick budget in [if (t<220)]. *)
Definition TICKS : nat := 220.

(** One call of [frame] on the closure variables [r]. *)
Definition frame (r : Run) : M unit :=
  emit (Called Frame);;
  let t := S (run_t r) in
  let W := QofN (run_W r) in
  let H := QofN (run_H r) in
  draw (Canvas.ClearRect 0 0 W H);;
  ps <- frame_pieces (run_pieces r);;
  if t <? TICKS then requestAnimationFrame (mkRun (run_W r) (run_H r) ps t)
  else draw (Canvas.ClearRect 0 0 W H).

(** The browser's animation tick: the callbacks queued so far are taken off
    the queue and run in order; what they request runs at the next tick. *)
Fixpoint run_frames (q : list Run) : M unit :=
  match q with
  | [] => ret tt
  | r :: rest => frame r;; run_frames rest
  end.

Definition animation_tick : M unit :=
  u <- get;;
  modify (set_rafQueue []);;
  run_frames (rafQueue u).

(** Animation ticks until no frame is requested any more; the number of
    ticks that ran, and the session afterwards. *)
Fixpoint animate (fuel : nat) (u : UI) : nat * UI :=
  match fuel with
  | O => (0, u)
  | S k =>
      match rafQueue u with
      | [] => (0, u)
      | _ :: _ =>
          let (n, u') := animate k (exec animation_tick u) in
          (S n, u')
      end
  end.

(** *** State sync *)

(** The argument of [setStatus] in [updateFromState]. *)
Definition status_of (st : GameState) : string :=
  if truthy (winner st) then
    if strict_eq (winner st) (Some "Tie") then "It's a tie!"
    else (default "" (winner st) ++ " wins!")%string
  else ("Player " ++ current_player st ++ "'s turn")%string.

(** [Number(el.textContent || 0)], and the text written back by
    [el.textContent = Number(el.textContent || 0) + 1]. *)
Definition score_value (s : score_text) : N := to_double (default 0%N s).
Definition bump (s : score_text) : score_text := Some (to_double (score_value s + 1)).

(** The block guarded by [if (state.winner && state.winner !== 'Tie')]. *)
Definition celebrate (st : GameState) : M unit :=
  emit (Called FindWinningTriple);;
  match Win.findWinningTriple (board st) with
  | Some (a, _, c) => animateWinLine a c
  | None => ret tt
  end;;
  u <- get;;
  (if soundOn u then beep 320 (16 # 100) (12 # 100) else ret tt);;
  launchConfetti;;
  (if strict_eq (winner st) (Some "X")
   then modify (fun u => set_scoreX (bump (scoreX u)) u) else ret tt);;
  (if strict_eq (winner st) (Some "O")
   then modify (fun u => set_scoreO (bump (scoreO u)) u) else ret tt).

Definition updateFromState (st : GameState) : M unit :=
  render_from 0 (board st);;
  setStatus (status_of st);;
  if truthy (winner st) && negb (strict_eq (winner st) (Some "Tie"))
  then celebrate st
  else ret tt.

(** [updateFromState(data.state)]: reading [state.board] of a missing state
    throws. *)
Definition updateFromState_of (s : option GameState) : M unit :=
  match s with
  | Some st => updateFromState st
  | None => throw (TypeError "state is undefined")
  end.

(** *** Backend calls

    An [async] function runs up to its first [await] when it is called; the
    rest runs when the awaited response has arrived.  Each is therefore two
    computations: the call, and the resumption on a [fetch_result]. *)

Definition requestAiMove : M unit :=
  emit (Called RequestAiMove);;
  u <- get;;
  match gameId u with
  | Some g =>
      if truthy (gameId u) then emit (Fetch ("/api/ai_move/" ++ g)%string None)
      else ret tt
  | None => ret tt
  end.

Definition requestAiMove_resumed (r : fetch_result) : M unit :=
  try_catch
    (match r with
     | Rejected => throw FetchError
     | Response ok data =>
         if negb ok then
           match b_state data with
           | Some st => updateFromState st
           | None => ret tt
           end
         else
           updateFromState_of (b_state data);;
           beep 520 (8 # 100) (6 # 100)
     end)
    (fun err => emit (ConsoleError err)).

Definition postMove (index : nat) : M unit :=
  emit (Called (PostMove index));;
  u <- get;;
  match gameId u with
  | Some g =>
      if truthy (gameId u) then emit (Fetch ("/api/move/" ++ g)%string (Some index))
      else setStatus "Press New Game"
  | None => setStatus "Press New Game"
  end.

Definition postMove_resumed (r : fetch_result) : M unit :=
  try_catch
    (match r with
     | Rejected => throw FetchError
     | Response ok data =>
         if negb ok then
           setStatus (if truthy (b_error data) then default "" (b_error data)
                      else "Move rejected")
         else
           updateFromState_of (b_state data);;
           beep 880 (6 # 100) (4 # 100);;
           match b_state data with
           | Some st => if negb (truthy (winner st)) then requestAiMove else ret tt
           | None => throw (TypeError "data.state is undefined")
           end
     end)
    (fun err => emit (ConsoleError err);; setStatus "Error").

(** *** Cell handlers *)

(** [cells[i].focus()] *)
Definition focusCell (i : nat) : M unit :=
  u <- get;;
  match cells u !! i with
  | Some _ => modify (set_focused (Some i))
  | None => throw (TypeError "cells[i] is undefined")
  end.

(** The [click] listener of cell [idx]; a cell that does not exist has no
    listener. *)
Definition click (idx : nat) : M unit :=
  u <- get;;
  match cells u !! idx with
  | Some cell =>
      if negb (String.eqb (Dom.trim (Dom.text_of (Dom.children cell))) "") then ret tt
      else postMove idx
  | None => ret tt
  end.

(** The [keydown] listener of cell [idx], for [e.key = key]. *)
Definition keydown (idx : nat) (key : string) : M unit :=
  u <- get;;
  match cells u !! idx with
  | Some _ =>
      (if String.eqb key "Enter" || String.eqb key " "
       then emit PreventDefault;; click idx else ret tt);;
      let col := idx mod 3 in
      let row := idx / 3 in
      (if String.eqb key "ArrowRight" then focusCell (row * 3 + (col + 1) mod 3) else ret tt);;
      (if String.eqb key "ArrowLeft" then focusCell (row * 3 + (col + 2) mod 3) else ret tt);;
      (if String.eqb key "ArrowDown" then focusCell ((row + 1) mod 3 * 3 + col) else ret tt);;
      (if String.eqb key "ArrowUp" then focusCell ((row + 2) mod 3 * 3 + col) else ret tt)
  | None => ret tt
  end.

End Script.

(** ** Observations used to state the properties *)

Module Obs.
Import State Js Script.

(** The events a computation appended to the log, the frame requests it
    left in the queue, the timers it set. *)
Definition new_events (u u' : UI) : list event := drop (length (log u)) (log u').
Definition new_runs (u u' : UI) : list Run := drop (length (rafQueue u)) (rafQueue u').
Definition new_timers (u u' : UI) : list (Q * callback) := drop (length (timers u)) (timers u').

(** The particles of the batches a call of [launchConfetti] created. *)
Definition particles_created (u : UI) : list Piece :=
  concat (map run_pieces (new_runs u (exec launchConfetti u))).

(** The server state has no more board entries than the page has cells
    (nine and nine on the game's page). *)
Definition fits (st : GameState) (u : UI) : Prop := length (board st) <= length (cells u).

(** A non-[Tie] win, as [updateFromState] tests it. *)
Definition is_win (st : GameState) : bool :=
  truthy (winner st) && negb (strict_eq (winner st) (Some "Tie")).

(** [Math.random()] returns a number in [[0, 1)]. *)
Definition random_ok (e : Env) : Prop := forall k, (0 <= random e k)%Q /\ (random e k < 1)%Q.

(** The cell list after the [forEach] of [updateFromState] from index [i]. *)
Fixpoint render_cells (i : nat) (b : list string) (cs : list Dom.Cell) : list Dom.Cell :=
  match b with
  | [] => cs
  | v :: rest =>
      match cs !! i with
      | Some c =>
          render_cells (S i) rest
            (<[i := Dom.mkCell (Dom.renderMark_children v) (Dom.rect c)]> cs)
      | None => cs
      end
  end.

(** The particle built from the random numbers [k .. k+7], and the batch of
    [n] particles built from [k] on. *)
Definition piece_of (e : Env) (W H : N) (k : nat) : Piece :=
  mkPiece
    (Double.mul (random e k) (QofN W))
    (Double.sub (- (20))
       (Double.mul (Double.mul (random e (1 + k)) (QofN H)) (Double.rnd (2 # 10))))
    (Double.mul (Double.sub (random e (2 + k)) (5 # 10)) 6)
    (Double.add 2 (Double.mul (random e (3 + k)) 6))
    (Double.add 6 (Double.mul (random e (4 + k)) 8))
    (pick (Qfloor (Double.mul (random e (5 + k)) (inject_Z (Z.of_nat (length colors))))))
    (Double.mul (random e (6 + k)) 360)
    (Double.mul (Double.sub (random e (7 + k)) (5 # 10)) 8).

Fixpoint batch (e : Env) (W H : N) (k n : nat) : list Piece :=
  match n with
  | O => []
  | S n' => piece_of e W H k :: batch e W H (8 + k) n'
  end.

Definition is_frame_call (e : event) : bool :=
  match e with Called Frame => true | _ => false end.
Definition is_frame_request (e : event) : bool :=
  match e with RequestAnimationFrame => true | _ => false end.

(** Events that are calls into the backend glue. *)
Definition is_backend (e : event) : bool :=
  match e with
  | Called (PostMove _) | Called RequestAiMove | Fetch _ _ => true
  | _ => false
  end.

Definition is_animate (e : event) : bool :=
  match e with Called (AnimateWinLine _ _) => true | _ => false end.
Definition is_launch (e : event) : bool :=
  match e with Called LaunchConfetti => true | _ => false end.

(** The values the HTTP contract allows for [winner]. *)
Definition contract_winner (w : jsval) : Prop :=
  w = None \/ w = Some "X" \/ w = Some "O" \/ w = Some "Tie".

(** The score counters hold integers that [Number] represents exactly. *)
Definition safe_score (s : score_text) : Prop := (default 0 s < 2 ^ 53)%N.

(** The point [animateWinLine] computes for cell [i]: [ax, ay] or
    [bx, by]. *)
Definition line_end (u : UI) (i : nat) : option (Q * Q) :=
  match cells u !! i with
  | Some c =>
      Some (Double.sub (center_x (Dom.rect c)) (Dom.r_left (boardRect (env u))),
            Double.sub (center_y (Dom.rect c)) (Dom.r_top (boardRect (env u))))
  | None => None
  end.

(** The centre of a rectangle, relative to the top left corner of the
    board's bounding box: the point half-way between its sides. *)
Definition centre_in (board r : Dom.Rect) : Q * Q :=
  ((Dom.r_left r + (Dom.r_right r - Dom.r_left r) / 2 - Dom.r_left board)%Q,
   (Dom.r_top r + (Dom.r_bottom r - Dom.r_top r) / 2 - Dom.r_top board)%Q).

(** A rectangle whose four sides are within [M] of the origin. *)
Definition within (M : Q) (r : Dom.Rect) : Prop :=
  (Qabs (Dom.r_left r) <= M /\ Qabs (Dom.r_right r) <= M /\
   Qabs (Dom.r_top r) <= M /\ Qabs (Dom.r_bottom r) <= M)%Q.

(** Two points that differ by at most [2^-50] of the magnitude [M] in
    either coordinate, and two points that are the same. *)
Definition near (M : Q) (p q : Q * Q) : Prop :=
  (Qabs (fst p - fst q) <= M * (1 # 1125899906842624) /\
   Qabs (snd p - snd q) <= M * (1 # 1125899906842624))%Q.
Definition same_point (p q : Q * Q) : Prop := (fst p == fst q /\ snd p == snd q)%Q.

(** A coordinate on a layout grid: a multiple of [2^-j] pixels with at most
    51 bits, and a rectangle with its four sides on the grid. *)
Definition on_grid (j : Z) (q : Q) : Prop :=
  exists n : Z, (Z.abs n <= 2 ^ 51)%Z /\ (q == inject_Z n * Double.pow2 (- j))%Q.
Definition rect_on_grid (j : Z) (r : Dom.Rect) : Prop :=
  on_grid j (Dom.r_left r) /\ on_grid j (Dom.r_right r) /\
  on_grid j (Dom.r_top r) /\ on_grid j (Dom.r_bottom r).

(** How many events of a kind a log segment holds. *)
Definition count (f : event -> bool) (l : list event) : nat := length (List.filter f l).

Definition is_draw (e : event) : bool :=
  match e with Draw _ => true | _ => false end.

(** [u'] differs from [u] by drawing only: the context is back in the
    same transformation, style and save stack, the log grew by [Draw]
    events, and nothing but the canvas and the log was written. *)
Definition drew (u u' : UI) : Prop :=
  u' = set_ctx2d (ctx2d u') (set_log (log u') u) /\
  Canvas.transform (ctx2d u') = Canvas.transform (ctx2d u) /\
  Canvas.fillStyle (ctx2d u') = Canvas.fillStyle (ctx2d u) /\
  Canvas.saved (ctx2d u') = Canvas.saved (ctx2d u) /\
  exists evs, log u' = log u ++ evs /\ Forall (fun e => is_draw e = true) evs.

(** The run's [clearRect(0,0,W,H)]. *)
Definition full_clear (r : Run) : event :=
  Draw (Canvas.ClearRect 0 0 (QofN (run_W r)) (QofN (run_H r))).

(** A pending run of this canvas: it captured the canvas size as it is now,
    and it is inside its tick budget. *)
Definition pending_ok (u : UI) (r : Run) : Prop :=
  run_W r = canvasW (env u) /\ run_H r = canvasH (env u) /\ run_t r < TICKS.

(** The calls of [frame] a pending run has left, and whether its next call
    requests another. *)
Definition remaining (r : Run) : nat := TICKS - run_t r.
Definition continues (r : Run) : bool := S (run_t r) <? TICKS.

(** A session in which a confetti run can start undisturbed: a 2D context
    in its identity transformation and no frame request pending. *)
Definition idle_canvas (u : UI) : Prop :=
  ctx (env u) = true /\ rafQueue u = [] /\ Canvas.transform (ctx2d u) = [].

End Obs.

(** ** A concrete page *)

Module Examples.
Import State.

(** Nine empty 100 by 100 cells in a 300 by 300 board at the origin. *)
Definition cell_rect (i : nat) : Dom.Rect :=
  let col := Z.of_nat (i mod 3) in
  let row := Z.of_nat (i / 3) in
  Dom.mkRect (inject_Z (100 * col)) (inject_Z (100 * col + 100))
             (inject_Z (100 * row)) (inject_Z (100 * row + 100)).

Definition empty_cells : list Dom.Cell :=
  map (fun i => Dom.mkCell [] (cell_rect i)) (seq 0 9).

(** An 800 by 600 canvas, with or without a 2D context. *)
Definition page (has_ctx : bool) : Env :=
  mkEnv true has_ctx 800 600 (Dom.mkRect 0 300 0 300) (fun _ => 1 # 2).

Definition session (has_ctx : bool) : UI :=
  mkUI (page has_ctx) (Some "g1") true empty_cells "" (Some 0%N) (Some 0%N)
       (mkWinLine None None None None None None None) [] []
       (Canvas.mkCtx [] "#000000" [] []) None 0 [].

(** X has taken the top-left cell; O is to move. *)
Definition after_first_move : GameState :=
  mkGame ["X"; ""; ""; ""; ""; ""; ""; ""; ""] "O" None.

(** X owns the top row. *)
Definition top_row_win : GameState :=
  mkGame ["X"; "X"; "X"; "O"; "O"; ""; ""; ""; ""] "O" (Some "X").

(** A full board without a line. *)
Definition drawn_game : GameState :=
  mkGame ["X"; "O"; "X"; "X"; "O"; "O"; "O"; "X"; "X"] "O" (Some "Tie").

End Examples.


(** ** The rest of the page: resize, sound toggle, game creation and reset *)

Module More.
Import State Js Script.
Local Open Scope js_scope.

Definition set_env (v : Env) (u : UI) : UI :=
  mkUI v (gameId u) (soundOn u) (cells u) (statusText u) (scoreX u) (scoreO u)
       (winLineSvg u) (timers u) (rafQueue u) (ctx2d u) (focused u) (randomCalls u) (log u).
Definition set_gameId (v : jsval) (u : UI) : UI :=
  mkUI (env u) v (soundOn u) (cells u) (statusText u) (scoreX u) (scoreO u)
       (winLineSvg u) (timers u) (rafQueue u) (ctx2d u) (focused u) (randomCalls u) (log u).
Definition set_soundOn (v : bool) (u : UI) : UI :=
  mkUI (env u) (gameId u) v (cells u) (statusText u) (scoreX u) (scoreO u)
       (winLineSvg u) (timers u) (rafQueue u) (ctx2d u) (focused u) (randomCalls u) (log u).

(** [resizeCanvas()], for [window.innerWidth] and [window.innerHeight].
    This listener is the one place where the script writes the canvas size;
    assigning [width] or [height] of a canvas wipes its bitmap and puts its
    context back in the default state. *)
Definition resizeCanvas (innerWidth innerHeight : N) : M unit :=
  modify (fun u =>
    set_ctx2d (Canvas.mkCtx [] "#000000" [] [])
      (set_env (mkEnv (audioCtx (env u)) (ctx (env u)) innerWidth innerHeight
                      (boardRect (env u)) (random (env u))) u)).

(** [k] frames of motion of one particle. *)
Definition advance_n (k : nat) (p : Piece) : Piece := Nat.iter k advance p.

(** The closure variables of a run after one more call of [frame]. *)
Definition next_run (r : Run) : Run :=
  mkRun (run_W r) (run_H r) (map advance (run_pieces r)) (S (run_t r)).

(** A run of this canvas, [t] ticks into its budget. *)
Definition run_at (u : UI) (t : nat) (r : Run) : Prop :=
  run_W r = canvasW (env u) /\ run_H r = canvasH (env u) /\ run_t r = t.

(** A key pressed while a cell has the focus: the browser hands the event
    to the [keydown] listener of that cell. *)
Definition press (key : string) : M unit :=
  (u <- get;;
   match focused u with
   | Some i => keydown i key
   | None => ret tt
   end)%js.

(** Exchanging the two marks. *)
Definition swap_marks (s : string) : string :=
  if String.eqb s "X" then "O" else if String.eqb s "O" then "X" else s.

Definition is_beep (e : event) : bool :=
  match e with Beep _ _ _ => true | _ => false end.
Definition is_fetch (e : event) : bool :=
  match e with Fetch _ _ => true | _ => false end.
Definition is_console (e : event) : bool :=
  match e with ConsoleError _ => true | _ => false end.

(** What a cell shows, read off its child nodes: nothing, the cross (one
    [svg] of class [icon-x] holding two [line]s), the ring (one [svg] of
    class [icon-o] holding one [circle]), or something else. *)
Inductive glyph : Type := Blank | Cross | Ring | Unknown.

Definition has_class (cls : string) (attrs : list (string * string)) : bool :=
  existsb (fun kv => String.eqb (fst kv) "class" && String.eqb (snd kv) cls) attrs.

Definition is_tag (tag : string) (n : Dom.node) : bool :=
  match n with
  | Dom.Text _ => false
  | Dom.Element t _ _ _ => String.eqb t tag
  end.

Definition glyph_of (ch : list Dom.node) : glyph :=
  match ch with
  | [] => Blank
  | [Dom.Element tag attrs _ kids] =>
      if negb (String.eqb tag "svg") then Unknown
      else
        match kids with
        | [k1; k2] =>
            if has_class "icon-x" attrs && is_tag "line" k1 && is_tag "line" k2
            then Cross else Unknown
        | [k1] =>
            if has_class "icon-o" attrs && is_tag "circle" k1 then Ring else Unknown
        | _ => Unknown
        end
  | _ => Unknown
  end.

(** [fits] as a test. *)
Definition fitsb (st : GameState) (u : UI) : bool :=
  length (board st) <=? length (cells u).

(** No tone can sound: there is no audio context or the sound is off. *)
Definition muted (u : UI) : Prop := audioCtx (env u) && soundOn u = false.

(** The fetch of [requestAiMove]: issued when the game id is truthy. *)
Definition ai_fetch (u : UI) : list event :=
  match gameId u with
  | Some g => if truthy (Some g) then [Fetch ("/api/ai_move/" ++ g)%string None] else []
  | None => []
  end.

(** The responses to a player move after which [postMove] goes on to
    [requestAiMove]: success, with a state that renders and has a falsy
    winner. *)
Definition asks_ai (r : fetch_result) (u : UI) : bool :=
  match r with
  | Response true data =>
      match b_state data with
      | Some st => fitsb st u && negb (truthy (winner st))
      | None => false
      end
  | _ => false
  end.

(** A computation that keeps the session property [I] and only appends
    events satisfying [P] to the log, whether it returns or throws. *)
Definition appends {A : Type} (I : UI -> Prop) (P : event -> Prop) (m : M A) : Prop :=
  forall v, I v ->
    I (exec m v) /\ exists evs, log (exec m v) = log v ++ evs /\ Forall P evs.

(** The particle's colour is one of the palette. *)
Definition in_palette (p : Piece) : Prop :=
  exists c, p_c p = Some c /\ In c colors.

(** [Math.random()] returns binary64 values. *)
Definition random_double (e : Env) : Prop :=
  forall k, Double.representable (random e k).

(** [canvas.width] and [canvas.height] are [unsigned long]. *)
Definition canvas_size_ok (e : Env) : Prop :=
  (canvasW e < 2 ^ 32)%N /\ (canvasH e < 2 ^ 32)%N.

(** The ranges the object literal of [launchConfetti] draws from, on a
    canvas [W] wide and [H] high.  Rounding can reach the upper ends, and can
    take [y] below [-20 - 0.2 H] by a relative [2^-50]. *)
Definition in_ranges (W H : N) (p : Piece) : Prop :=
  (0 <= p_x p /\ p_x p <= QofN W /\
   - ((20 + QofN H * (2 # 10)) * (1 + (1 # 1125899906842624))) <= p_y p /\
   p_y p <= - (20) /\
   - (3) <= p_vx p /\ p_vx p <= 3 /\
   2 <= p_vy p /\ p_vy p <= 8 /\
   6 <= p_s p /\ p_s p <= 14 /\
   0 <= p_r p /\ p_r p <= 360 /\
   - (4) <= p_vr p /\ p_vr p <= 4)%Q.

(** *** Controls outside the session record

    The two [select] elements, the sound button and the requests and
    messages that the session log has no entry for. *)

Record NewBody : Type := mkNewBody {
  n_game_id : jsval;
  n_state : option GameState;
  n_error : jsval
}.

Inductive new_result : Type :=
| NewRejected
| NewResponse (ok : bool) (data : NewBody).

(** What a [catch] of these functions can receive: an exception of the
    session's computations, or [new Error(message)]. *)
Inductive pexn : Type :=
| Session (e : exn)
| Error (message : string).

Inductive pevent : Type :=
| Base (e : event)                                (* an entry of the session log *)
| FetchNew (starting_player ai_mode : string)     (* POST /api/new *)
| FetchReset (url starting_player : string)       (* POST /api/reset/<id> *)
| Console (e : pexn).                             (* console.error(err) *)

Record Page : Type := mkPage {
  ui : UI;
  startPlayerValue : string;      (* [startPlayerSelect.value] *)
  aiModeValue : string;           (* [aiModeSelect.value] *)
  ariaPressed : jsval;            (* [aria-pressed] of [soundToggle] *)
  iconFill : jsval;               (* [style.fill] of its [.icon-sound] *)
  plog : list pevent
}.

Definition set_ui (v : UI) (p : Page) : Page :=
  mkPage v (startPlayerValue p) (aiModeValue p) (ariaPressed p) (iconFill p) (plog p).
Definition set_plog (v : list pevent) (p : Page) : Page :=
  mkPage (ui p) (startPlayerValue p) (aiModeValue p) (ariaPressed p) (iconFill p) v.
Definition set_button (pressed fill : jsval) (p : Page) : Page :=
  mkPage (ui p) (startPlayerValue p) (aiModeValue p) pressed fill (plog p).

Inductive poutcome (A : Type) : Type :=
| PDone (a : A)
| PThrown (e : pexn).
Arguments PDone {A} a.
Arguments PThrown {A} e.

Definition P (A : Type) : Type := Page -> poutcome A * Page.

Definition pret {A : Type} (a : A) : P A := fun p => (PDone a, p).
Definition pbind {A B : Type} (m : P A) (k : A -> P B) : P B :=
  fun p =>
    match m p with
    | (PDone a, p') => k a p'
    | (PThrown e, p') => (PThrown e, p')
    end.
Definition pthrow {A : Type} (e : pexn) : P A := fun p => (PThrown e, p).
Definition ptry (m : P unit) (h : pexn -> P unit) : P unit :=
  fun p =>
    match m p with
    | (PDone a, p') => (PDone a, p')
    | (PThrown e, p') => h e p'
    end.
Definition pget : P Page := fun p => (PDone p, p).
Definition pemit (e : pevent) : P unit := fun p => (PDone tt, set_plog (plog p ++ [e]) p).

(** A computation of the session run on the page: its new log entries are
    carried over to the page log. *)
Definition lift {A : Type} (m : M A) : P A :=
  fun p =>
    let '(o, u') := m (ui p) in
    let p' := set_plog (plog p ++ map Base (drop (length (log (ui p))) (log u')))
                       (set_ui u' p) in
    match o with
    | Done a => (PDone a, p')
    | Thrown e => (PThrown (Session e), p')
    end.

Definition pexec {A : Type} (m : P A) (p : Page) : Page := snd (m p).
Definition new_pevents (p p' : Page) : list pevent := drop (length (plog p)) (plog p').

Declare Scope page_scope.
Delimit Scope page_scope with page.
Notation "x <- m ;; k" := (pbind m (fun x => k))
  (at level 100, m at next level, k at level 200, right associativity) : page_scope.
Notation "m ;; k" := (pbind m (fun _ => k))
  (at level 100, k at level 200, right associativity) : page_scope.

(** [data.error || fallback] *)
Definition or_else (v : jsval) (fallback : string) : string :=
  if truthy v then default "" v else fallback.

(** The click listener of [soundToggle]. *)
Definition soundToggle_click : P unit :=
  (lift (modify (fun u => set_soundOn (negb (soundOn u)) u));;
   p <- pget;;
   fun q =>
     (PDone tt,
      set_button (Some (if soundOn (ui p) then "true" else "false"))
                 (Some (if soundOn (ui p) then "var(--accent)" else "var(--muted)")) q))%page.

(** [createNewGame(auto)] up to its first [await]. *)
Definition createNewGame : P unit :=
  (p <- pget;;
   pemit (FetchNew (startPlayerValue p) (aiModeValue p)))%page.

(** [createNewGame(auto)] from the response on. *)
Definition createNewGame_resumed (auto : bool) (r : new_result) : P unit :=
  ptry
    (match r with
     | NewRejected => pthrow (Session FetchError)
     | NewResponse ok data =>
         if negb ok then pthrow (Error (or_else (n_error data) "Create failed"))
         else
           (lift (modify (set_gameId (n_game_id data)));;
            lift (updateFromState_of (n_state data));;
            (if negb auto then lift (beep 660 (6 # 100) (8 # 100)) else pret tt);;
            p <- pget;;
            if String.eqb (startPlayerValue p) "O" then lift requestAiMove else pret tt)%page
     end)
    (fun err => (pemit (Console err);; lift (setStatus "Could not create game"))%page).

(** [resetBoard()] up to its first [await]: without a game it calls
    [createNewGame()] and waits for it. *)
Definition resetBoard : P unit :=
  (p <- pget;;
   match gameId (ui p) with
   | Some g =>
       if truthy (gameId (ui p))
       then pemit (FetchReset ("/api/reset/" ++ g)%string (startPlayerValue p))
       else createNewGame
   | None => createNewGame
   end)%page.

(** [resetBoard()] from the response of [/api/reset/<id>] on. *)
Definition resetBoard_resumed (r : fetch_result) : P unit :=
  ptry
    (match r with
     | Rejected => pthrow (Session FetchError)
     | Response ok data =>
         if negb ok then pthrow (Error (or_else (b_error data) "Reset failed"))
         else
           (lift (updateFromState_of (b_state data));;
            p <- pget;;
            if String.eqb (startPlayerValue p) "O" then lift requestAiMove else pret tt)%page
     end)
    (fun err => (pemit (Console err);; lift (setStatus "Reset failed"))%page).

(** A page around a session, with [start] selected as the starting player. *)
Definition page_of (u : UI) (start : string) : Page :=
  mkPage u start "hard" (Some "true") None [].

End More.

(** * Properties *)

Import State Js Script Obs.

(** Projections of the session record applied to its setters. *)
Ltac norm :=
  cbn [env gameId soundOn cells statusText scoreX scoreO winLineSvg timers rafQueue
       ctx2d focused randomCalls log set_cells set_statusText set_scoreX set_scoreO
       set_winLineSvg set_timers set_rafQueue set_ctx2d set_focused set_randomCalls
       set_log fst snd] in *.

Lemma bind_done {A B : Type} (m : M A) (k : A -> M B) (u u1 : UI) (a : A) :
  m u = (Done a, u1) -> bind m k u = k a u1.
Proof. intros H. unfold bind. by rewrite H. Qed.

(** ** Rounding to binary64 *)

Section Rounding.
Import Double.
Local Open Scope Q_scope.

Lemma pow2_pos (z : Z) : 0 < pow2 z.
Proof. unfold pow2. apply Qpower_0_lt. reflexivity. Qed.

Lemma pow2_add (a b : Z) : pow2 (a + b) == pow2 a * pow2 b.
Proof. unfold pow2. apply Qpower_plus. discriminate. Qed.

Lemma pow2_Z (n : Z) : (0 <= n)%Z -> pow2 n == inject_Z (2 ^ n).
Proof. intros Hn. unfold pow2. by rewrite Zpower_Qpower. Qed.

Lemma pow2_le (a b : Z) : (a <= b)%Z -> pow2 a <= pow2 b.
Proof.
  intros Hab. replace b with (a + (b - a))%Z by lia.
  rewrite pow2_add, (pow2_Z (b - a)) by lia.
  assert (1 <= inject_Z (2 ^ (b - a))) as H1.
  { change 1 with (inject_Z 1). rewrite <- Zle_Qle.
    pose proof (Z.pow_pos_nonneg 2 (b - a)). lia. }
  pose proof (pow2_pos a). nra.
Qed.

Lemma pow2_lt (a b : Z) : (a < b)%Z -> pow2 a < pow2 b.
Proof.
  intros Hab. apply Qlt_le_trans with (pow2 (a + 1)); [|apply pow2_le; lia].
  rewrite pow2_add. change (pow2 1) with 2. pose proof (pow2_pos a). lra.
Qed.

Lemma ilog2_spec (q : Q) :
  ~ q == 0 -> pow2 (ilog2 q) <= Qabs q /\ Qabs q < pow2 (ilog2 q + 1).
Proof.
  intros Hq. destruct q as [a b].
  assert (Ha : (a <> 0)%Z).
  { intros ->. apply Hq. reflexivity. }
  unfold ilog2. cbn [Qnum Qden].
  set (la := Z.log2 (Z.abs a)). set (lb := Z.log2 (Z.pos b)).
  assert (Hla : (0 <= la)%Z) by apply Z.log2_nonneg.
  assert (Hlb : (0 <= lb)%Z) by apply Z.log2_nonneg.
  destruct (Z.log2_spec (Z.abs a)) as [Ha1 Ha2]; [lia|]. fold la in Ha1, Ha2.
  destruct (Z.log2_spec (Z.pos b)) as [Hb1 Hb2]; [lia|]. fold lb in Hb1, Hb2.
  assert (Hq' : Qabs (a # b) == inject_Z (Z.abs a) / inject_Z (Z.pos b)).
  { simpl. apply Qmake_Qdiv. }
  assert (HB : 0 < inject_Z (Z.pos b)).
  { change 0 with (inject_Z 0). rewrite <- Zlt_Qlt. lia. }
  assert (HA1 : pow2 la <= inject_Z (Z.abs a)).
  { rewrite pow2_Z by done. by rewrite <- Zle_Qle. }
  assert (HA2 : inject_Z (Z.abs a) < pow2 (la + 1)).
  { rewrite pow2_Z by lia. by rewrite <- Zlt_Qlt. }
  assert (HB1 : pow2 lb <= inject_Z (Z.pos b)).
  { rewrite pow2_Z by done. by rewrite <- Zle_Qle. }
  assert (HB2 : inject_Z (Z.pos b) < pow2 (lb + 1)).
  { rewrite pow2_Z by lia. by rewrite <- Zlt_Qlt. }
  assert (Hup : Qabs (a # b) < pow2 (la - lb + 1)).
  { rewrite Hq'. apply Qlt_shift_div_r; [done|].
    apply Qlt_le_trans with (pow2 (la + 1)); [done|].
    replace (la + 1)%Z with ((la - lb + 1) + lb)%Z by lia. rewrite pow2_add.
    pose proof (pow2_pos (la - lb + 1)). nra. }
  assert (Hlo : pow2 (la - lb - 1) <= Qabs (a # b)).
  { rewrite Hq'. apply Qle_shift_div_l; [done|].
    apply Qle_trans with (pow2 la); [|done].
    replace la with ((la - lb - 1) + (lb + 1))%Z at 2 by lia. rewrite pow2_add.
    pose proof (pow2_pos (la - lb - 1)). nra. }
  destruct (Qle_bool (pow2 (la - lb)) (Qabs (a # b))) eqn:E.
  - apply Qle_bool_iff in E. done.
  - split; [done|].
    replace (la - lb - 1 + 1)%Z with (la - lb)%Z by lia.
    apply Qnot_le_lt. intros H. apply Qle_bool_iff in H. congruence.
Qed.

Lemma nearest_even_nearest (x : Q) (z : Z) :
  Qabs (x - inject_Z (nearest_even x)) <= Qabs (x - inject_Z z).
Proof.
  pose proof (Qfloor_le x) as Hf1. pose proof (Qlt_floor x) as Hf2.
  rewrite inject_Z_plus in Hf2. change (inject_Z 1) with 1 in Hf2.
  assert (Hz : inject_Z z <= inject_Z (Qfloor x) \/ inject_Z (Qfloor x) + 1 <= inject_Z z).
  { destruct (Z_le_gt_dec z (Qfloor x)) as [H|H].
    - left. by rewrite <- Zle_Qle.
    - right. change 1 with (inject_Z 1). rewrite <- inject_Z_plus, <- Zle_Qle. lia. }
  unfold nearest_even.
  destruct (Qcompare_spec (x - inject_Z (Qfloor x)) (1 # 2)) as [Hd|Hd|Hd];
    [destruct (Z.even (Qfloor x))|..];
    rewrite ?inject_Z_plus; change (inject_Z 1) with 1;
    apply Qabs_Qle_condition;
    destruct Hz as [Hz|Hz];
    (apply (Qabs_case (x - inject_Z z)); intros Hs; split; lra).
Qed.

Lemma nearest_even_half (x : Q) : Qabs (x - inject_Z (nearest_even x)) <= 1 # 2.
Proof.
  pose proof (Qfloor_le x) as Hf1. pose proof (Qlt_floor x) as Hf2.
  rewrite inject_Z_plus in Hf2. change (inject_Z 1) with 1 in Hf2.
  unfold nearest_even.
  destruct (Qcompare_spec (x - inject_Z (Qfloor x)) (1 # 2)) as [Hd|Hd|Hd];
    [destruct (Z.even (Qfloor x))|..];
    rewrite ?inject_Z_plus; change (inject_Z 1) with 1;
    apply Qabs_Qle_condition; split; lra.
Qed.

Global Instance nearest_even_comp : Proper (Qeq ==> eq) nearest_even.
Proof.
  intros x y Hxy. unfold nearest_even.
  rewrite (Qfloor_comp _ _ Hxy).
  assert (Hc : Qcompare (x - inject_Z (Qfloor y)) (1 # 2) = Qcompare (y - inject_Z (Qfloor y)) (1 # 2)).
  { by rewrite Hxy. }
  by rewrite Hc.
Qed.

(** How [rnd] works on a number other than zero: it picks the binade of
    [q], and the nearest multiple of the binade's quantum. *)
Lemma rnd_nonzero (q : Q) :
  ~ q == 0 ->
  exists e : Z,
    pow2 e <= Qabs q /\ Qabs q < pow2 (e + 1) /\
    rnd q == inject_Z (nearest_even (q / pow2 (Z.max (e - 52) (-1074)))) *
             pow2 (Z.max (e - 52) (-1074)).
Proof.
  intros Hq. unfold rnd.
  assert (Hr : Qred q == q) by apply Qred_correct.
  destruct (Qeq_bool (Qred q) 0) eqn:E.
  { apply Qeq_bool_iff in E. rewrite Hr in E. done. }
  destruct (ilog2_spec (Qred q)) as [H1 H2]; [by rewrite Hr|].
  unfold quantum. generalize dependent (ilog2 (Qred q)). intros e H1 H2.
  exists e. rewrite (Qabs_wd _ _ Hr) in H1, H2. split; [done|]. split; [done|].
  rewrite Qred_correct.
  by rewrite (nearest_even_comp _ _ (Qdiv_comp _ _ Hr _ _ (Qeq_refl _))).
Qed.

Lemma rnd_zero (q : Q) : q == 0 -> rnd q = 0.
Proof.
  intros Hq. unfold rnd.
  assert (E : Qeq_bool (Qred q) 0 = true).
  { apply Qeq_bool_iff. by rewrite Qred_correct. }
  by rewrite E.
Qed.

Global Instance rnd_comp : Proper (Qeq ==> eq) rnd.
Proof. intros x y Hxy. unfold rnd. by rewrite (Qred_complete _ _ Hxy). Qed.

Lemma nearest_even_le (x : Q) (z : Z) : x <= inject_Z z -> (nearest_even x <= z)%Z.
Proof.
  intros Hx. destruct (Z_le_gt_dec (nearest_even x) z) as [H|H]; [done|exfalso].
  pose proof (nearest_even_nearest x z) as Hn.
  assert (Hz : inject_Z z + 1 <= inject_Z (nearest_even x)).
  { change 1 with (inject_Z 1). rewrite <- inject_Z_plus, <- Zle_Qle. lia. }
  revert Hn. apply (Qabs_case (x - inject_Z (nearest_even x))); intros H1;
    apply (Qabs_case (x - inject_Z z)); intros H2 Hn; lra.
Qed.

Lemma nearest_even_ge (x : Q) (z : Z) : inject_Z z <= x -> (z <= nearest_even x)%Z.
Proof.
  intros Hx. destruct (Z_le_gt_dec z (nearest_even x)) as [H|H]; [done|exfalso].
  pose proof (nearest_even_nearest x z) as Hn.
  assert (Hz : inject_Z (nearest_even x) + 1 <= inject_Z z).
  { change 1 with (inject_Z 1). rewrite <- inject_Z_plus, <- Zle_Qle. lia. }
  revert Hn. apply (Qabs_case (x - inject_Z (nearest_even x))); intros H1;
    apply (Qabs_case (x - inject_Z z)); intros H2 Hn; lra.
Qed.

Lemma scale_back (q : Q) (c : Z) : q == q / pow2 c * pow2 c.
Proof. pose proof (pow2_pos c). field. lra. Qed.

Lemma Qabs_scaled (x y : Q) (c : Z) :
  Qabs (x * pow2 c - y * pow2 c) == Qabs (x - y) * pow2 c.
Proof.
  assert (E : x * pow2 c - y * pow2 c == (x - y) * pow2 c) by ring.
  rewrite E, Qabs_Qmult. rewrite (Qabs_pos (pow2 c)); [reflexivity|].
  apply Qlt_le_weak, pow2_pos.
Qed.

Lemma scaled_nearest (q : Q) (c z : Z) :
  Qabs (q - inject_Z (nearest_even (q / pow2 c)) * pow2 c) <=
  Qabs (q - inject_Z z * pow2 c).
Proof.
  rewrite (scale_back q c) at 1 3. rewrite !Qabs_scaled.
  apply Qmult_le_compat_r; [apply nearest_even_nearest|].
  apply Qlt_le_weak, pow2_pos.
Qed.

Lemma rnd_representable (q : Q) : representable (rnd q).
Proof.
  destruct (Qeq_dec q 0) as [Hq|Hq].
  - rewrite (rnd_zero q Hq). exists 0%Z, 0%Z. split; [lia|]. split; [lia|]. reflexivity.
  - destruct (rnd_nonzero q Hq) as (e & H1 & H2 & Hr).
    set (c := Z.max (e - 52) (-1074)) in *.
    exists (nearest_even (q / pow2 c)), c. split; [lia|]. split; [|done].
    assert (Hb : Qabs q <= inject_Z (2 ^ 53) * pow2 c).
    { rewrite <- (pow2_Z 53) by lia. rewrite <- pow2_add.
      apply Qlt_le_weak, Qlt_le_trans with (pow2 (e + 1)); [done|]. apply pow2_le. lia. }
    pose proof (pow2_pos c) as Hc.
    apply Z.abs_le. split.
    + apply nearest_even_ge. apply Qle_shift_div_l; [done|].
      rewrite inject_Z_opp. revert Hb. apply (Qabs_case q); intros; lra.
    + apply nearest_even_le. apply Qle_shift_div_r; [done|].
      revert Hb. apply (Qabs_case q); intros; lra.
Qed.

(** [rnd q] is a nearest representable number. *)
Lemma rnd_nearest (q f : Q) : representable f -> Qabs (q - rnd q) <= Qabs (q - f).
Proof.
  intros (m & k & Hk & Hm & Hf).
  destruct (Qeq_dec q 0) as [Hq|Hq].
  { rewrite (rnd_zero q Hq), Hq. unfold Qminus. rewrite Qplus_0_l.
    change (- 0) with 0. change (Qabs 0) with 0. apply Qabs_nonneg. }
  destruct (rnd_nonzero q Hq) as (e & H1 & H2 & Hr).
  set (c := Z.max (e - 52) (-1074)) in *. rewrite Hr.
  destruct (Z_le_gt_dec c k) as [Hck|Hck].
  - assert (E : f == inject_Z (m * 2 ^ (k - c)) * pow2 c).
    { rewrite Hf, inject_Z_mult, <- (pow2_Z (k - c)) by lia.
      rewrite <- Qmult_assoc, <- pow2_add. by replace (k - c + c)%Z with k by lia. }
    rewrite E. apply scaled_nearest.
  - assert (Hc : c = (e - 52)%Z) by lia.
    assert (Hfe : Qabs f <= pow2 e).
    { rewrite Hf, Qabs_Qmult, (Qabs_pos (pow2 k)) by apply Qlt_le_weak, pow2_pos.
      apply Qle_trans with (inject_Z (2 ^ 53) * pow2 k).
      - apply Qmult_le_compat_r; [|apply Qlt_le_weak, pow2_pos].
        change (Qabs (inject_Z m)) with (inject_Z (Z.abs m)). by rewrite <- Zle_Qle.
      - rewrite <- (pow2_Z 53), <- pow2_add by lia. apply pow2_le. lia. }
    assert (He : pow2 e == inject_Z (2 ^ 52) * pow2 c).
    { rewrite <- (pow2_Z 52), <- pow2_add by lia. by replace (52 + c)%Z with e by lia. }
    destruct (Qlt_le_dec 0 q) as [Hpos|Hneg].
    + eapply Qle_trans; [apply (scaled_nearest q c (2 ^ 52))|]. rewrite <- He.
      revert H1 Hfe. apply (Qabs_case q); intros Hs1 H1; [|lra].
      apply (Qabs_case f); intros Hs2 Hfe;
        apply (Qabs_case (q - pow2 e)); intros Hs3;
        apply (Qabs_case (q - f)); intros Hs4; lra.
    + eapply Qle_trans; [apply (scaled_nearest q c (- 2 ^ 52))|].
      rewrite inject_Z_opp.
      assert (E : - inject_Z (2 ^ 52) * pow2 c == - pow2 e) by (rewrite He; ring).
      rewrite E.
      revert H1 Hfe. apply (Qabs_case q); intros Hs1 H1.
      { exfalso. apply Hq. lra. }
      apply (Qabs_case f); intros Hs2 Hfe;
        apply (Qabs_case (q - - pow2 e)); intros Hs3;
        apply (Qabs_case (q - f)); intros Hs4; lra.
Qed.

(** A representable number is not changed by rounding; rounding does not
    cross a representable number. *)
Lemma rnd_exact (f : Q) : representable f -> rnd f == f.
Proof.
  intros Hf. pose proof (rnd_nearest f f Hf) as H.
  assert (E : f - f == 0) by ring. rewrite E in H. change (Qabs 0) with 0 in H.
  revert H. apply (Qabs_case (f - rnd f)); intros; lra.
Qed.

Lemma rnd_le (q b : Q) : representable b -> q <= b -> rnd q <= b.
Proof.
  intros Hb Hq. pose proof (rnd_nearest q b Hb) as H.
  revert H. apply (Qabs_case (q - rnd q)); intros H1;
    apply (Qabs_case (q - b)); intros H2 H; lra.
Qed.

Lemma rnd_ge (q a : Q) : representable a -> a <= q -> a <= rnd q.
Proof.
  intros Ha Hq. pose proof (rnd_nearest q a Ha) as H.
  revert H. apply (Qabs_case (q - rnd q)); intros H1;
    apply (Qabs_case (q - a)); intros H2 H; lra.
Qed.

Lemma rnd_monotone (p q : Q) : p <= q -> rnd p <= rnd q.
Proof.
  intros Hpq.
  pose proof (rnd_nearest p (rnd q) (rnd_representable q)) as H1.
  pose proof (rnd_nearest q (rnd p) (rnd_representable p)) as H2.
  destruct (Qlt_le_dec (rnd q) (rnd p)) as [Hlt|]; [|done]. exfalso.
  assert (Hp : p == q).
  { revert H1 H2.
    apply (Qabs_case (p - rnd p)); intros A1;
      apply (Qabs_case (p - rnd q)); intros A2 H1;
      apply (Qabs_case (q - rnd q)); intros A3;
      apply (Qabs_case (q - rnd p)); intros A4 H2; lra. }
  rewrite (rnd_comp _ _ Hp) in Hlt. lra.
Qed.

(** The rounding error is at most half a quantum: a relative [2^-53] in the
    normal range, [2^-1075] below it. *)
Lemma rnd_error (q : Q) : Qabs (q - rnd q) <= Qabs q * pow2 (-53) + pow2 (-1075).
Proof.
  destruct (Qeq_dec q 0) as [Hq|Hq].
  { rewrite (rnd_zero q Hq), Hq. change (Qabs (0 - 0)) with 0. change (Qabs 0) with 0.
    pose proof (pow2_pos (-1075)). lra. }
  destruct (rnd_nonzero q Hq) as (e & H1 & H2 & Hr).
  set (c := Z.max (e - 52) (-1074)) in *. rewrite Hr.
  rewrite (scale_back q c) at 1. rewrite Qabs_scaled.
  pose proof (nearest_even_half (q / pow2 c)) as Hh.
  pose proof (pow2_pos c) as Hc. pose proof (pow2_pos (-1075)) as Hd.
  pose proof (pow2_pos (-53)) as Hd'. pose proof (Qabs_nonneg q) as Hq0.
  assert (Hhalf : Qabs (q / pow2 c - inject_Z (nearest_even (q / pow2 c))) * pow2 c
                  <= pow2 (c - 1)).
  { assert (E : pow2 c == pow2 (c - 1) * 2).
    { replace c with ((c - 1) + 1)%Z at 1 by lia. by rewrite pow2_add. }
    revert Hh. generalize (Qabs (q / pow2 c - inject_Z (nearest_even (q / pow2 c)))).
    intros t Ht. rewrite E. pose proof (pow2_pos (c - 1)). nra. }
  eapply Qle_trans; [exact Hhalf|].
  destruct (Z_le_gt_dec (-1074) (e - 52)) as [Hn|Hs].
  - replace (c - 1)%Z with (e + -53)%Z by lia. rewrite pow2_add. nra.
  - replace (c - 1)%Z with (-1075)%Z by lia. nra.
Qed.

Global Instance representable_comp : Proper (Qeq ==> iff) representable.
Proof.
  intros x y Hxy. unfold representable. split; intros (m & c & ? & ? & E); exists m, c;
    (split; [done|]); (split; [done|]); by rewrite <- E.
Qed.

Lemma representable_scaled (n j : Z) :
  (Z.abs n <= 2 ^ 53)%Z -> (-1074 <= j)%Z -> representable (inject_Z n * pow2 j).
Proof. intros Hn Hj. by exists n, j. Qed.

Lemma representable_Z (n : Z) : (Z.abs n <= 2 ^ 53)%Z -> representable (inject_Z n).
Proof.
  intros Hn. exists n, 0%Z. split; [lia|]. split; [done|].
  change (pow2 0) with 1. by rewrite Qmult_1_r.
Qed.

Lemma representable_opp (f : Q) : representable f -> representable (- f).
Proof.
  intros (m & c & Hc & Hm & E). exists (- m)%Z, c. split; [done|]. split; [lia|].
  rewrite E, inject_Z_opp. ring.
Qed.

(** A binary64 value below 1 is at most [1 - 2^-53]. *)
Lemma representable_below_one (f : Q) : representable f -> f < 1 -> f <= 1 - pow2 (-53).
Proof.
  intros (m & c & Hc & Hm & E) Hf.
  change (pow2 (-53)) with (1 # 9007199254740992).
  destruct (Z_le_gt_dec (-53) c) as [Hbig|Hsmall].
  - assert (Ez : f == inject_Z (m * 2 ^ (c + 53)) * (1 # 9007199254740992)).
    { change (1 # 9007199254740992) with (pow2 (-53)).
      rewrite E, inject_Z_mult, <- (pow2_Z (c + 53)) by lia.
      rewrite <- Qmult_assoc, <- pow2_add. by replace (c + 53 + -53)%Z with c by lia. }
    set (z := (m * 2 ^ (c + 53))%Z) in *.
    assert (Hz : (z < 9007199254740992)%Z).
    { rewrite Zlt_Qlt. rewrite Ez in Hf.
      change (inject_Z 9007199254740992) with (9007199254740992 # 1).
      generalize dependent (inject_Z z). intros. lra. }
    assert (Hz' : inject_Z z <= inject_Z 9007199254740991) by (rewrite <- Zle_Qle; lia).
    rewrite Ez. change (inject_Z 9007199254740991) with (9007199254740991 # 1) in Hz'. lra.
  - assert (Hle : f <= inject_Z (2 ^ 53) * pow2 (-54)).
    { rewrite E. apply Qle_trans with (inject_Z (2 ^ 53) * pow2 c).
      - apply Qmult_le_compat_r; [|apply Qlt_le_weak, pow2_pos]. rewrite <- Zle_Qle. lia.
      - apply Qmult_le_l; [reflexivity|]. apply pow2_le. lia. }
    assert (Eh : inject_Z (2 ^ 53) * pow2 (-54) == 1 # 2) by reflexivity.
    rewrite Eh in Hle. lra.
Qed.

(** Rounding within a known magnitude. *)
Lemma rnd_within (q B : Q) :
  Qabs q <= B ->
  q - (B * pow2 (-53) + pow2 (-1075)) <= rnd q /\
  rnd q <= q + (B * pow2 (-53) + pow2 (-1075)).
Proof.
  intros HB. pose proof (rnd_error q) as He. pose proof (pow2_pos (-53)) as Hp.
  assert (Qabs q * pow2 (-53) <= B * pow2 (-53)) by (apply Qmult_le_compat_r; lra).
  revert He. apply (Qabs_case (q - rnd q)); intros; split; lra.
Qed.

(** [rnd_within] with the two constants written out ([2^-53], and
    [2^-100] in place of [2^-1075]). *)
Lemma rnd_close (q B : Q) :
  Qabs q <= B ->
  q - (B * (1 # 9007199254740992) + (1 # 1267650600228229401496703205376)) <= rnd q /\
  rnd q <= q + (B * (1 # 9007199254740992) + (1 # 1267650600228229401496703205376)).
Proof.
  intros HB. destruct (rnd_within q B HB) as [H1 H2].
  change (pow2 (-53)) with (1 # 9007199254740992) in H1, H2.
  assert (Ht : pow2 (-1075) <= 1 # 1267650600228229401496703205376).
  { change (1 # 1267650600228229401496703205376) with (pow2 (-100)). apply pow2_le. lia. }
  revert H1 H2 Ht. generalize (pow2 (-1075)). intros t H1 H2 Ht. split; lra.
Qed.

(** Rounding stays below [b] when a representable number below [b] is
    nearer. *)
Lemma rnd_lt (q b f : Q) : representable f -> f < b -> q - f < b - q -> rnd q < b.
Proof.
  intros Hf Hfb Hq.
  destruct (Qlt_le_dec q f) as [Hlt|Hge].
  - apply Qle_lt_trans with f; [|done]. apply rnd_le; [done|]. lra.
  - pose proof (rnd_nearest q f Hf) as Hn.
    apply Qnot_le_lt. intros Hb. revert Hn.
    apply (Qabs_case (q - rnd q)); intros H1;
      apply (Qabs_case (q - f)); intros H2 Hn; lra.
Qed.

Lemma representable_0 : representable 0.
Proof. apply (representable_Z 0). lia. Qed.

Lemma mul_nonneg (x y : Q) : 0 <= x -> 0 <= y -> 0 <= Double.mul x y.
Proof.
  intros Hx Hy. apply rnd_ge; [apply representable_0|]. by apply Qmult_le_0_compat.
Qed.

End Rounding.

Arguments Double.rnd : simpl never.
Arguments Double.add : simpl never.
Arguments Double.sub : simpl never.
Arguments Double.mul : simpl never.
Arguments Double.div : simpl never.

(** ** The centre of a cell in binary64 *)

Section Centres.
Import Double.
Local Open Scope Q_scope.

(** [(l + r)/2 - b] as the script computes it, against the point half-way
    between [l] and [r], relative to [b]: three roundings, each within
    [2^-53] of its operand. *)
Lemma mid_near (l r b M : Q) :
  1 <= M -> Qabs l <= M -> Qabs r <= M -> Qabs b <= M ->
  Qabs (sub (div (add l r) 2) b - (l + (r - l) / 2 - b)) <= M * (1 # 1125899906842624).
Proof.
  intros HM Hl Hr Hb.
  apply Qabs_Qle_condition in Hl as [Hl1 Hl2]. apply Qabs_Qle_condition in Hr as [Hr1 Hr2].
  apply Qabs_Qle_condition in Hb as [Hb1 Hb2].
  unfold sub, div, add.
  destruct (rnd_close (l + r) (2 * M)) as [S1 S2].
  { apply Qabs_Qle_condition. split; lra. }
  revert S1 S2. generalize (rnd (l + r)). intros s S1 S2.
  assert (Es : s / 2 == s * (1 # 2)) by field.
  destruct (rnd_close (s / 2) (2 * M)) as [H1 H2].
  { rewrite Es. apply Qabs_Qle_condition. split; lra. }
  revert H1 H2. generalize (rnd (s / 2)). intros h H1 H2. rewrite Es in H1, H2.
  destruct (rnd_close (h - b) (4 * M)) as [D1 D2].
  { apply Qabs_Qle_condition. split; lra. }
  revert D1 D2. generalize (rnd (h - b)). intros d D1 D2.
  assert (Em : (r - l) / 2 == (r - l) * (1 # 2)) by field. rewrite Em.
  apply Qabs_Qle_condition. split; lra.
Qed.

(** On the grid the three operations are exact. *)
Lemma mid_exact (j : Z) (l r b : Q) :
  (0 <= j <= 1000)%Z -> on_grid j l -> on_grid j r -> on_grid j b ->
  sub (div (add l r) 2) b == l + (r - l) / 2 - b.
Proof.
  intros Hj (nl & Hnl & El) (nr & Hnr & Er) (nb & Hnb & Eb).
  unfold sub, div, add.
  assert (E1 : l + r == inject_Z (nl + nr) * pow2 (- j)).
  { rewrite El, Er, inject_Z_plus. ring. }
  assert (S1 : rnd (l + r) == l + r).
  { apply rnd_exact. rewrite E1. apply representable_scaled; lia. }
  assert (Hh : pow2 (- j) == 2 * pow2 (- j - 1)).
  { replace (- j)%Z with (1 + (- j - 1))%Z at 1 by lia. by rewrite pow2_add. }
  assert (E2 : (l + r) / 2 == inject_Z (nl + nr) * pow2 (- j - 1)).
  { rewrite E1, Hh. field. }
  assert (S2 : rnd (rnd (l + r) / 2) == (l + r) / 2).
  { rewrite S1. apply rnd_exact. rewrite E2. apply representable_scaled; lia. }
  assert (E3 : (l + r) / 2 - b == inject_Z (nl + nr + - (2 * nb)) * pow2 (- j - 1)).
  { rewrite E2, Eb, Hh, (inject_Z_plus (nl + nr)), inject_Z_opp, inject_Z_mult.
    change (inject_Z 2) with 2. ring. }
  rewrite S2. rewrite (rnd_exact ((l + r) / 2 - b)).
  - field.
  - rewrite E3. apply representable_scaled; lia.
Qed.

Lemma centre_near (M : Q) (b r : Dom.Rect) :
  1 <= M -> within M b -> within M r ->
  near M (sub (center_x r) (Dom.r_left b), sub (center_y r) (Dom.r_top b)) (centre_in b r).
Proof.
  intros HM (B1 & _ & B3 & _) (R1 & R2 & R3 & R4).
  split; cbn [fst snd centre_in]; unfold center_x, center_y; by apply mid_near.
Qed.

Lemma centre_exact (j : Z) (b r : Dom.Rect) :
  (0 <= j <= 1000)%Z -> rect_on_grid j b -> rect_on_grid j r ->
  same_point (sub (center_x r) (Dom.r_left b), sub (center_y r) (Dom.r_top b))
             (centre_in b r).
Proof.
  intros Hj (B1 & _ & B3 & _) (R1 & R2 & R3 & R4).
  split; cbn [fst snd centre_in]; unfold center_x, center_y; by apply (mid_exact j).
Qed.

End Centres.

(** ** Win detector *)

Section WinDetector.
Import Win.

Lemma truthy_Some (v : jsval) :
  truthy v = true <-> exists s, v = Some s /\ s <> "".
Proof.
  destruct v as [s|]; simpl.
  - rewrite negb_true_iff. split.
    + intros E. exists s. split; [done|]. intros ->. discriminate.
    + intros (t & [= <-] & Hne). apply String.eqb_neq. done.
  - split; [discriminate|]. intros (s & ? & _). discriminate.
Qed.

Lemma strict_eq_true (v w : jsval) : strict_eq v w = true <-> v = w.
Proof.
  destruct v as [s|], w as [t|]; simpl; try (split; congruence).
  rewrite String.eqb_eq. split; congruence.
Qed.

Lemma wins_fully_owned (b : list string) (l : line) :
  wins b l = true <-> fully_owned b l.
Proof.
  destruct l as [[a m] c]. unfold wins, fully_owned.
  rewrite !andb_true_iff, !strict_eq_true, truthy_Some. split.
  - intros [[(s & Ha & Hs) Hm] Hc]. exists s. repeat split; congruence.
  - intros (s & Hs & Ha & Hm & Hc). repeat split; [exists s; done | congruence..].
Qed.

Lemma wins_not_owned (b : list string) (l : line) :
  wins b l = false <-> ~ fully_owned b l.
Proof. rewrite <- wins_fully_owned. destruct (wins b l); split; congruence. Qed.

Lemma scan_Some (b : list string) (ls : list line) (l : line) :
  scan b ls = Some l <->
  exists before after,
    ls = before ++ l :: after /\ fully_owned b l /\
    forall l', In l' before -> ~ fully_owned b l'.
Proof.
  induction ls as [|l0 ls IH]; simpl.
  - split; [discriminate|]. intros ([|] & ? & ? & _); discriminate.
  - destruct (wins b l0) eqn:E.
    + split.
      * intros [= <-]. exists [], ls. split; [done|].
        split; [by apply wins_fully_owned | intros ? []].
      * intros ([|l1 before] & after & Heq & Hown & Hno); simplify_eq/=; [done|].
        exfalso. apply (Hno l1); [by left | by apply wins_fully_owned].
    + rewrite IH. split.
      * intros (before & after & -> & Hown & Hno).
        exists (l0 :: before), after. split; [done|]. split; [done|].
        intros l' [<-|Hin]; [by apply wins_not_owned | by apply Hno].
      * intros ([|l1 before] & after & Heq & Hown & Hno); simplify_eq/=.
        -- apply wins_fully_owned in Hown. congruence.
        -- exists before, after. split; [done|]. split; [done|].
           intros l' Hin. apply Hno. by right.
Qed.

Lemma scan_None (b : list string) (ls : list line) :
  scan b ls = None <-> forall l, In l ls -> ~ fully_owned b l.
Proof.
  induction ls as [|l0 ls IH]; simpl.
  - split; [intros _ ? [] | done].
  - destruct (wins b l0) eqn:E.
    + split; [discriminate|]. intros Hno. exfalso.
      apply (Hno l0); [by left | by apply wins_fully_owned].
    + rewrite IH. split.
      * intros Hno l [<-|Hin]; [by apply wins_not_owned | by apply Hno].
      * intros Hno l Hin. apply Hno. by right.
Qed.

Lemma lines_scan_order : lines = scan_order.
Proof. reflexivity. Qed.

End WinDetector.

Section WinDetectorClaim.
Import Win.

Lemma split_unique {A : Type} (l p1 s1 p2 s2 : list A) (x : A) :
  NoDup l -> l = p1 ++ x :: s1 -> l = p2 ++ x :: s2 -> p1 = p2.
Proof.
  intros Hnd E1 E2. subst l. revert p2 Hnd E2.
  induction p1 as [|a p1 IH]; intros [|a2 p2] Hnd E2; simplify_eq/=.
  - done.
  - apply NoDup_cons in Hnd as [Hn _]. exfalso. apply Hn.
    apply elem_of_app. right. by left.
  - apply NoDup_cons in Hnd as [Hn _]. exfalso. apply Hn.
    apply elem_of_app. right. by left.
  - f_equal. apply NoDup_cons in Hnd as [_ Hnd]. by apply IH.
Qed.

Lemma scan_order_NoDup : NoDup scan_order.
Proof. unfold scan_order. simpl. apply (bool_decide_unpack _). vm_compute. exact I. Qed.

Lemma findWinningTriple_first (b : list string) (l : line) :
  findWinningTriple b = Some l <-> first_owned b l.
Proof. unfold findWinningTriple, first_owned. rewrite lines_scan_order. apply scan_Some. Qed.

Lemma findWinningTriple_none (b : list string) :
  findWinningTriple b = None <-> forall l, In l scan_order -> ~ fully_owned b l.
Proof. unfold findWinningTriple. rewrite lines_scan_order. apply scan_None. Qed.

(** C1.  On a 9-cell board [findWinningTriple] returns exactly the first
    line of the scan order (rows, then columns, then diagonals) whose three
    cells are non-empty and identical, and returns nothing exactly when no
    line is fully owned.  Hence the only fully owned line is returned when
    there is exactly one, and of two fully owned lines the earlier one in the
    scan order is returned. *)
Theorem findWinningTriple_first_owned_line (b : list string) (H9 : length b = 9) :
  (forall l, findWinningTriple b = Some l <-> first_owned b l) /\
  (findWinningTriple b = None <-> forall l, In l scan_order -> ~ fully_owned b l) /\
  (forall l, In l scan_order -> fully_owned b l ->
             (forall l', In l' scan_order -> fully_owned b l' -> l' = l) ->
             findWinningTriple b = Some l) /\
  (forall before l1 between l2 after,
      scan_order = before ++ l1 :: between ++ l2 :: after ->
      fully_owned b l1 -> fully_owned b l2 ->
      (forall l', In l' scan_order -> fully_owned b l' -> l' = l1 \/ l' = l2) ->
      findWinningTriple b = Some l1).
Proof.
  split; [apply findWinningTriple_first|].
  split; [apply findWinningTriple_none|].
  split.
  - intros l Hin Hown Huniq.
    destruct (findWinningTriple b) as [l'|] eqn:E.
    + apply findWinningTriple_first in E as (before & after & Heq & Hown' & _).
      f_equal. apply Huniq; [|done]. rewrite Heq. apply in_app_iff. right. by left.
    + exfalso. by apply (proj1 (findWinningTriple_none b) E l).
  - intros before l1 between l2 after Heq Hown1 Hown2 Honly.
    apply findWinningTriple_first. exists before, (between ++ l2 :: after).
    split; [done|]. split; [done|].
    intros l' Hin Hown'.
    assert (Hin' : In l' scan_order).
    { rewrite Heq. apply in_app_iff. by left. }
    apply in_split in Hin as (p & s & ->).
    pose proof scan_order_NoDup as Hnd.
    destruct (Honly l' Hin' Hown') as [-> | ->].
    + assert (Hp : p = p ++ l1 :: s).
      { eapply (split_unique scan_order _ _ _ _ l1 Hnd).
        - rewrite Heq, <- app_assoc. reflexivity.
        - exact Heq. }
      apply (f_equal length) in Hp. rewrite length_app in Hp. simpl in Hp. lia.
    + assert (Hp : p = (p ++ l2 :: s) ++ l1 :: between).
      { eapply (split_unique scan_order _ _ _ _ l2 Hnd).
        - rewrite Heq, <- app_assoc. reflexivity.
        - rewrite Heq. repeat (rewrite <- app_assoc; simpl). reflexivity. }
      apply (f_equal length) in Hp. rewrite !length_app in Hp. simpl in Hp. lia.
Qed.

Lemma findWinningTriple_first_owned_line_witness :
  findWinningTriple (board Examples.top_row_win) = Some (0, 1, 2).
Proof.
  apply (proj1 (proj2 (proj2 (findWinningTriple_first_owned_line
                                (board Examples.top_row_win) eq_refl)))).
  - by left.
  - exists "X". by repeat split.
  - intros l' Hin Hown.
    repeat (destruct Hin as [<-|Hin];
            [first [reflexivity | by destruct Hown as (s & Hs & Ha & Hm & Hc); simplify_eq/=]|]).
    destruct Hin.
Defined.

(** Two lines owned at once: the row comes before the column, the column
    before the diagonal. *)
Example row_before_column :
  findWinningTriple ["X"; "X"; "X"; "X"; "O"; "O"; "X"; ""; ""] = Some (0, 1, 2).
Proof. reflexivity. Qed.

Example column_before_diagonal :
  findWinningTriple [""; ""; "X"; ""; "X"; "X"; "X"; ""; "X"] = Some (2, 5, 8).
Proof. reflexivity. Qed.

Example no_line_on_drawn_board :
  findWinningTriple (board Examples.drawn_game) = None.
Proof. reflexivity. Qed.

End WinDetectorClaim.

(** ** Board renderer *)

Section Renderer.

Lemma render_cells_rects (b : list string) :
  forall i cs, map Dom.rect (render_cells i b cs) = map Dom.rect cs.
Proof.
  induction b as [|v b IH]; intros i cs; simpl; [done|].
  destruct (cs !! i) as [c|] eqn:E; [|done].
  rewrite IH. rewrite list_fmap_insert. simpl.
  apply list_insert_id. rewrite list_lookup_fmap, E. done.
Qed.

Lemma render_cells_length (b : list string) (i : nat) (cs : list Dom.Cell) :
  length (render_cells i b cs) = length cs.
Proof.
  rewrite <- (length_map Dom.rect), render_cells_rects. apply length_map.
Qed.

Lemma render_cells_rect_at (b : list string) (i j : nat) (cs : list Dom.Cell) :
  Dom.rect <$> render_cells i b cs !! j = Dom.rect <$> cs !! j.
Proof. rewrite <- !list_lookup_fmap. f_equal. apply render_cells_rects. Qed.

Lemma render_from_eq (b : list string) :
  forall i u,
    i + length b <= length (cells u) ->
    render_from i b u = (Done tt, set_cells (render_cells i b (cells u)) u).
Proof.
  induction b as [|v b IH]; intros i u Hlen; simpl in Hlen.
  - destruct u; reflexivity.
  - cbn [render_from render_cells]. unfold bind at 1, renderMark, bind at 1, get.
    destruct (cells u !! i) as [c|] eqn:E.
    + unfold modify. rewrite IH.
      * destruct u; reflexivity.
      * destruct u; simpl in *. rewrite length_insert. lia.
    + apply lookup_ge_None in E. lia.
Qed.

(** Whatever the mark, the rendered cell holds no character data. *)
Lemma rendered_text_empty (mark : string) :
  Dom.text_of (Dom.renderMark_children mark) = "" /\
  Dom.text_of (Dom.renderMark_first_children mark) = "".
Proof.
  unfold Dom.renderMark_children, Dom.renderMark_first_children.
  destruct (truthy (Some mark)); simpl; [|done].
  destruct (String.eqb mark "X"); done.
Qed.

Example trim_strips_both_ends : Dom.trim "  X O  " = "X O".
Proof. reflexivity. Qed.

(** A no-break space (U+00A0) in front, an em space (U+2003) and a byte
    order mark (U+FEFF) behind. *)
Example trim_strips_unicode_space :
  Dom.trim (string_of_list_ascii
              (map ascii_of_nat [194; 160; 88; 226; 128; 131; 239; 187; 191])) = "X".
Proof. reflexivity. Qed.

(** The bytes of U+2003 in another order are no white space. *)
Example trim_keeps_other_bytes :
  Dom.trim (string_of_list_ascii (map ascii_of_nat [88; 131; 128; 226])) =
  string_of_list_ascii (map ascii_of_nat [88; 131; 128; 226]).
Proof. reflexivity. Qed.

End Renderer.

(** ** Sound and confetti *)

Section Confetti.

Lemma beep_eq (f : Z) (d v : Q) (u : UI) :
  beep f d v u =
  (Done tt,
   if audioCtx (env u) && soundOn u
   then set_timers (timers u ++
                      [(Double.add (Double.mul (Double.rnd d) 1000) 20, StopOscillator)])
          (set_log (log u ++ [Beep f d v]) u)
   else u).
Proof.
  unfold beep, bind, get, emit, setTimeout, modify.
  destruct u as [e g so cs stx sx so' wl tm rq c2 fo rc lg]; simpl.
  destruct (audioCtx e), so; reflexivity.
Qed.

Lemma new_piece_eq (W H : N) (u : UI) :
  new_piece W H u =
  (Done (piece_of (env u) W H (randomCalls u)), set_randomCalls (8 + randomCalls u) u).
Proof. destruct u; reflexivity. Qed.

Lemma seed_eq (W H : N) (n : nat) :
  forall u,
    seed n W H u =
    (Done (batch (env u) W H (randomCalls u) n), set_randomCalls (8 * n + randomCalls u) u).
Proof.
  induction n as [|n IH]; intros u.
  - destruct u; reflexivity.
  - cbn [seed batch]. unfold bind at 1. rewrite new_piece_eq.
    unfold bind at 1. rewrite IH. unfold ret.
    destruct u; cbn. f_equal. unfold set_randomCalls; cbn. f_equal. lia.
Qed.

Lemma batch_length (e : Env) (W H : N) (n : nat) :
  forall k, length (batch e W H k n) = n.
Proof. induction n as [|n IH]; intros k; simpl; [done|]. by rewrite IH. Qed.


Lemma launchConfetti_eq (u : UI) :
  launchConfetti u =
  (Done tt,
   if ctx (env u) then
     let W := canvasW (env u) in
     let H := canvasH (env u) in
     let n := N.to_nat (particle_count W) in
     set_rafQueue (rafQueue u ++ [mkRun W H (batch (env u) W H (randomCalls u) n) 0])
       (set_log ((log u ++ [Called LaunchConfetti]) ++ [RequestAnimationFrame])
          (set_randomCalls (8 * n + randomCalls u) u))
   else set_log (log u ++ [Called LaunchConfetti]) u).
Proof.
  unfold launchConfetti, emit. unfold bind at 1, modify. unfold bind at 1, get.
  cbn [env set_log].
  destruct (ctx (env u)) eqn:E; cbn [negb].
  - unfold bind at 1. rewrite seed_eq. unfold requestAnimationFrame, bind, emit, modify.
    destruct u; reflexivity.
  - destruct u; reflexivity.
Qed.

End Confetti.

Section ConfettiBatch.

Lemma new_runs_launch (u : UI) :
  ctx (env u) = true ->
  new_runs u (exec launchConfetti u) =
  [mkRun (canvasW (env u)) (canvasH (env u))
     (batch (env u) (canvasW (env u)) (canvasH (env u)) (randomCalls u)
        (N.to_nat (particle_count (canvasW (env u))))) 0].
Proof.
  intros Hctx. unfold new_runs, exec. rewrite launchConfetti_eq, Hctx.
  cbn [snd]. destruct u; cbn. by rewrite drop_app_length.
Qed.




End ConfettiBatch.

(** ** The confetti tick loop *)

Section ConfettiLoop.

Lemma count_app (f : event -> bool) (l k : list event) :
  count f (l ++ k) = count f l + count f k.
Proof. unfold count. by rewrite List.filter_app, length_app. Qed.

Lemma count_cons (f : event -> bool) (e : event) (l : list event) :
  count f (e :: l) = (if f e then 1 else 0) + count f l.
Proof. unfold count. simpl. by destruct (f e). Qed.

Lemma count_draws (f : event -> bool) (evs : list event) :
  (forall o, f (Draw o) = false) ->
  Forall (fun e => is_draw e = true) evs -> count f evs = 0.
Proof.
  intros Hf. induction 1 as [|e evs He _ IH]; [done|].
  unfold count in *. simpl. destruct e; try discriminate He. by rewrite Hf.
Qed.

Lemma drew_refl (u : UI) : drew u u.
Proof.
  unfold drew. split; [by destruct u|]. do 3 (split; [done|]).
  exists []. by rewrite app_nil_r.
Qed.

Lemma drew_trans (u v w : UI) : drew u v -> drew v w -> drew u w.
Proof.
  intros (E1 & T1 & F1 & S1 & evs1 & L1 & D1) (E2 & T2 & F2 & S2 & evs2 & L2 & D2).
  unfold drew. split.
  { rewrite E2 at 1. rewrite E1. by destruct u. }
  split; [congruence|]. split; [congruence|]. split; [congruence|].
  exists (evs1 ++ evs2). split.
  - by rewrite L2, L1, app_assoc.
  - by apply Forall_app.
Qed.

Lemma draw_eq (o : Canvas.op) (u : UI) :
  draw o u =
  (Done tt,
   set_ctx2d (Canvas.apply (canvasW (env u)) (canvasH (env u)) o (ctx2d u))
     (set_log (log u ++ [Draw o]) u)).
Proof. by destruct u. Qed.

Lemma paint_piece_drew (p : Piece) (u : UI) :
  exists u', paint_piece p u = (Done tt, u') /\ drew u u'.
Proof.
  unfold paint_piece. unfold bind. rewrite !draw_eq.
  eexists. split; [reflexivity|].
  destruct u as [e g so cs stx sx so' wl tm rq [tr fs sv pt] fo rc lg].
  unfold drew; cbn.
  destruct (p_c p); cbn; (split; [reflexivity|]); do 3 (split; [reflexivity|]);
    eexists; (split; [rewrite <- !app_assoc; reflexivity|]);
    repeat constructor.
Qed.

Lemma frame_pieces_drew (ps : list Piece) :
  forall u, exists u', frame_pieces ps u = (Done (map advance ps), u') /\ drew u u'.
Proof.
  induction ps as [|p ps IH]; intros u.
  - exists u. split; [done | apply drew_refl].
  - cbn [frame_pieces map]. unfold bind at 1.
    destruct (paint_piece_drew (advance p) u) as (u1 & -> & D1).
    unfold bind at 1. destruct (IH u1) as (u2 & -> & D2).
    exists u2. split; [done | by eapply drew_trans].
Qed.

Lemma covers_canvas (cw ch : N) :
  Canvas.covers cw ch [] 0 0 (QofN cw) (QofN ch) = true.
Proof.
  unfold Canvas.covers, QofN. rewrite !andb_true_iff.
  repeat split; apply Qle_bool_iff; try done; rewrite Qplus_0_l; apply Qle_refl.
Qed.

(** One call of [frame] on a run of this canvas, the context being in its
    identity transformation. *)
Lemma frame_step (r : Run) (u : UI) :
  ctx (env u) = true ->
  Canvas.transform (ctx2d u) = [] ->
  run_W r = canvasW (env u) -> run_H r = canvasH (env u) ->
  exists u' evs,
    frame r u = (Done tt, u') /\
    env u' = env u /\
    Canvas.transform (ctx2d u') = [] /\
    log u' = log u ++ Called Frame :: evs /\
    count is_frame_call evs = 0 /\
    if S (run_t r) <? TICKS then
      rafQueue u' =
        rafQueue u ++ [mkRun (run_W r) (run_H r) (map advance (run_pieces r)) (S (run_t r))] /\
      count is_frame_request evs = 1
    else
      rafQueue u' = rafQueue u /\
      Canvas.painted (ctx2d u') = [] /\
      last (log u') = Some (full_clear r) /\
      count is_frame_request evs = 0.
Proof.
  intros Hctx Htr HW HH. unfold frame.
  unfold bind at 1, emit, modify. unfold bind at 1. rewrite draw_eq.
  unfold bind at 1.
  match goal with |- context [frame_pieces ?ps ?v] =>
    destruct (frame_pieces_drew ps v) as (u2 & -> & (E2 & T2 & F2 & S2 & evs2 & L2 & D2))
  end.
  cbn [env set_ctx2d set_log ctx2d log Canvas.apply] in *.
  rewrite Htr, HW, HH, covers_canvas in *. cbn [Canvas.transform] in T2.
  destruct (S (run_t r) <? TICKS) eqn:Ht.
  - unfold requestAnimationFrame, bind, emit, modify.
    eexists _, (Draw _ :: evs2 ++ [RequestAnimationFrame]).
    split; [reflexivity|]. rewrite E2.
    split; [done|]. split; [done|].
    split. { cbn. rewrite L2. by rewrite <- !app_assoc. }
    split. { rewrite count_cons, count_app, count_draws; done. }
    split; [done|].
    rewrite count_cons, count_app, count_draws; done.
  - rewrite draw_eq.
    eexists _, (Draw _ :: evs2 ++ [full_clear r]).
    split; [reflexivity|]. rewrite E2.
    split; [done|].
    split. { cbn. rewrite T2, covers_canvas. done. }
    split. { cbn. rewrite L2. unfold full_clear. rewrite HW, HH. by rewrite <- !app_assoc. }
    split. { rewrite count_cons, count_app, count_draws; done. }
    split; [done|].
    split. { cbn. rewrite T2, covers_canvas. done. }
    split. { cbn. unfold full_clear. rewrite HW, HH. by rewrite last_snoc. }
    rewrite count_cons, count_app, count_draws; done.
Qed.

End ConfettiLoop.

Section ConfettiRun.

Lemma animation_tick_eq (u : UI) :
  animation_tick u = run_frames (rafQueue u) (set_rafQueue [] u).
Proof. reflexivity. Qed.

Lemma tick_single (r : Run) (u : UI) :
  rafQueue u = [r] -> exec animation_tick u = exec (frame r) (set_rafQueue [] u).
Proof.
  intros Hq. unfold exec, animation_tick, bind, get, modify. rewrite Hq.
  cbn [run_frames]. unfold bind.
  destruct (frame r (set_rafQueue [] u)) as [[[]|e] u']; reflexivity.
Qed.

Lemma animate_idle (fuel : nat) (u : UI) : rafQueue u = [] -> animate fuel u = (0, u).
Proof. intros Hq. destruct fuel; simpl; [done|]. by rewrite Hq. Qed.

(** A run with [k >= 1] ticks of its budget left takes exactly [k] more
    animation ticks, then requests nothing and leaves a wiped canvas. *)
Lemma animate_run (k : nat) :
  forall (fuel : nat) (u : UI) (r : Run),
    rafQueue u = [r] ->
    ctx (env u) = true ->
    Canvas.transform (ctx2d u) = [] ->
    run_W r = canvasW (env u) -> run_H r = canvasH (env u) ->
    run_t r + S k = TICKS ->
    S k <= fuel ->
    exists u' evs,
      animate fuel u = (S k, u') /\
      rafQueue u' = [] /\
      Canvas.painted (ctx2d u') = [] /\
      last (log u') = Some (full_clear r) /\
      log u' = log u ++ evs /\
      count is_frame_call evs = S k /\
      count is_frame_request evs = k.
Proof.
  induction k as [|k IH]; intros fuel u r Hq Hctx Htr HW HH Ht Hfuel;
    (destruct fuel as [|fuel]; [lia|]); cbn [animate]; rewrite Hq;
    rewrite (tick_single r u Hq);
    destruct (frame_step r (set_rafQueue [] u)) as (u1 & evs & Hf & He & Htr1 & Hl & Hc & Hrest);
    try (by destruct u);
    unfold exec; rewrite Hf; cbn [snd].
  - replace (S (run_t r) <? TICKS) with false in Hrest
      by (symmetry; apply Nat.ltb_ge; lia).
    destruct Hrest as (Hq1 & Hp & Hlast & Hreq).
    assert (Hq1' : rafQueue u1 = []) by (rewrite Hq1; by destruct u).
    rewrite (animate_idle fuel u1 Hq1').
    exists u1, (Called Frame :: evs).
    split; [done|]. split; [done|]. split; [done|]. split; [done|].
    split. { rewrite Hl. by destruct u. }
    split. { rewrite count_cons, Hc. done. }
    rewrite count_cons, Hreq. done.
  - replace (S (run_t r) <? TICKS) with true in Hrest
      by (symmetry; apply Nat.ltb_lt; lia).
    destruct Hrest as (Hq1 & Hreq).
    assert (Hq1' : rafQueue u1 =
                   [mkRun (run_W r) (run_H r) (map advance (run_pieces r)) (S (run_t r))])
      by (rewrite Hq1; by destruct u).
    assert (Henv : env u1 = env u) by (rewrite He; by destruct u).
    destruct (IH fuel u1 _ Hq1') as (u2 & evs2 & Ha & Hq2 & Hp2 & Hlast2 & Hl2 & Hc2 & Hr2);
      cbn [run_W run_H run_t]; try congruence; try lia.
    rewrite Ha. exists u2, ((Called Frame :: evs) ++ evs2).
    split; [done|]. split; [done|]. split; [done|]. split; [done|].
    split. { rewrite Hl2, Hl. rewrite <- app_assoc. by destruct u. }
    split. { rewrite count_app, count_cons, Hc, Hc2. done. }
    rewrite count_app, count_cons, Hreq, Hr2. simpl. lia.
Qed.

Lemma new_events_app (u u' : UI) (evs : list event) :
  log u' = log u ++ evs -> new_events u u' = evs.
Proof. intros H. unfold new_events. rewrite H. by rewrite drop_app_length. Qed.

Lemma advance_n_S (k : nat) (p : Piece) : More.advance_n (S k) p = advance (More.advance_n k p).
Proof. reflexivity. Qed.

(** The session [k] animation ticks after a launch on an idle canvas. *)
Lemma ticks_after_launch (u : UI) (k : nat) :
  idle_canvas u -> k < TICKS ->
  rafQueue (Nat.iter k (exec animation_tick) (exec launchConfetti u)) =
    [mkRun (canvasW (env u)) (canvasH (env u))
       (map (More.advance_n k) (particles_created u)) k] /\
  env (Nat.iter k (exec animation_tick) (exec launchConfetti u)) = env u /\
  Canvas.transform (ctx2d (Nat.iter k (exec animation_tick) (exec launchConfetti u))) = [].
Proof.
  intros (Hctx & Hq & Htr) Hk.
  induction k as [|k IH].
  - unfold Nat.iter; cbn [nat_rect]. unfold particles_created. rewrite new_runs_launch by done.
    cbn [map concat run_pieces]. rewrite app_nil_r.
    unfold exec. rewrite launchConfetti_eq, Hctx. cbn [snd].
    destruct u; norm. subst. rewrite map_id. done.
  - destruct IH as (Hq1 & He1 & Ht1); [lia|].
    rewrite !Nat.iter_succ.
    set (v := Nat.iter k (exec animation_tick) (exec launchConfetti u)) in *.
    rewrite (tick_single _ v Hq1).
    destruct (frame_step (mkRun (canvasW (env u)) (canvasH (env u))
                            (map (More.advance_n k) (particles_created u)) k)
                         (set_rafQueue [] v))
      as (u1 & evs & Hf & He & Htr1 & _ & _ & Hrest);
      try (destruct v; norm; subst; cbn; congruence).
    unfold exec. rewrite Hf. cbn [snd].
    replace (S (run_t _) <? TICKS) with true in Hrest
      by (symmetry; apply Nat.ltb_lt; cbn; lia).
    destruct Hrest as [Hq2 _]. cbn [run_W run_H run_pieces run_t] in Hq2.
    split; [|split].
    + rewrite Hq2. destruct v; norm. cbn. by rewrite map_map.
    + rewrite He. by destruct v.
    + done.
Qed.

Lemma list_sum_cons (x : nat) (l : list nat) : list_sum (x :: l) = x + list_sum l.
Proof. reflexivity. Qed.

Lemma remaining_split (rs : list Run) :
  Forall (fun r => run_t r < TICKS) rs ->
  list_sum (map remaining rs) =
    length rs + list_sum (map remaining (map More.next_run (List.filter continues rs))) /\
  list_sum (map (fun r => remaining r - 1) rs) =
    length (List.filter continues rs) +
    list_sum (map (fun r => remaining r - 1) (map More.next_run (List.filter continues rs))).
Proof.
  induction 1 as [|r rs Hr _ [IH1 IH2]]; [done|].
  cbn [List.filter]. assert (Hc : continues r = (S (run_t r) <? TICKS)) by done.
  destruct (continues r); symmetry in Hc.
  - apply Nat.ltb_lt in Hc. cbn [map length]. rewrite !list_sum_cons, IH1, IH2.
    assert (E1 : remaining (More.next_run r) = remaining r - 1)
      by (unfold remaining; cbn [More.next_run run_t]; lia).
    assert (E0 : 2 <= remaining r) by (unfold remaining; lia).
    rewrite E1. split; lia.
  - apply Nat.ltb_ge in Hc. cbn [map length]. rewrite !list_sum_cons, IH1, IH2.
    assert (E0 : remaining r = 1) by (unfold remaining; lia).
    rewrite E0. split; lia.
Qed.

(** One animation tick over pending runs of this canvas: every run is
    called once, those inside their budget are queued again, one tick
    older, and when none goes on the canvas is left wiped. *)
Lemma run_frames_tick (rs : list Run) :
  forall u,
    ctx (env u) = true -> Canvas.transform (ctx2d u) = [] ->
    Forall (pending_ok u) rs ->
    exists u' evs,
      run_frames rs u = (Done tt, u') /\
      env u' = env u /\ Canvas.transform (ctx2d u') = [] /\
      log u' = log u ++ evs /\
      count is_frame_call evs = length rs /\
      count is_frame_request evs = length (List.filter continues rs) /\
      rafQueue u' = rafQueue u ++ map More.next_run (List.filter continues rs) /\
      (rs <> [] -> List.filter continues rs = [] ->
       Canvas.painted (ctx2d u') = [] /\
       last (log u') =
         Some (Draw (Canvas.ClearRect 0 0 (QofN (canvasW (env u))) (QofN (canvasH (env u)))))).
Proof.
  induction rs as [|r rs IH]; intros u Hctx Htr Hall.
  - exists u, []. cbn [List.filter map]. rewrite !app_nil_r. by repeat split.
  - apply Forall_cons in Hall as [(HW & HH & Ht) Hall].
    destruct (frame_step r u Hctx Htr HW HH) as
      (u1 & evs1 & Hf & He1 & Htr1 & Hl1 & Hc1 & Hrest).
    destruct (IH u1) as (u2 & evs2 & Hrun & He2 & Htr2 & Hl2 & Hc2 & Hr2 & Hq2 & Hp2).
    { by rewrite He1. }
    { done. }
    { eapply Forall_impl; [exact Hall|]. intros r' (? & ? & ?). unfold pending_ok.
      by rewrite He1. }
    exists u2, ((Called Frame :: evs1) ++ evs2).
    cbn [run_frames]. rewrite (bind_done _ _ _ _ _ Hf).
    split; [done|]. split; [congruence|]. split; [done|].
    split. { by rewrite Hl2, Hl1, <- app_assoc. }
    split. { rewrite count_app, count_cons, Hc1, Hc2. done. }
    cbn [List.filter].
    assert (Hcr : (S (run_t r) <? TICKS) = continues r) by done.
    rewrite Hcr in Hrest. destruct (continues r).
    + destruct Hrest as [Hq1 Hreq]. cbn [length map]. split; [|split; [|done]].
      * rewrite count_app, count_cons, Hreq, Hr2. done.
      * rewrite Hq2, Hq1, <- app_assoc. done.
    + destruct Hrest as (Hq1 & Hp1 & Hlast & Hreq). split; [|split].
      * rewrite count_app, count_cons, Hreq, Hr2. done.
      * rewrite Hq2, Hq1. done.
      * intros _ Hnone. destruct rs as [|r2 rs].
        -- cbn [run_frames] in Hrun. unfold ret in Hrun. simplify_eq.
           split; [done|]. rewrite Hlast. unfold full_clear. by rewrite HW, HH.
        -- rewrite <- He1. by apply Hp2.
Qed.

(** Pending runs of this canvas are all played to their ends: the number
    of animation ticks is the longest remainder, every run gets the calls
    it has left, and the canvas ends wiped. *)
Lemma animate_all (n : nat) :
  forall (fuel : nat) (u : UI),
    ctx (env u) = true -> Canvas.transform (ctx2d u) = [] ->
    Forall (pending_ok u) (rafQueue u) ->
    Forall (fun r => remaining r <= S n) (rafQueue u) ->
    Exists (fun r => remaining r = S n) (rafQueue u) ->
    S n <= fuel ->
    exists u' evs,
      animate fuel u = (S n, u') /\
      rafQueue u' = [] /\
      Canvas.painted (ctx2d u') = [] /\
      last (log u') =
        Some (Draw (Canvas.ClearRect 0 0 (QofN (canvasW (env u))) (QofN (canvasH (env u))))) /\
      log u' = log u ++ evs /\
      count is_frame_call evs = list_sum (map remaining (rafQueue u)) /\
      count is_frame_request evs = list_sum (map (fun r => remaining r - 1) (rafQueue u)).
Proof.
  induction n as [|n IH]; intros fuel u Hctx Htr Hok Hle Hex Hfuel;
    (destruct fuel as [|fuel]; [lia|]); cbn [animate];
    (destruct (rafQueue u) as [|r0 rs0] eqn:Hq; [by apply Exists_nil in Hex|]);
    rewrite <- Hq in *;
    unfold exec; rewrite animation_tick_eq;
    (destruct (run_frames_tick (rafQueue u) (set_rafQueue [] u))
       as (u1 & evs & Hrun & He & Htr1 & Hl & Hc & Hr & Hq1 & Hp);
     [by destruct u | by destruct u | by destruct u |]);
    rewrite Hrun; cbn [snd];
    (assert (Ht : Forall (fun r => run_t r < TICKS) (rafQueue u))
       by (eapply Forall_impl; [exact Hok|]; by intros r (_ & _ & ?)));
    destruct (remaining_split _ Ht) as [Hs1 Hs2];
    (assert (Henv : env u1 = env u) by (rewrite He; by destruct u));
    (assert (Hq1' : rafQueue u1 = map More.next_run (List.filter continues (rafQueue u)))
       by (rewrite Hq1; by destruct u)).
  - assert (Hnone : List.filter continues (rafQueue u) = []).
    { clear -Hle Ht. induction (rafQueue u) as [|r rs IH]; [done|].
      apply Forall_cons in Hle as [Hr Hle]. apply Forall_cons in Ht as [Ht1 Ht].
      cbn [List.filter]. unfold continues at 1.
      replace (S (run_t r) <? TICKS) with false
        by (symmetry; apply Nat.ltb_ge; unfold remaining in Hr; lia).
      by apply IH. }
    rewrite Hnone in Hs1, Hs2, Hr, Hq1'. cbn [map length] in Hs1, Hs2, Hr, Hq1'.
    change (list_sum []) with 0 in Hs1, Hs2.
    rewrite (animate_idle fuel u1 Hq1').
    destruct Hp as [Hp Hlast]; [by rewrite Hq|done|].
    exists u1, evs. split; [done|]. split; [done|]. split; [done|].
    split. { rewrite Hlast. by destruct u. }
    split. { rewrite Hl. by destruct u. }
    split; lia.
  - assert (A1 : Forall (pending_ok u1) (rafQueue u1)).
    { rewrite Hq1'. apply Forall_map. apply List.Forall_forall. intros r Hin.
      apply List.filter_In in Hin as [Hin Hcont].
      destruct (proj1 (List.Forall_forall _ _) Hok r Hin) as (HW & HH & _).
      unfold pending_ok. rewrite Henv. cbn [More.next_run run_W run_H run_t].
      unfold continues in Hcont. apply Nat.ltb_lt in Hcont. done. }
    assert (A2 : Forall (fun r => remaining r <= S n) (rafQueue u1)).
    { rewrite Hq1'. apply Forall_map. apply List.Forall_forall. intros r Hin.
      apply List.filter_In in Hin as [Hin _].
      pose proof (proj1 (List.Forall_forall _ _) Hle r Hin) as Hr'.
      unfold remaining in *. cbn [More.next_run run_t]. lia. }
    assert (A3 : Exists (fun r => remaining r = S n) (rafQueue u1)).
    { rewrite Hq1'. apply List.Exists_exists in Hex as (r & Hin & Hrem).
      apply List.Exists_exists. exists (More.next_run r). split.
      - apply List.in_map. apply List.filter_In. split; [done|].
        unfold continues. apply Nat.ltb_lt. unfold remaining in Hrem. lia.
      - unfold remaining in *. cbn [More.next_run run_t]. lia. }
    destruct (IH fuel u1 ltac:(by rewrite Henv) Htr1 A1 A2 A3 ltac:(lia))
      as (u2 & evs2 & Ha & Hq2 & Hp2 & Hlast2 & Hl2 & Hc2 & Hr2).
    rewrite Ha. exists u2, (evs ++ evs2).
    split; [done|]. split; [done|]. split; [done|].
    split. { rewrite Hlast2, Henv. done. }
    split. { rewrite Hl2, Hl, <- app_assoc. by destruct u. }
    rewrite !count_app, Hc, Hr, Hc2, Hr2, Hq1'. split; lia.
Qed.

Lemma covers_stale (W H W' H' : N) :
  (W < W' \/ H < H')%N ->
  Canvas.covers W' H' [] 0 0 (QofN W) (QofN H) = false.
Proof.
  intros Hlt. unfold Canvas.covers.
  assert (HW : (W < W')%N -> Qle_bool (inject_Z (Z.of_N W')) (0 + QofN W) = false).
  { intros Hw. apply not_true_is_false. rewrite Qle_bool_iff, Qplus_0_l.
    unfold QofN. rewrite <- Zle_Qle. lia. }
  assert (HH : (H < H')%N -> Qle_bool (inject_Z (Z.of_N H')) (0 + QofN H) = false).
  { intros Hh. apply not_true_is_false. rewrite Qle_bool_iff, Qplus_0_l.
    unfold QofN. rewrite <- Zle_Qle. lia. }
  destruct Hlt as [Hw|Hh]; [rewrite (HW Hw) | rewrite (HH Hh)];
    by rewrite ?andb_false_r.
Qed.

(** One call of [frame] on a run that captured a smaller size than the
    canvas has now. *)
Lemma frame_step_stale (r : Run) (u : UI) :
  Canvas.transform (ctx2d u) = [] ->
  (run_W r < canvasW (env u) \/ run_H r < canvasH (env u))%N ->
  exists u',
    frame r u = (Done tt, u') /\
    env u' = env u /\
    Canvas.transform (ctx2d u') = [] /\
    if S (run_t r) <? TICKS then
      rafQueue u' = rafQueue u ++ [More.next_run r]
    else
      rafQueue u' = rafQueue u /\
      last (log u') = Some (full_clear r) /\
      last (Canvas.painted (ctx2d u')) =
        Some (Canvas.Erased [] 0 0 (QofN (run_W r)) (QofN (run_H r))).
Proof.
  intros Htr Hlt. unfold frame.
  unfold bind at 1, emit, modify. unfold bind at 1. rewrite draw_eq.
  unfold bind at 1.
  match goal with |- context [frame_pieces ?ps ?v] =>
    destruct (frame_pieces_drew ps v) as (u2 & -> & (E2 & T2 & F2 & S2 & evs2 & L2 & D2))
  end.
  cbn [env set_ctx2d set_log ctx2d log Canvas.apply] in *.
  rewrite Htr, (covers_stale _ _ _ _ Hlt) in *. cbn [Canvas.transform] in T2.
  destruct (S (run_t r) <? TICKS) eqn:Ht.
  - unfold requestAnimationFrame, bind, emit, modify.
    eexists. split; [reflexivity|]. rewrite E2.
    split; [done|]. split; [done|]. done.
  - rewrite draw_eq. eexists. split; [reflexivity|]. rewrite E2.
    cbn [env set_ctx2d set_log ctx2d log rafQueue Canvas.apply].
    rewrite T2, (covers_stale _ _ _ _ Hlt). cbn [Canvas.transform Canvas.painted].
    split; [done|]. split; [done|]. split; [done|].
    split; by rewrite last_snoc.
Qed.

(** A run that captured a smaller size than the canvas has now still takes
    the rest of its budget, but its last [clearRect] erases only a part. *)
Lemma animate_stale (k : nat) :
  forall (fuel : nat) (u : UI) (r : Run),
    rafQueue u = [r] ->
    Canvas.transform (ctx2d u) = [] ->
    (run_W r < canvasW (env u) \/ run_H r < canvasH (env u))%N ->
    run_t r + S k = TICKS ->
    S k <= fuel ->
    exists u',
      animate fuel u = (S k, u') /\
      rafQueue u' = [] /\
      last (log u') = Some (full_clear r) /\
      last (Canvas.painted (ctx2d u')) =
        Some (Canvas.Erased [] 0 0 (QofN (run_W r)) (QofN (run_H r))).
Proof.
  induction k as [|k IH]; intros fuel u r Hq Htr Hlt Ht Hfuel;
    (destruct fuel as [|fuel]; [lia|]); cbn [animate]; rewrite Hq;
    rewrite (tick_single r u Hq);
    (destruct (frame_step_stale r (set_rafQueue [] u)) as (u1 & Hf & He & Htr1 & Hrest);
     [by destruct u | by destruct u |]);
    unfold exec; rewrite Hf; cbn [snd].
  - replace (S (run_t r) <? TICKS) with false in Hrest
      by (symmetry; apply Nat.ltb_ge; lia).
    destruct Hrest as (Hq1 & Hlast & Hp).
    assert (Hq1' : rafQueue u1 = []) by (rewrite Hq1; by destruct u).
    rewrite (animate_idle fuel u1 Hq1'). by exists u1.
  - replace (S (run_t r) <? TICKS) with true in Hrest
      by (symmetry; apply Nat.ltb_lt; lia).
    assert (Hq1' : rafQueue u1 = [More.next_run r]) by (rewrite Hrest; by destruct u).
    assert (Henv : env u1 = env u) by (rewrite He; by destruct u).
    destruct (IH fuel u1 _ Hq1') as (u2 & Ha & Hq2 & Hlast2 & Hp2);
      cbn [More.next_run run_W run_H run_t]; try done; try lia.
    { by rewrite Henv. }
    rewrite Ha. by exists u2.
Qed.

(** C4.  Launched among pending runs that captured the present canvas
    size, and with nothing but animation ticks until it ends, a confetti run
    takes exactly 220 ticks: every pending run gets the calls of [frame] it
    has left (220 for the new one) and requests a frame after each but its
    last, nothing is pending afterwards, and the last action is a
    [clearRect] that wipes the whole canvas.  When the window grows while
    the run lasts, the run still takes its 220 ticks and stops, but it keeps
    the size it captured at its launch: its last [clearRect] then erases only
    that part, and the canvas is not left cleared. *)
Theorem confetti_run_spends_tick_budget (u : UI) (fuel : nat) :
  ctx (env u) = true -> Canvas.transform (ctx2d u) = [] ->
  Forall (pending_ok u) (rafQueue u) -> 220 <= fuel ->
  (exists u',
     animate fuel (exec launchConfetti u) = (220, u') /\
     count is_frame_call (new_events (exec launchConfetti u) u') =
       220 + list_sum (map remaining (rafQueue u)) /\
     count is_frame_request (new_events (exec launchConfetti u) u') =
       219 + list_sum (map (fun r => remaining r - 1) (rafQueue u)) /\
     rafQueue u' = [] /\
     (forall more, animate more u' = (0, u')) /\
     Canvas.painted (ctx2d u') = [] /\
     last (log u') =
       Some (Draw (Canvas.ClearRect 0 0 (QofN (canvasW (env u))) (QofN (canvasH (env u)))))) /\
  (forall (j : nat) (W' H' : N),
     rafQueue u = [] -> j < 220 ->
     (canvasW (env u) < W' \/ canvasH (env u) < H')%N ->
     exists u',
       animate fuel
         (exec (More.resizeCanvas W' H')
            (Nat.iter j (exec animation_tick) (exec launchConfetti u))) = (220 - j, u') /\
       rafQueue u' = [] /\
       (forall more, animate more u' = (0, u')) /\
       last (log u') =
         Some (Draw (Canvas.ClearRect 0 0 (QofN (canvasW (env u))) (QofN (canvasH (env u))))) /\
       last (Canvas.painted (ctx2d u')) =
         Some (Canvas.Erased [] 0 0 (QofN (canvasW (env u))) (QofN (canvasH (env u))))).
Proof.
  intros Hctx Htr Hok Hfuel. split.
  - pose proof (launchConfetti_eq u) as Hl. rewrite Hctx in Hl. cbn zeta in Hl.
    unfold exec at 1 2 3. rewrite Hl. cbn [snd].
    match goal with |- context [animate fuel ?v] => set (u0 := v) end.
    assert (Hq0 : rafQueue u0 =
                  rafQueue u ++
                  [mkRun (canvasW (env u)) (canvasH (env u))
                     (batch (env u) (canvasW (env u)) (canvasH (env u)) (randomCalls u)
                        (N.to_nat (particle_count (canvasW (env u))))) 0])
      by (subst u0; by destruct u).
    assert (He0 : env u0 = env u) by (subst u0; by destruct u).
    destruct (animate_all 219 fuel u0) as (u' & evs & Ha & Hq' & Hp & Hlast & Hlog & Hc & Hr).
    { subst u0. by destruct u. }
    { subst u0. by destruct u. }
    { rewrite Hq0. apply Forall_app. split.
      - eapply Forall_impl; [exact Hok|]. intros r (? & ? & ?). unfold pending_ok.
        by rewrite He0.
      - apply Forall_cons. split; [|by apply Forall_nil].
        unfold pending_ok. rewrite He0. cbn. unfold TICKS. repeat split; lia. }
    { rewrite Hq0. apply Forall_app. split.
      - apply Forall_forall. intros r _. unfold remaining, TICKS. lia.
      - apply Forall_cons. split; [|by apply Forall_nil]. done. }
    { rewrite Hq0. apply Exists_app. right. by apply Exists_cons_hd. }
    { done. }
    exists u'. rewrite (new_events_app _ _ _ Hlog).
    rewrite Hq0, !map_app, !list_sum_app in Hc, Hr. cbn [map] in Hc, Hr.
    rewrite !list_sum_cons in Hc, Hr.
    change (remaining (mkRun _ _ _ 0)) with 220 in Hc, Hr.
    change (list_sum []) with 0 in Hc, Hr.
    split; [done|]. split; [lia|]. split; [lia|]. split; [done|].
    split. { intros more. by apply animate_idle. }
    split; [done|]. by rewrite Hlast, He0.
  - intros j W' H' Hq Hj Hlt.
    destruct (ticks_after_launch u j) as (Hqj & Hej & Htrj); [done|done|].
    set (s := Nat.iter j (exec animation_tick) (exec launchConfetti u)) in *.
    set (v := exec (More.resizeCanvas W' H') s).
    assert (Hv : rafQueue v = rafQueue s /\ Canvas.transform (ctx2d v) = [] /\
                 canvasW (env v) = W' /\ canvasH (env v) = H').
    { subst v. by destruct s. }
    destruct Hv as (Hqv & Htrv & HWv & HHv).
    destruct (animate_stale (219 - j) fuel v
                (mkRun (canvasW (env u)) (canvasH (env u))
                   (map (More.advance_n j) (particles_created u)) j))
      as (u' & Ha & Hq' & Hlast & Hp).
    { by rewrite Hqv, Hqj. }
    { done. }
    { cbn [run_W run_H]. by rewrite HWv, HHv. }
    { cbn [run_t]. unfold TICKS. lia. }
    { lia. }
    exists u'. replace (220 - j) with (S (219 - j)) by lia.
    split; [done|]. split; [done|].
    split. { intros more. by apply animate_idle. }
    split; done.
Qed.

Lemma confetti_run_spends_tick_budget_witness :
  (exists u',
     animate 220 (exec launchConfetti (Examples.session true)) = (220, u') /\
     count is_frame_call (new_events (exec launchConfetti (Examples.session true)) u') = 220 /\
     rafQueue u' = [] /\
     Canvas.painted (ctx2d u') = []) /\
  (exists u',
     animate 220
       (exec (More.resizeCanvas 1024 768)
          (Nat.iter 100 (exec animation_tick) (exec launchConfetti (Examples.session true)))) =
       (120, u') /\
     rafQueue u' = [] /\
     last (Canvas.painted (ctx2d u')) =
       Some (Canvas.Erased [] 0 0 (QofN 800) (QofN 600))).
Proof.
  destruct (confetti_run_spends_tick_budget (Examples.session true) 220
              eq_refl eq_refl (Forall_nil_2 _) (Nat.le_refl _)) as [HA HB].
  split.
  - destruct HA as (u' & H1 & H2 & _ & H4 & _ & H6 & _).
    exists u'. split; [exact H1|]. split; [exact H2|]. split; [exact H4 | exact H6].
  - destruct (HB 100 1024%N 768%N eq_refl ltac:(lia) ltac:(left; reflexivity))
      as (u' & H1 & H2 & _ & _ & H5).
    exists u'. split; [exact H1|]. split; [exact H2 | exact H5].
Defined.


End ConfettiRun.

(** ** State sync *)

Section StateSync.

Lemma animateWinLine_eq (a b : nat) (u : UI) (ca cb : Dom.Cell) :
  cells u !! a = Some ca -> cells u !! b = Some cb ->
  animateWinLine a b u =
  (Done tt,
   set_timers
     ((timers u ++
         [(20%Q, DrawWinLine (Double.sub (center_x (Dom.rect cb)) (Dom.r_left (boardRect (env u))))
                             (Double.sub (center_y (Dom.rect cb)) (Dom.r_top (boardRect (env u)))))])
        ++ [(1800%Q, FadeWinLine)])
     (set_winLineSvg
        (mkWinLine (Some (Double.sub (center_x (Dom.rect ca)) (Dom.r_left (boardRect (env u)))))
                   (Some (Double.sub (center_y (Dom.rect ca)) (Dom.r_top (boardRect (env u)))))
                   (Some (Double.sub (center_x (Dom.rect ca)) (Dom.r_left (boardRect (env u)))))
                   (Some (Double.sub (center_y (Dom.rect ca)) (Dom.r_top (boardRect (env u)))))
                   (Some 1%Q) (Some "opacity .25s linear")
                   (strokeDashoffset (winLineSvg u)))
        (set_log (log u ++ [Called (AnimateWinLine a b)]) u))).
Proof.
  intros Ha Hb. unfold animateWinLine, bind, emit, modify, get, setTimeout.
  destruct u; cbn in *. rewrite Ha, Hb. reflexivity.
Qed.


(** The tone, the confetti and the two score updates that end [celebrate],
    run on a session [mkUI e ...], by cases on the page and the winner. *)
Ltac celebrate_tail e st so :=
  destruct so;
  [rewrite beep_eq; norm; destruct (audioCtx e); cbn [andb]; norm | unfold ret at 1];
  unfold bind at 1; rewrite launchConfetti_eq; norm; destruct (ctx e); cbv zeta; norm;
  unfold bind, modify, ret;
  destruct (strict_eq (winner st) (Some "X")), (strict_eq (winner st) (Some "O")); norm;
  rewrite <- ?app_assoc; cbn [app].

(** The win block: what it leaves in the session when the cells of the
    winning line exist. *)
Lemma celebrate_effect (st : GameState) (u : UI) :
  (forall a m c, Win.findWinningTriple (board st) = Some (a, m, c) ->
                 is_Some (cells u !! a) /\ is_Some (cells u !! c)) ->
  exists u' evs tms,
    celebrate st u = (Done tt, u') /\
    env u' = env u /\ gameId u' = gameId u /\ soundOn u' = soundOn u /\
    cells u' = cells u /\ statusText u' = statusText u /\
    scoreX u' = (if strict_eq (winner st) (Some "X") then bump (scoreX u) else scoreX u) /\
    scoreO u' = (if strict_eq (winner st) (Some "O") then bump (scoreO u) else scoreO u) /\
    log u' = log u ++ Called FindWinningTriple :: evs /\
    count is_backend evs = 0 /\
    count is_launch evs = 1 /\
    timers u' = timers u ++ tms /\
    match Win.findWinningTriple (board st) with
    | Some (a, _, c) =>
        exists ax ay cx cy rest,
          line_end u a = Some (ax, ay) /\ line_end u c = Some (cx, cy) /\
          winLineSvg u' =
            mkWinLine (Some ax) (Some ay) (Some ax) (Some ay) (Some 1%Q)
                      (Some "opacity .25s linear") (strokeDashoffset (winLineSvg u)) /\
          tms = (20%Q, DrawWinLine cx cy) :: (1800%Q, FadeWinLine) :: rest /\
          count is_animate evs = 1 /\ In (Called (AnimateWinLine a c)) evs
    | None => winLineSvg u' = winLineSvg u /\ count is_animate evs = 0
    end.
Proof.
  intros Hlook. unfold celebrate.
  destruct u as [e g so cs stx sx so' wl tm rq c2 fo rc lg]. norm.
  unfold bind at 1, emit, modify. unfold bind at 1. norm.
  destruct (Win.findWinningTriple (board st)) as [[[a m] c]|] eqn:Et.
  - destruct (Hlook a m c eq_refl) as [[ca Ha] [cc Hc]].
    rewrite (animateWinLine_eq a c _ ca cc) by done. norm.
    unfold bind at 1, get. unfold bind at 1. norm. unfold line_end. norm.
    rewrite Ha, Hc.
    celebrate_tail e st so;
      ((eexists _, _, _; split; [reflexivity|]); norm;
       do 7 (split; [reflexivity|]);
       (split; [rewrite <- ?app_assoc; cbn [app]; reflexivity|]);
       (split; [reflexivity|]); (split; [reflexivity|]);
       (split; [rewrite <- ?app_assoc; cbn [app]; reflexivity|]);
       (eexists _, _, _, _, _; split; [reflexivity|]); (split; [reflexivity|]);
       (split; [reflexivity|]); (split; [reflexivity|]); (split; [reflexivity|]);
       by left).
  - unfold ret at 1. unfold bind at 1, get. unfold bind at 1. norm.
    celebrate_tail e st so;
      ((eexists _, _, _; split; [reflexivity|]); norm;
       do 7 (split; [reflexivity|]);
       (split; [rewrite <- ?app_assoc; cbn [app]; reflexivity|]);
       (split; [reflexivity|]); (split; [reflexivity|]);
       (split; [first [reflexivity | symmetry; apply app_nil_r]|]);
       split; reflexivity).
Qed.

Lemma triple_in_range (b : list string) (a m c : nat) :
  Win.findWinningTriple b = Some (a, m, c) -> a < length b /\ c < length b.
Proof.
  intros H. apply findWinningTriple_first in H as (_ & _ & _ & (s & _ & Ha & _ & Hc) & _).
  split; by eapply lookup_lt_Some.
Qed.

Lemma line_end_rects (u v : UI) (i : nat) :
  env v = env u -> map Dom.rect (cells v) = map Dom.rect (cells u) ->
  line_end v i = line_end u i.
Proof.
  intros He Hr. unfold line_end. rewrite He.
  assert (Hi : Dom.rect <$> cells v !! i = Dom.rect <$> cells u !! i).
  { rewrite <- !list_lookup_fmap. by f_equal. }
  destruct (cells v !! i), (cells u !! i); simplify_eq/=; congruence.
Qed.

Lemma render_from_frame (b : list string) :
  forall i u, exists cs, snd (render_from i b u) = set_cells cs u.
Proof.
  induction b as [|v b IH]; intros i u.
  - exists (cells u). by destruct u.
  - cbn [render_from]. unfold bind at 1, renderMark, bind at 1, get.
    destruct (cells u !! i) as [c|].
    + unfold modify.
      destruct (IH (S i) (set_cells (<[i:=Dom.mkCell (Dom.renderMark_children v) (Dom.rect c)]> (cells u)) u))
        as (cs & Hcs).
      exists cs. rewrite Hcs. by destruct u.
    + exists (cells u). by destruct u.
Qed.

(** [updateFromState] on a state that fits the page: the cells and the
    status are written, then the win block runs on a non-[Tie] winner. *)
Lemma updateFromState_eq (st : GameState) (u : UI) :
  fits st u ->
  updateFromState st u =
  (if is_win st then celebrate st else ret tt)
    (set_statusText (status_of st)
       (set_cells (render_cells 0 (board st) (cells u)) u)).
Proof.
  intros Hfit. unfold updateFromState.
  rewrite (bind_done _ _ _ _ _ (render_from_eq (board st) 0 u Hfit)).
  unfold setStatus, bind, modify. reflexivity.
Qed.

Lemma updateFromState_effect (st : GameState) (u : UI) :
  fits st u ->
  exists u' evs tms,
    updateFromState st u = (Done tt, u') /\
    env u' = env u /\ gameId u' = gameId u /\ soundOn u' = soundOn u /\
    cells u' = render_cells 0 (board st) (cells u) /\
    statusText u' = status_of st /\
    scoreX u' = (if is_win st && strict_eq (winner st) (Some "X")
                 then bump (scoreX u) else scoreX u) /\
    scoreO u' = (if is_win st && strict_eq (winner st) (Some "O")
                 then bump (scoreO u) else scoreO u) /\
    log u' = log u ++ evs /\
    count is_backend evs = 0 /\
    timers u' = timers u ++ tms /\
    if is_win st then
      count is_launch evs = 1 /\
      match Win.findWinningTriple (board st) with
      | Some (a, _, c) =>
          exists ax ay cx cy rest,
            line_end u a = Some (ax, ay) /\ line_end u c = Some (cx, cy) /\
            winLineSvg u' =
              mkWinLine (Some ax) (Some ay) (Some ax) (Some ay) (Some 1%Q)
                        (Some "opacity .25s linear") (strokeDashoffset (winLineSvg u)) /\
            tms = (20%Q, DrawWinLine cx cy) :: (1800%Q, FadeWinLine) :: rest /\
            count is_animate evs = 1 /\ In (Called (AnimateWinLine a c)) evs
      | None => winLineSvg u' = winLineSvg u /\ count is_animate evs = 0
      end
    else
      evs = [] /\ tms = [] /\ winLineSvg u' = winLineSvg u /\
      rafQueue u' = rafQueue u /\ ctx2d u' = ctx2d u /\ randomCalls u' = randomCalls u.
Proof.
  intros Hfit. rewrite (updateFromState_eq st u Hfit).
  set (s := set_statusText (status_of st) (set_cells (render_cells 0 (board st) (cells u)) u)).
  assert (Hs : env s = env u /\ gameId s = gameId u /\ soundOn s = soundOn u /\
               cells s = render_cells 0 (board st) (cells u) /\
               statusText s = status_of st /\ scoreX s = scoreX u /\ scoreO s = scoreO u /\
               log s = log u /\ timers s = timers u /\ winLineSvg s = winLineSvg u /\
               rafQueue s = rafQueue u /\ ctx2d s = ctx2d u /\ randomCalls s = randomCalls u).
  { subst s. by destruct u. }
  destruct Hs as (He & Hg & Hso & Hc & Hst & Hx & Ho & Hl & Ht & Hw & Hq & Hc2 & Hrc).
  destruct (is_win st) eqn:Hwin; cbn [andb].
  - destruct (celebrate_effect st s) as
      (u' & evs & tms & Hrun & He' & Hg' & Hso' & Hc' & Hst' & Hx' & Ho' & Hl' & Hb' & Hn' & Ht' & Hm').
    { intros a m c Htr. apply triple_in_range in Htr as [Ha Hcc].
      unfold fits in Hfit. rewrite Hc.
      split; apply lookup_lt_is_Some; rewrite render_cells_length; lia. }
    exists u', (Called FindWinningTriple :: evs), tms.
    split; [done|]. split; [congruence|]. split; [congruence|]. split; [congruence|].
    split; [congruence|]. split; [congruence|]. split; [by rewrite Hx', Hx|].
    split; [by rewrite Ho', Ho|].
    split; [by rewrite Hl', Hl|]. split; [by rewrite count_cons, Hb'|]. split; [congruence|].
    split; [by rewrite count_cons, Hn'|].
    assert (Hcc : forall i, line_end s i = line_end u i).
    { intros i. apply line_end_rects; [done|]. rewrite Hc. apply render_cells_rects. }
    destruct (Win.findWinningTriple (board st)) as [[[a m] c]|].
    + destruct Hm' as (ax & ay & cx & cy & rest & Hca & Hcc' & Hwl & Htms & Hcnt & Hin).
      exists ax, ay, cx, cy, rest. rewrite <- !Hcc.
      split; [done|]. split; [done|]. split; [by rewrite Hwl, Hw|]. split; [done|].
      split; [by rewrite count_cons, Hcnt | by right].
    + destruct Hm' as [Hwl Hcnt]. split; [congruence | by rewrite count_cons, Hcnt].
  - exists s, [], []. unfold ret. rewrite !app_nil_r. repeat split; done.
Qed.
End StateSync.

(** ** Applying a server state *)

Section Updates.

Lemma count_zero_not_in (f : event -> bool) (l : list event) (e : event) :
  count f l = 0 -> f e = true -> ~ In e l.
Proof.
  unfold count. induction l as [|x l IH]; simpl; [tauto|].
  intros Hc He [->|Hin].
  - rewrite He in Hc. discriminate.
  - destruct (f x); [discriminate|]. by apply IH.
Qed.

(** C5.  When the server declares a tie, [updateFromState] records no call
    of [findWinningTriple], [animateWinLine] or [launchConfetti] (it logs
    nothing at all), and leaves the win line, the timers, the frame queue
    and the canvas as they were. *)
Theorem tie_is_not_celebrated (st : GameState) (u : UI) :
  winner st = Some "Tie" ->
  new_events u (exec (updateFromState st) u) = [] /\
  ~ In (Called FindWinningTriple) (new_events u (exec (updateFromState st) u)) /\
  (forall a c, ~ In (Called (AnimateWinLine a c)) (new_events u (exec (updateFromState st) u))) /\
  ~ In (Called LaunchConfetti) (new_events u (exec (updateFromState st) u)) /\
  winLineSvg (exec (updateFromState st) u) = winLineSvg u /\
  timers (exec (updateFromState st) u) = timers u /\
  rafQueue (exec (updateFromState st) u) = rafQueue u /\
  ctx2d (exec (updateFromState st) u) = ctx2d u.
Proof.
  intros Hw.
  assert (H : exists cs stx, exec (updateFromState st) u = set_statusText stx (set_cells cs u)).
  { unfold exec, updateFromState, status_of. rewrite Hw. cbn.
    unfold bind at 1. destruct (render_from_frame (board st) 0 u) as (cs & Hcs).
    destruct (render_from 0 (board st) u) as [[[]|e] u1]; cbn [snd] in *; subst u1.
    - exists cs, "It's a tie!". reflexivity.
    - exists cs, (statusText u). by destruct u. }
  destruct H as (cs & stx & ->).
  assert (Hn : new_events u (set_statusText stx (set_cells cs u)) = []).
  { unfold new_events. destruct u; cbn. by rewrite drop_all. }
  rewrite Hn. repeat split; try (by destruct u); try (intros; intros []); intros [].
Qed.

Lemma tie_is_not_celebrated_witness :
  new_events (Examples.session true)
    (exec (updateFromState Examples.drawn_game) (Examples.session true)) = [] /\
  Win.findWinningTriple (board Examples.drawn_game) = None.
Proof.
  split; [|reflexivity].
  apply (tie_is_not_celebrated Examples.drawn_game (Examples.session true)).
  reflexivity.
Defined.


Lemma exec_updateFromState (st : GameState) (u u' : UI) :
  updateFromState st u = (Done tt, u') -> exec (updateFromState st) u = u'.
Proof. unfold exec. by intros ->. Qed.

(** C8.  On a non-[Tie] win whose board shows the winning triple
    [(a, m, c)], [updateFromState] calls [animateWinLine(a, c)] once: the
    line starts at the centre of cell [a] and its [setTimeout] callback moves
    the other end to the centre of cell [c], both centres taken relative to
    the board's bounding box.  The script computes a centre in binary64:
    the result is the point half-way between the sides of the cell to within
    [2^-50] of the size of the coordinates (up to [2^1022], so that no sum
    overflows), and exactly that point when the coordinates lie on a layout
    grid. *)
Theorem win_line_joins_outer_cells (st : GameState) (u : UI) (a m c : nat) :
  fits st u -> is_win st = true ->
  Win.findWinningTriple (board st) = Some (a, m, c) ->
  exists ca cc ax ay cx cy,
    cells u !! a = Some ca /\ cells u !! c = Some cc /\
    In (Called (AnimateWinLine a c)) (new_events u (exec (updateFromState st) u)) /\
    count is_animate (new_events u (exec (updateFromState st) u)) = 1 /\
    x1 (winLineSvg (exec (updateFromState st) u)) = Some ax /\
    y1 (winLineSvg (exec (updateFromState st) u)) = Some ay /\
    In (20%Q, DrawWinLine cx cy) (new_timers u (exec (updateFromState st) u)) /\
    (forall v, winLineSvg v = winLineSvg (exec (updateFromState st) u) ->
       x1 (winLineSvg (exec (run_callback (DrawWinLine cx cy)) v)) = Some ax /\
       y1 (winLineSvg (exec (run_callback (DrawWinLine cx cy)) v)) = Some ay /\
       x2 (winLineSvg (exec (run_callback (DrawWinLine cx cy)) v)) = Some cx /\
       y2 (winLineSvg (exec (run_callback (DrawWinLine cx cy)) v)) = Some cy) /\
    (forall M : Q,
       (1 <= M)%Q -> (M <= Double.pow2 1022)%Q -> within M (boardRect (env u)) ->
       within M (Dom.rect ca) -> within M (Dom.rect cc) ->
       near M (ax, ay) (centre_in (boardRect (env u)) (Dom.rect ca)) /\
       near M (cx, cy) (centre_in (boardRect (env u)) (Dom.rect cc))) /\
    (forall j : Z,
       (0 <= j <= 1000)%Z -> rect_on_grid j (boardRect (env u)) ->
       rect_on_grid j (Dom.rect ca) -> rect_on_grid j (Dom.rect cc) ->
       same_point (ax, ay) (centre_in (boardRect (env u)) (Dom.rect ca)) /\
       same_point (cx, cy) (centre_in (boardRect (env u)) (Dom.rect cc))).
Proof.
  intros Hfit Hwin Htr.
  destruct (updateFromState_effect st u Hfit) as
    (u' & evs & tms & Hrun & _ & _ & _ & _ & _ & _ & _ & Hl & _ & Ht & Hm).
  rewrite (exec_updateFromState _ _ _ Hrun).
  rewrite Hwin, Htr in Hm.
  destruct Hm as (_ & ax & ay & cx & cy & rest & Hca & Hcc & Hwl & Htms & Hcnt & Hin).
  unfold line_end in Hca, Hcc.
  destruct (cells u !! a) as [ca|]; [|done].
  destruct (cells u !! c) as [cc|]; [|done].
  simplify_eq. eexists ca, cc, _, _, _, _.
  rewrite (new_events_app _ _ _ Hl).
  unfold new_timers. rewrite Ht, drop_app_length, Hwl.
  split; [done|]. split; [done|]. split; [done|]. split; [done|].
  split; [done|]. split; [done|]. split; [by left|].
  split. { intros v Hv. unfold exec, run_callback, modify. destruct v; cbn in *. by rewrite Hv. }
  split.
  - intros M HM _ HB Ha Hc. split; by apply centre_near.
  - intros j Hj HB Ha Hc. split; by apply (centre_exact j).
Qed.

Lemma win_line_joins_outer_cells_witness :
  exists ax ay cx cy,
    x1 (winLineSvg (exec (updateFromState Examples.top_row_win) (Examples.session true))) = Some ax /\
    y1 (winLineSvg (exec (updateFromState Examples.top_row_win) (Examples.session true))) = Some ay /\
    In (20%Q, DrawWinLine cx cy)
       (new_timers (Examples.session true)
          (exec (updateFromState Examples.top_row_win) (Examples.session true))) /\
    (ax == 50 /\ ay == 50 /\ cx == 250 /\ cy == 50)%Q.
Proof.
  destruct (win_line_joins_outer_cells Examples.top_row_win (Examples.session true) 0 1 2)
    as (ca & cc & ax & ay & cx & cy & Ha & Hc & _ & _ & Hx & Hy & Ht & _ & _ & Hex).
  - unfold fits. simpl. lia.
  - reflexivity.
  - reflexivity.
  - exists ax, ay, cx, cy. split; [exact Hx|]. split; [exact Hy|]. split; [exact Ht|].
    injection Ha as <-. injection Hc as <-.
    assert (G : forall n : Z, (Z.abs n <= 2 ^ 51)%Z -> on_grid 0 (inject_Z n)).
    { intros n Hn. exists n. split; [exact Hn|]. change (Double.pow2 (- 0)) with 1%Q.
      symmetry. apply Qmult_1_r. }
    destruct (Hex 0%Z) as [[E1 E2] [E3 E4]].
    + lia.
    + repeat split; apply (G _); vm_compute; discriminate.
    + repeat split; apply (G _); vm_compute; discriminate.
    + repeat split; apply (G _); vm_compute; discriminate.
    + cbn [fst snd] in E1, E2, E3, E4.
      split; [rewrite E1; reflexivity|]. split; [rewrite E2; reflexivity|].
      split; [rewrite E3; reflexivity | rewrite E4; reflexivity].
Defined.

Lemma to_double_exact (n : N) : (n <= 2 ^ 53)%N -> to_double n = n.
Proof.
  intros Hn. destruct (N.eq_dec n (2 ^ 53)%N) as [->|Hne]; [by vm_compute|].
  unfold to_double. destruct (n <? 2 ^ 53)%N eqn:E; [done|].
  apply N.ltb_ge in E. lia.
Qed.

Lemma bump_value (s : score_text) :
  safe_score s -> score_value (bump s) = (score_value s + 1)%N.
Proof.
  unfold safe_score, bump, score_value. intros Hs.
  set (n := default 0%N s) in *. simpl.
  rewrite (to_double_exact n) by lia.
  by rewrite !(to_double_exact (n + 1)) by lia.
Qed.

(** Past [2^53] the counter would stick: [2^53 + 1] is not a double. *)
Example to_double_rounds : to_double (2 ^ 53 + 1) = (2 ^ 53)%N.
Proof. by vm_compute. Qed.

(** C9.  Applying a server state whose winner is ["X"] (["O"]) adds exactly
    one to the X (O) counter and leaves the other counter alone; a tie or a
    game still open leaves both alone.  The new counters are computed from
    the old ones and the winner field only. *)
Theorem scores_count_wins_locally (st : GameState) (u : UI) :
  fits st u -> safe_score (scoreX u) -> safe_score (scoreO u) ->
  (winner st = Some "X" ->
     score_value (scoreX (exec (updateFromState st) u)) = (score_value (scoreX u) + 1)%N /\
     scoreO (exec (updateFromState st) u) = scoreO u) /\
  (winner st = Some "O" ->
     score_value (scoreO (exec (updateFromState st) u)) = (score_value (scoreO u) + 1)%N /\
     scoreX (exec (updateFromState st) u) = scoreX u) /\
  (winner st = Some "Tie" \/ winner st = None ->
     scoreX (exec (updateFromState st) u) = scoreX u /\
     scoreO (exec (updateFromState st) u) = scoreO u) /\
  (forall st', fits st' u -> winner st' = winner st ->
     scoreX (exec (updateFromState st') u) = scoreX (exec (updateFromState st) u) /\
     scoreO (exec (updateFromState st') u) = scoreO (exec (updateFromState st) u)).
Proof.
  intros Hfit HsX HsO.
  destruct (updateFromState_effect st u Hfit) as
    (u' & evs & tms & Hrun & _ & _ & _ & _ & _ & Hx & Ho & _).
  rewrite (exec_updateFromState _ _ _ Hrun). rewrite Hx, Ho. unfold is_win.
  split; [|split; [|split]].
  - intros ->. cbn. split; [by apply bump_value | done].
  - intros ->. cbn. split; [by apply bump_value | done].
  - intros [-> | ->]; cbn; done.
  - intros st' Hfit' Hw.
    destruct (updateFromState_effect st' u Hfit') as
      (u2 & evs2 & tms2 & Hrun2 & _ & _ & _ & _ & _ & Hx2 & Ho2 & _).
    rewrite (exec_updateFromState _ _ _ Hrun2). rewrite Hx2, Ho2. unfold is_win.
    by rewrite Hw.
Qed.

Lemma scores_count_wins_locally_witness :
  score_value (scoreX (exec (updateFromState Examples.top_row_win) (Examples.session true))) = 1%N /\
  scoreO (exec (updateFromState Examples.top_row_win) (Examples.session true)) = Some 0%N.
Proof.
  apply (proj1 (scores_count_wins_locally Examples.top_row_win (Examples.session true)
                  ltac:(unfold fits; simpl; lia) ltac:(reflexivity) ltac:(reflexivity))).
  reflexivity.
Defined.

End Updates.

Section Backend.

Lemma in_count_zero (f : event -> bool) (l : list event) (e : event) :
  count f l = 0 -> In e l -> f e = false.
Proof.
  intros Hc Hin. destruct (f e) eqn:E; [|done].
  by destruct (count_zero_not_in f l e Hc E).
Qed.

(** What the resumption of [postMove] logs on a successful response that
    carries a state: the events of [updateFromState] and of the move tone,
    none of them a backend call, then the AI request when the winner is
    falsy. *)
Lemma postMove_resumed_events (st : GameState) (err : jsval) (u : UI) :
  fits st u ->
  exists evs,
    count is_backend evs = 0 /\
    new_events u (exec (postMove_resumed (Response true (mkBody (Some st) err))) u) =
    evs ++
    (if truthy (winner st) then []
     else Called RequestAiMove ::
          match gameId u with
          | Some g => if truthy (Some g) then [Fetch ("/api/ai_move/" ++ g)%string None] else []
          | None => []
          end).
Proof.
  intros Hfit.
  destruct (updateFromState_effect st u Hfit) as
    (u1 & evs & tms & Hrun & _ & Hg & _ & _ & _ & _ & _ & Hl & Hb & _).
  unfold exec, postMove_resumed, try_catch.
  cbn [negb b_state updateFromState_of].
  rewrite (bind_done _ _ _ _ _ Hrun).
  rewrite (bind_done _ _ _ _ _ (beep_eq _ _ _ u1)).
  destruct u as [e g so cs stx sx so' wl tm rq c2 fo rc lg].
  destruct u1 as [e1 g1 so1 cs1 stx1 sx1 so1' wl1 tm1 rq1 c21 fo1 rc1 lg1].
  norm. subst g1 lg1.
  destruct (truthy (winner st)); cbn [negb].
  - unfold ret. destruct (audioCtx e1 && so1); norm; unfold new_events; norm.
    + exists (evs ++ [Beep 880 (6 # 100) (4 # 100)]). split.
      * rewrite count_app, Hb. done.
      * rewrite <- app_assoc, drop_app_length. by rewrite app_nil_r.
    + exists evs. split; [done|]. by rewrite drop_app_length, app_nil_r.
  - unfold requestAiMove, bind, emit, modify, get.
    destruct (audioCtx e1 && so1); norm; unfold new_events;
      destruct g as [g|]; [destruct (truthy (Some g))| |destruct (truthy (Some g))|];
      unfold ret; norm.
    all: first
      [ exists (evs ++ [Beep 880 (6 # 100) (4 # 100)]); split;
        [ rewrite count_app, Hb; done
        | rewrite <- !app_assoc, drop_app_length; cbn [app]; reflexivity ]
      | exists evs; split;
        [ done | rewrite <- !app_assoc, drop_app_length; cbn [app]; reflexivity ] ].
Qed.

Lemma ai_requested_iff_falsy (st : GameState) (err : jsval) (u : UI) :
  fits st u ->
  In (Called RequestAiMove)
     (new_events u (exec (postMove_resumed (Response true (mkBody (Some st) err))) u)) <->
  truthy (winner st) = false.
Proof.
  intros Hfit. destruct (postMove_resumed_events st err u Hfit) as (evs & Hb & ->).
  rewrite in_app_iff. destruct (truthy (winner st)).
  - split; [|discriminate]. intros [Hin|[]].
    by pose proof (in_count_zero _ _ _ Hb Hin).
  - split; [done|]. intros _. right. by left.
Qed.

(** C10.  After a successful player-move response carrying a state of the
    HTTP contract, [requestAiMove] is called if and only if the state's
    winner is [null]; with a game id set this is the POST to
    [/api/ai_move/<id>].  Any winner, ["Tie"] included, suppresses it. *)
Theorem ai_move_follows_open_game (st : GameState) (err : jsval) (u : UI) :
  fits st u -> contract_winner (winner st) ->
  (In (Called RequestAiMove)
      (new_events u (exec (postMove_resumed (Response true (mkBody (Some st) err))) u)) <->
   winner st = None) /\
  (winner st <> None ->
   count is_backend
     (new_events u (exec (postMove_resumed (Response true (mkBody (Some st) err))) u)) = 0) /\
  (forall g, gameId u = Some g -> g <> "" ->
     (In (Fetch ("/api/ai_move/" ++ g)%string None)
         (new_events u (exec (postMove_resumed (Response true (mkBody (Some st) err))) u)) <->
      winner st = None)).
Proof.
  intros Hfit Hw.
  assert (Hfalsy : truthy (winner st) = false <-> winner st = None).
  { destruct Hw as [-> | [-> | [-> | ->]]]; split; done. }
  split; [|split].
  - rewrite <- Hfalsy. by apply ai_requested_iff_falsy.
  - intros Hne. destruct (postMove_resumed_events st err u Hfit) as (evs & Hb & ->).
    destruct (truthy (winner st)) eqn:E.
    + by rewrite app_nil_r.
    + exfalso. apply Hne. by apply Hfalsy.
  - intros g Hg Hne.
    destruct (postMove_resumed_events st err u Hfit) as (evs & Hb & ->).
    rewrite Hg. rewrite <- Hfalsy. rewrite in_app_iff.
    assert (Ht : truthy (Some g) = true).
    { apply truthy_Some. by exists g. }
    rewrite Ht.
    destruct (truthy (winner st)).
    + split; [|discriminate]. intros [Hin|[]].
      by pose proof (in_count_zero _ _ _ Hb Hin).
    + split; [done|]. intros _. right. right. by left.
Qed.

Lemma ai_move_follows_open_game_witness :
  In (Called RequestAiMove)
     (new_events (Examples.session true)
        (exec (postMove_resumed (Response true (mkBody (Some Examples.after_first_move) None)))
              (Examples.session true))) /\
  ~ In (Called RequestAiMove)
     (new_events (Examples.session true)
        (exec (postMove_resumed (Response true (mkBody (Some Examples.drawn_game) None)))
              (Examples.session true))).
Proof.
  split.
  - apply (proj1 (ai_move_follows_open_game Examples.after_first_move None (Examples.session true)
                    ltac:(unfold fits; simpl; lia) ltac:(by left))).
    reflexivity.
  - intros Hin.
    apply (proj1 (ai_move_follows_open_game Examples.drawn_game None (Examples.session true)
                    ltac:(unfold fits; simpl; lia) ltac:(by do 3 right))) in Hin.
    discriminate Hin.
Defined.

(** C7.  When the AI-move response reports failure, a state in its body is
    applied by [updateFromState] (an exception of that call is caught and
    logged) and nothing else happens; without a state the session is left
    exactly as it was: no write, no status message, no log entry. *)
Theorem failed_ai_move_applies_state_if_any (data : Body) (u : UI) :
  (forall st, b_state data = Some st ->
     exec (requestAiMove_resumed (Response false data)) u =
       exec (try_catch (updateFromState st) (fun err => emit (ConsoleError err))) u /\
     (fits st u ->
      exec (requestAiMove_resumed (Response false data)) u = exec (updateFromState st) u /\
      ended (requestAiMove_resumed (Response false data)) u = Done tt)) /\
  (b_state data = None ->
     exec (requestAiMove_resumed (Response false data)) u = u /\
     ended (requestAiMove_resumed (Response false data)) u = Done tt).
Proof.
  split.
  - intros st Hst. unfold requestAiMove_resumed. cbn [negb]. rewrite Hst.
    split; [done|]. intros Hfit.
    destruct (updateFromState_effect st u Hfit) as (u1 & evs & tms & Hrun & _).
    unfold exec, ended, try_catch. by rewrite Hrun.
  - intros Hst. unfold requestAiMove_resumed, exec, ended, try_catch. cbn [negb].
    by rewrite Hst.
Qed.

Lemma failed_ai_move_applies_state_if_any_witness :
  exec (requestAiMove_resumed (Response false (mkBody None (Some "AI failed"))))
       (Examples.session true) = Examples.session true /\
  statusText
    (exec (requestAiMove_resumed
             (Response false (mkBody (Some Examples.after_first_move) (Some "AI failed"))))
          (Examples.session true)) = "Player O's turn".
Proof.
  split.
  - apply (proj2 (failed_ai_move_applies_state_if_any
                    (mkBody None (Some "AI failed")) (Examples.session true))).
    reflexivity.
  - rewrite (proj1 (proj2 (proj1 (failed_ai_move_applies_state_if_any
                    (mkBody (Some Examples.after_first_move) (Some "AI failed"))
                    (Examples.session true)) Examples.after_first_move eq_refl)
                    ltac:(unfold fits; simpl; lia))).
    reflexivity.
Defined.

End Backend.

Section Cells.

Lemma render_cells_below (b : list string) :
  forall i cs j, j < i -> render_cells i b cs !! j = cs !! j.
Proof.
  induction b as [|v b IH]; intros i cs j Hj; cbn [render_cells]; [done|].
  destruct (cs !! i) as [c|]; [|done].
  rewrite IH by lia. apply list_lookup_insert_ne. lia.
Qed.

Lemma render_cells_lookup (b : list string) :
  forall i cs j v c,
    i <= j -> b !! (j - i) = Some v -> cs !! j = Some c ->
    i + length b <= length cs ->
    render_cells i b cs !! j =
      Some (Dom.mkCell (Dom.renderMark_children v) (Dom.rect c)).
Proof.
  induction b as [|v0 b IH]; intros i cs j v c Hij Hv Hc Hlen; [done|].
  cbn [render_cells]. cbn [length] in Hlen.
  destruct (cs !! i) as [c0|] eqn:E.
  2: { apply lookup_ge_None in E. lia. }
  destruct (decide (j = i)) as [->|Hne].
  - rewrite Nat.sub_diag in Hv. simplify_eq/=.
    rewrite render_cells_below by lia.
    apply list_lookup_insert_eq. by eapply lookup_lt_Some.
  - apply IH.
    + lia.
    + replace (j - i) with (S (j - S i)) in Hv by lia. done.
    + rewrite list_lookup_insert_ne by lia. done.
    + rewrite length_insert. lia.
Qed.

(** A cell that shows a mark has an empty [textContent], so the guard of the
    click listener lets the click through to [postMove]. *)
Lemma click_rendered (u : UI) (idx : nat) (c : Dom.Cell) (mark : string) :
  cells u !! idx = Some c -> Dom.children c = Dom.renderMark_children mark ->
  click idx u = postMove idx u.
Proof.
  intros Hc Hch. unfold click, bind, get. rewrite Hc, Hch.
  by rewrite (proj1 (rendered_text_empty mark)).
Qed.

Lemma postMove_events (u : UI) (idx : nat) (g : string) :
  gameId u = Some g -> g <> "" ->
  new_events u (exec (postMove idx) u) =
  [Called (PostMove idx); Fetch ("/api/move/" ++ g)%string (Some idx)].
Proof.
  intros Hg Hne. unfold exec, postMove, bind, emit, modify, get, new_events.
  destruct u; cbn [gameId log set_log set_statusText fst snd] in *. subst.
  assert (Ht : truthy (Some g) = true).
  { apply truthy_Some. by exists g. }
  rewrite Ht. cbn [gameId log set_log set_statusText fst snd].
  rewrite <- app_assoc. by rewrite drop_app_length.
Qed.

(** C2 (the code departs from the claim).  After [updateFromState] has
    rendered a board, a click on any cell that shows ["X"] or ["O"] passes
    the [textContent] guard: the rendered SVG holds no text.  [postMove] is
    called for that cell and, a game id being set, the POST to
    [/api/move/<id>] is issued. *)
Theorem click_on_occupied_cell_posts_move
    (st : GameState) (u : UI) (idx : nat) (mark g : string) :
  fits st u -> board st !! idx = Some mark -> mark = "X" \/ mark = "O" ->
  gameId u = Some g -> g <> "" ->
  new_events (exec (updateFromState st) u)
             (exec (click idx) (exec (updateFromState st) u)) =
  [Called (PostMove idx); Fetch ("/api/move/" ++ g)%string (Some idx)].
Proof.
  intros Hfit Hmark _ Hg Hne.
  destruct (updateFromState_effect st u Hfit) as
    (u1 & evs & tms & Hrun & _ & Hg1 & _ & Hc & _).
  rewrite (exec_updateFromState _ _ _ Hrun).
  assert (Hidx : idx < length (cells u)).
  { apply lookup_lt_Some in Hmark. unfold fits in Hfit. lia. }
  destruct (lookup_lt_is_Some_2 _ _ Hidx) as [c Hcell].
  assert (Hc1 : cells u1 !! idx =
                Some (Dom.mkCell (Dom.renderMark_children mark) (Dom.rect c))).
  { rewrite Hc. apply render_cells_lookup; try done; try lia.
    by rewrite Nat.sub_0_r. }
  unfold exec at 1. rewrite (click_rendered u1 idx _ mark Hc1 eq_refl).
  apply postMove_events; congruence.
Qed.

Lemma click_on_occupied_cell_posts_move_witness :
  new_events (exec (updateFromState Examples.after_first_move) (Examples.session true))
             (exec (click 0)
                   (exec (updateFromState Examples.after_first_move) (Examples.session true))) =
  [Called (PostMove 0); Fetch "/api/move/g1" (Some 0)].
Proof.
  apply (click_on_occupied_cell_posts_move
           Examples.after_first_move (Examples.session true) 0 "X" "g1").
  - unfold fits. simpl. lia.
  - reflexivity.
  - by left.
  - reflexivity.
  - discriminate.
Defined.

Lemma new_events_same (u u' : UI) : log u' = log u -> new_events u u' = [].
Proof. intros H. unfold new_events. rewrite H. apply drop_all. Qed.

(** C6.  With the nine cells on the page, an arrow key pressed on cell [i]
    (row [i/3], column [i mod 3]) moves the focus one step along the row or
    the column and wraps at the edges; in particular [ArrowRight] on cell 2
    focuses cell 0. *)
Theorem arrow_keys_wrap_focus (u : UI) (i : nat) :
  length (cells u) = 9 -> i < 9 ->
  focused (exec (keydown i "ArrowRight") u) = Some (i / 3 * 3 + (i mod 3 + 1) mod 3) /\
  focused (exec (keydown i "ArrowLeft") u) = Some (i / 3 * 3 + (i mod 3 + 2) mod 3) /\
  focused (exec (keydown i "ArrowDown") u) = Some ((i / 3 + 1) mod 3 * 3 + i mod 3) /\
  focused (exec (keydown i "ArrowUp") u) = Some ((i / 3 + 2) mod 3 * 3 + i mod 3) /\
  (i = 2 -> focused (exec (keydown i "ArrowRight") u) = Some 0) /\
  (forall key, In key ["ArrowRight"; "ArrowLeft"; "ArrowDown"; "ArrowUp"] ->
     ended (keydown i key) u = Done tt /\
     new_events u (exec (keydown i key) u) = []).
Proof.
  intros Hlen Hi.
  destruct u as [e g so cs stx sx so' wl tm rq c2 fo rc lg]. cbn in Hlen.
  do 10 (destruct cs as [|? cs]; try discriminate Hlen).
  do 9 (destruct i as [|i];
    [ do 4 (split; [reflexivity|]);
      (split; [intros Hi2; first [reflexivity | discriminate Hi2]|]);
      intros key [<-|[<-|[<-|[<-|[]]]]];
      (split; [reflexivity | apply new_events_same; reflexivity]) |]).
  lia.
Qed.

Lemma arrow_keys_wrap_focus_witness :
  focused (exec (keydown 2 "ArrowRight") (Examples.session true)) = Some 0.
Proof.
  apply (proj1 (proj2 (proj2 (proj2 (proj2
           (arrow_keys_wrap_focus (Examples.session true) 2 eq_refl ltac:(lia))))))).
  reflexivity.
Defined.

End Cells.


(** * Further properties of the script *)

Import More.

(** ** Win detector: bounds and symmetries *)

Section WinDetectorMore.
Import Win.

Lemma found_line (b : list string) (l : line) :
  findWinningTriple b = Some l -> In l lines /\ fully_owned b l.
Proof.
  intros H. apply findWinningTriple_first in H as (before & after & Heq & Hown & _).
  split; [|done]. rewrite lines_scan_order, Heq. apply in_app_iff. right. by left.
Qed.

(** X1.  A triple returned by [findWinningTriple] lists three increasing
    indices below 9 that all lie inside the board; a board of fewer than
    three cells, the empty board included, has no winning triple. *)
Theorem findWinningTriple_in_bounds (b : list string) :
  (forall a m c, findWinningTriple b = Some (a, m, c) ->
                 a < m /\ m < c /\ c < 9 /\ c < length b) /\
  (length b < 3 -> findWinningTriple b = None).
Proof.
  assert (H : forall a m c, findWinningTriple b = Some (a, m, c) ->
                            a < m /\ m < c /\ c < 9 /\ c < length b /\ 2 <= c).
  { intros a m c Hf. apply found_line in Hf as [Hin (s & _ & _ & _ & Hc)].
    apply lookup_lt_Some in Hc.
    repeat (destruct Hin as [Hin|Hin]; [simplify_eq/=; lia|]). destruct Hin. }
  split.
  - intros a m c Hf. destruct (H a m c Hf) as (? & ? & ? & ? & _). done.
  - intros Hlen. destruct (findWinningTriple b) as [[[a m] c]|] eqn:E; [|done].
    destruct (H a m c eq_refl) as (_ & _ & _ & ? & ?). lia.
Qed.

Lemma findWinningTriple_in_bounds_witness :
  findWinningTriple ["X"; "X"] = None.
Proof.
  apply (proj2 (findWinningTriple_in_bounds ["X"; "X"])). simpl. lia.
Defined.

Lemma wins_rename (f : string -> string) (b : list string) (l : line) :
  (forall s t, f s = f t -> s = t) -> f "" = "" ->
  wins (map f b) l = wins b l.
Proof.
  intros Hinj Hempty. destruct l as [[a m] c]. unfold wins.
  assert (Ht : forall v : jsval, truthy (f <$> v) = truthy v).
  { intros [s|]; simpl; [|done]. f_equal.
    destruct (String.eqb_spec s "") as [->|Hne].
    - rewrite Hempty. apply String.eqb_refl.
    - apply String.eqb_neq. intros Hfs. apply Hne, Hinj. by rewrite Hempty. }
  assert (He : forall v w : jsval, strict_eq (f <$> v) (f <$> w) = strict_eq v w).
  { intros [s|] [t|]; simpl; try done.
    destruct (String.eqb_spec s t) as [->|Hne].
    - apply String.eqb_refl.
    - apply String.eqb_neq. intros Hfs. by apply Hne, Hinj. }
  rewrite !list_lookup_fmap. by rewrite Ht, !He.
Qed.

Lemma swap_marks_injective (s t : string) : swap_marks s = swap_marks t -> s = t.
Proof.
  unfold swap_marks.
  destruct (String.eqb_spec s "X"), (String.eqb_spec s "O"),
    (String.eqb_spec t "X"), (String.eqb_spec t "O"); subst; try done; congruence.
Qed.

(** X2.  The detector does not care who owns a line: exchanging the marks
    ["X"] and ["O"] all over the board leaves the returned triple the same. *)
Theorem findWinningTriple_swap_marks (b : list string) :
  findWinningTriple (map swap_marks b) = findWinningTriple b.
Proof.
  unfold findWinningTriple. induction lines as [|l ls IH]; [done|].
  cbn [scan]. rewrite IH.
  by rewrite (wins_rename swap_marks b l swap_marks_injective eq_refl).
Qed.

(** X3.  Only the first nine entries of the board are read: entries from
    index 9 on never change the result. *)
Theorem findWinningTriple_first_nine (b : list string) :
  findWinningTriple (take 9 b) = findWinningTriple b.
Proof.
  unfold findWinningTriple, lines, scan, wins.
  rewrite !lookup_take_lt by lia. reflexivity.
Qed.

End WinDetectorMore.


(** ** Board renderer: overwrite, idempotence, oversized boards *)

Section RendererMore.

Lemma render_cells_above (b : list string) :
  forall i cs j, i + length b <= j -> render_cells i b cs !! j = cs !! j.
Proof.
  induction b as [|v b IH]; intros i cs j Hj; cbn [render_cells]; [done|].
  cbn [length] in Hj. destruct (cs !! i) as [c|]; [|done].
  rewrite IH by lia. apply list_lookup_insert_ne. lia.
Qed.

Lemma render_cells_idem (b : list string) (cs : list Dom.Cell) :
  length b <= length cs ->
  render_cells 0 b (render_cells 0 b cs) = render_cells 0 b cs.
Proof.
  intros Hlen. apply list_eq. intros j.
  destruct (decide (j < length b)) as [Hj|Hj].
  - destruct (lookup_lt_is_Some_2 b j Hj) as [v Hv].
    destruct (lookup_lt_is_Some_2 cs j ltac:(lia)) as [c Hc].
    assert (H1 : render_cells 0 b cs !! j =
                 Some (Dom.mkCell (Dom.renderMark_children v) (Dom.rect c))).
    { apply render_cells_lookup; try done; try lia. by rewrite Nat.sub_0_r. }
    rewrite H1.
    rewrite (render_cells_lookup b 0 (render_cells 0 b cs) j v _ ltac:(lia)
               ltac:(by rewrite Nat.sub_0_r) H1); [done|].
    rewrite render_cells_length. lia.
  - by rewrite render_cells_above by lia.
Qed.

Lemma rendered_glyph (v : string) :
  glyph_of (Dom.renderMark_children v) =
  if String.eqb v "" then Blank else if String.eqb v "X" then Cross else Ring.
Proof.
  unfold Dom.renderMark_children, truthy.
  destruct (String.eqb v ""); cbn [negb]; [done|].
  destruct (String.eqb v "X"); reflexivity.
Qed.

(** X4.  After [updateFromState] on a state that fits the page, every cell
    the board covers shows the board's entry, whatever it showed before, in
    its old place: nothing for the empty string, the cross for ["X"], and
    the ring for every other mark; it holds no text.  The cells past the
    board are untouched. *)
Theorem updateFromState_overwrites_cells (st : GameState) (u : UI) :
  fits st u ->
  (forall j v c, board st !! j = Some v -> cells u !! j = Some c ->
     exists c',
       cells (exec (updateFromState st) u) !! j = Some c' /\
       Dom.rect c' = Dom.rect c /\
       glyph_of (Dom.children c') =
         (if String.eqb v "" then Blank else if String.eqb v "X" then Cross else Ring) /\
       Dom.text_of (Dom.children c') = "") /\
  (forall j, length (board st) <= j ->
     cells (exec (updateFromState st) u) !! j = cells u !! j).
Proof.
  intros Hfit.
  destruct (updateFromState_effect st u Hfit) as (u' & evs & tms & Hrun & _ & _ & _ & Hc & _).
  rewrite (exec_updateFromState _ _ _ Hrun), Hc. split.
  - intros j v c Hv Hcell. eexists. split.
    + apply render_cells_lookup; try done; try lia. by rewrite Nat.sub_0_r.
    + cbn [Dom.rect Dom.children]. split; [done|]. split; [apply rendered_glyph|].
      apply rendered_text_empty.
  - intros j Hj. by apply render_cells_above.
Qed.

Lemma updateFromState_overwrites_cells_witness :
  (exists c',
     cells (exec (updateFromState Examples.top_row_win) (Examples.session true)) !! 0 = Some c' /\
     glyph_of (Dom.children c') = Cross) /\
  (exists c',
     cells (exec (updateFromState Examples.top_row_win) (Examples.session true)) !! 3 = Some c' /\
     glyph_of (Dom.children c') = Ring) /\
  (exists c',
     cells (exec (updateFromState Examples.top_row_win) (Examples.session true)) !! 5 = Some c' /\
     glyph_of (Dom.children c') = Blank).
Proof.
  pose proof (proj1 (updateFromState_overwrites_cells Examples.top_row_win
                (Examples.session true) ltac:(unfold fits; vm_compute; lia))) as H.
  split; [|split].
  - destruct (H 0 "X" _ eq_refl eq_refl) as (c' & H1 & _ & H3 & _). exists c'. split; [exact H1|exact H3].
  - destruct (H 3 "O" _ eq_refl eq_refl) as (c' & H1 & _ & H3 & _). exists c'. split; [exact H1|exact H3].
  - destruct (H 5 "" _ eq_refl eq_refl) as (c' & H1 & _ & H3 & _). exists c'. split; [exact H1|exact H3].
Defined.

(** X5.  Applying the same state twice, when it fits the page and declares
    no winner other than a tie, leaves the session exactly as the first
    application left it. *)
Theorem updateFromState_idempotent (st : GameState) (u : UI) :
  fits st u -> is_win st = false ->
  exec (updateFromState st) (exec (updateFromState st) u) = exec (updateFromState st) u.
Proof.
  intros Hfit Hwin. unfold exec.
  rewrite (updateFromState_eq st u Hfit), Hwin. cbn [ret snd].
  assert (Hfit' : fits st (set_statusText (status_of st)
                    (set_cells (render_cells 0 (board st) (cells u)) u))).
  { unfold fits in *. destruct u; norm. by rewrite render_cells_length. }
  rewrite (updateFromState_eq st _ Hfit'), Hwin. cbn [ret snd].
  destruct u; norm. unfold set_statusText, set_cells; norm.
  by rewrite render_cells_idem.
Qed.

Lemma updateFromState_idempotent_witness :
  exec (updateFromState Examples.drawn_game)
       (exec (updateFromState Examples.drawn_game) (Examples.session true)) =
  exec (updateFromState Examples.drawn_game) (Examples.session true).
Proof.
  apply updateFromState_idempotent.
  - unfold fits. vm_compute. lia.
  - reflexivity.
Defined.

Lemma render_cells_reached (b : list string) :
  forall i cs j v c,
    i <= j -> b !! (j - i) = Some v -> cs !! j = Some c ->
    render_cells i b cs !! j =
      Some (Dom.mkCell (Dom.renderMark_children v) (Dom.rect c)).
Proof.
  induction b as [|v0 b IH]; intros i cs j v c Hij Hv Hc; [done|].
  cbn [render_cells].
  destruct (cs !! i) as [c0|] eqn:E.
  2: { apply lookup_ge_None in E. apply lookup_lt_Some in Hc. lia. }
  destruct (decide (j = i)) as [->|Hne].
  - rewrite Nat.sub_diag in Hv. simplify_eq/=.
    rewrite render_cells_below by lia.
    apply list_lookup_insert_eq. by eapply lookup_lt_Some.
  - apply IH.
    + lia.
    + replace (j - i) with (S (j - S i)) in Hv by lia. done.
    + rewrite list_lookup_insert_ne by lia. done.
Qed.

Lemma render_from_throw (b : list string) :
  forall i u,
    i <= length (cells u) -> length (cells u) < i + length b ->
    render_from i b u =
    (Thrown (TypeError "cellEl is undefined"),
     set_cells (render_cells i b (cells u)) u).
Proof.
  induction b as [|v b IH]; intros i u Hi Hlen; cbn [length] in Hlen; [lia|].
  cbn [render_from render_cells]. unfold bind at 1, renderMark, bind at 1, get.
  destruct (cells u !! i) as [c|] eqn:E.
  - unfold modify. apply lookup_lt_Some in E. rewrite IH.
    + by destruct u.
    + destruct u; norm. rewrite length_insert. lia.
    + destruct u; norm. rewrite length_insert. lia.
  - unfold throw. by destruct u.
Qed.

(** X6.  A board with more entries than the page has cells makes
    [updateFromState] throw a [TypeError] after it has rendered every
    existing cell: the status text, the scores, the win line and the log
    stay as they were, and none of the win effects runs. *)
Theorem updateFromState_oversized_board (st : GameState) (u : UI) :
  length (cells u) < length (board st) ->
  ended (updateFromState st) u = Thrown (TypeError "cellEl is undefined") /\
  (forall j v c, board st !! j = Some v -> cells u !! j = Some c ->
     cells (exec (updateFromState st) u) !! j =
       Some (Dom.mkCell (Dom.renderMark_children v) (Dom.rect c))) /\
  length (cells (exec (updateFromState st) u)) = length (cells u) /\
  statusText (exec (updateFromState st) u) = statusText u /\
  scoreX (exec (updateFromState st) u) = scoreX u /\
  scoreO (exec (updateFromState st) u) = scoreO u /\
  winLineSvg (exec (updateFromState st) u) = winLineSvg u /\
  rafQueue (exec (updateFromState st) u) = rafQueue u /\
  new_events u (exec (updateFromState st) u) = [].
Proof.
  intros Hlen.
  assert (Hrun : updateFromState st u =
                 (Thrown (TypeError "cellEl is undefined"),
                  set_cells (render_cells 0 (board st) (cells u)) u)).
  { unfold updateFromState, bind at 1. rewrite render_from_throw by lia. done. }
  unfold ended, exec. rewrite Hrun. cbn [fst snd].
  split; [done|].
  split. { intros j v c Hv Hc. destruct u; norm. by apply render_cells_reached; [lia|rewrite Nat.sub_0_r|]. }
  split. { destruct u; norm. apply render_cells_length. }
  repeat split; try (by destruct u).
  unfold new_events. destruct u; norm. apply drop_all.
Qed.

Lemma updateFromState_oversized_board_witness :
  ended (updateFromState (mkGame ["X"; "O"; "X"; ""; ""; ""; ""; ""; ""; "O"] "X" (Some "X")))
        (Examples.session true) = Thrown (TypeError "cellEl is undefined") /\
  scoreX (exec (updateFromState (mkGame ["X"; "O"; "X"; ""; ""; ""; ""; ""; ""; "O"] "X" (Some "X")))
               (Examples.session true)) = Some 0%N.
Proof.
  pose proof (updateFromState_oversized_board
                (mkGame ["X"; "O"; "X"; ""; ""; ""; ""; ""; ""; "O"] "X" (Some "X"))
                (Examples.session true) ltac:(vm_compute; lia)) as (H1 & _ & _ & _ & H2 & _).
  split; [exact H1 | exact H2].
Defined.

End RendererMore.


(** ** Tones *)

Section Tones.

Ltac win_block_cases e st so :=
  destruct so;
  [rewrite beep_eq; norm; destruct (audioCtx e); cbn [andb]; norm | unfold ret at 1];
  unfold bind at 1; rewrite launchConfetti_eq; norm; destruct (ctx e); cbv zeta; norm;
  unfold bind, modify, ret;
  destruct (strict_eq (winner st) (Some "X")), (strict_eq (winner st) (Some "O")); norm;
  rewrite <- ?app_assoc; cbn [app].

(** The tones of the win block: the win tone, once, unless muted. *)
Lemma celebrate_tones (st : GameState) (u : UI) :
  (forall a m c, Win.findWinningTriple (board st) = Some (a, m, c) ->
                 is_Some (cells u !! a) /\ is_Some (cells u !! c)) ->
  exists evs,
    log (exec (celebrate st) u) = log u ++ evs /\
    count is_console evs = 0 /\
    count is_beep evs = (if audioCtx (env u) && soundOn u then 1 else 0) /\
    (audioCtx (env u) && soundOn u = true -> In (Beep 320 (16 # 100) (12 # 100)) evs).
Proof.
  intros Hlook. unfold exec, celebrate.
  destruct u as [e g so cs stx sx so' wl tm rq c2 fo rc lg]. norm.
  unfold bind at 1, emit, modify. unfold bind at 1. norm.
  destruct (Win.findWinningTriple (board st)) as [[[a m] c]|] eqn:Et.
  - destruct (Hlook a m c eq_refl) as [[ca Ha] [cc Hc]].
    rewrite (animateWinLine_eq a c _ ca cc) by done. norm.
    unfold bind at 1, get. unfold bind at 1. norm.
    win_block_cases e st so;
      (eexists; split; [reflexivity|]); rewrite ?andb_false_r; cbn [andb];
      (split; [reflexivity|]; split; [reflexivity|]);
      first [discriminate | intros _; cbn; tauto].
  - unfold ret at 1. unfold bind at 1, get. unfold bind at 1. norm.
    win_block_cases e st so;
      (eexists; split; [reflexivity|]); rewrite ?andb_false_r; cbn [andb];
      (split; [reflexivity|]; split; [reflexivity|]);
      first [discriminate | intros _; cbn; tauto].
Qed.

(** What [updateFromState] logs and keeps, for any state on any session. *)
Lemma updateFromState_any (st : GameState) (u : UI) :
  exists evs,
    log (exec (updateFromState st) u) = log u ++ evs /\
    env (exec (updateFromState st) u) = env u /\
    soundOn (exec (updateFromState st) u) = soundOn u /\
    gameId (exec (updateFromState st) u) = gameId u /\
    count is_backend evs = 0 /\
    count is_console evs = 0 /\
    count is_beep evs = (if is_win st && fitsb st u &&
                            (audioCtx (env u) && soundOn u) then 1 else 0) /\
    ended (updateFromState st) u =
      (if fitsb st u then Done tt
       else Thrown (TypeError "cellEl is undefined")).
Proof.
  unfold fitsb. destruct (Nat.leb_spec (length (board st)) (length (cells u))) as [Hfit|Hlen].
  - change (fits st u) in Hfit.
    destruct (updateFromState_effect st u Hfit) as
      (u' & evs & tms & Hrun & He & Hg & Hso & Hc & _ & _ & _ & Hl & Hb & _).
    unfold ended. rewrite (exec_updateFromState _ _ _ Hrun), Hrun. cbn [fst].
    exists evs. do 5 (split; [done|]).
    rewrite andb_true_r.
    pose proof Hrun as Hrun'. rewrite (updateFromState_eq st u Hfit) in Hrun'.
    destruct (is_win st) eqn:Hwin; cbn [andb].
    + set (s := set_statusText (status_of st)
                  (set_cells (render_cells 0 (board st) (cells u)) u)) in *.
      destruct (celebrate_tones st s) as (evs2 & Hl2 & Hcon & Hbeep & _).
      { intros a m c Htr. apply triple_in_range in Htr as [Ha Hcc].
        unfold fits in Hfit. subst s. destruct u; norm.
        split; apply lookup_lt_is_Some; rewrite render_cells_length; lia. }
      unfold exec in Hl2. rewrite Hrun' in Hl2. cbn [snd] in Hl2.
      assert (evs = evs2) as ->.
      { apply (app_inv_head (log u)). rewrite <- Hl, Hl2. subst s. by destruct u. }
      split; [done|]. split; [|done]. rewrite Hbeep. subst s. by destruct u.
    + unfold ret in Hrun'. simplify_eq. destruct u; norm.
      assert (evs = []) as ->.
      { apply (app_inv_head log0). by rewrite <- Hl, app_nil_r. }
      done.
  - rewrite andb_false_r. cbn [andb].
    assert (Hrun : updateFromState st u =
                   (Thrown (TypeError "cellEl is undefined"),
                    set_cells (render_cells 0 (board st) (cells u)) u)).
    { unfold updateFromState, bind at 1. rewrite render_from_throw by lia. done. }
    unfold ended, exec. rewrite Hrun. cbn [fst snd].
    exists []. rewrite app_nil_r. by destruct u.
Qed.

End Tones.


(** ** Backend glue on every response *)

Section BackendMore.

Lemma count_nil (f : event -> bool) : count f [] = 0.
Proof. reflexivity. Qed.

(** Facts about [updateFromState] on the pair it returns. *)
Lemma updateFromState_pair (st : GameState) (u : UI) :
  exists o u1 evs,
    updateFromState st u = (o, u1) /\
    log u1 = log u ++ evs /\ env u1 = env u /\ soundOn u1 = soundOn u /\
    gameId u1 = gameId u /\
    count is_backend evs = 0 /\ count is_console evs = 0 /\
    (muted u -> count is_beep evs = 0) /\
    o = (if fitsb st u then Done tt else Thrown (TypeError "cellEl is undefined")).
Proof.
  destruct (updateFromState_any st u) as (evs & Hl & He & Hso & Hg & Hb & Hc & Hbeep & Hend).
  unfold exec, ended in *. destruct (updateFromState st u) as [o u1]. cbn [fst snd] in *.
  exists o, u1, evs. repeat split; try done.
  intros Hm. unfold muted in Hm. rewrite Hbeep, Hm. by rewrite andb_false_r.
Qed.

Lemma muted_same (u v : UI) : env v = env u -> soundOn v = soundOn u -> muted u -> muted v.
Proof. unfold muted. by intros -> ->. Qed.

(** The resumption of [requestAiMove], whatever the response. *)
Lemma requestAiMove_resumed_any (r : fetch_result) (u : UI) :
  exists evs,
    log (exec (requestAiMove_resumed r) u) = log u ++ evs /\
    gameId (exec (requestAiMove_resumed r) u) = gameId u /\
    ended (requestAiMove_resumed r) u = Done tt /\
    count is_backend evs = 0 /\
    (muted u -> count is_beep evs = 0).
Proof.
  unfold exec, ended, requestAiMove_resumed, try_catch.
  destruct r as [|ok data].
  - unfold throw, emit, modify. exists [ConsoleError FetchError]. by destruct u.
  - destruct ok; cbn [negb].
    + destruct (b_state data) as [st|]; cbn [updateFromState_of].
      * destruct (updateFromState_pair st u) as
          (o & u1 & evs & Hrun & Hl & He & Hso & Hg & Hb & Hc & Hm & Ho).
        unfold bind. rewrite Hrun. destruct o as [[]|e].
        -- rewrite beep_eq. cbn [fst snd].
           destruct (audioCtx (env u1) && soundOn u1) eqn:Ea.
           ++ exists (evs ++ [Beep 520 (8 # 100) (6 # 100)]).
              destruct u1; norm. subst. rewrite <- app_assoc.
              repeat split; try done.
              ** by rewrite count_app, Hb.
              ** intros Hmu. unfold muted in Hmu. congruence.
           ++ exists evs. repeat split; done.
        -- unfold emit, modify. cbn [fst snd]. exists (evs ++ [ConsoleError e]).
           destruct u1; norm. subst. rewrite <- app_assoc.
           repeat split; try done.
           ** by rewrite count_app, Hb.
           ** intros Hmu. by rewrite count_app, (Hm Hmu).
      * unfold bind, throw, emit, modify. cbn [fst snd].
        exists [ConsoleError (TypeError "state is undefined")]. by destruct u.
    + destruct (b_state data) as [st|].
      * destruct (updateFromState_pair st u) as
          (o & u1 & evs & Hrun & Hl & He & Hso & Hg & Hb & Hc & Hm & Ho).
        rewrite Hrun. destruct o as [[]|e]; cbn [fst snd].
        -- exists evs. repeat split; done.
        -- unfold emit, modify. cbn [fst snd]. exists (evs ++ [ConsoleError e]).
           destruct u1; norm. subst. rewrite <- app_assoc.
           repeat split; try done.
           ** by rewrite count_app, Hb.
           ** intros Hmu. by rewrite count_app, (Hm Hmu).
      * unfold ret. cbn [fst snd]. exists []. rewrite app_nil_r. repeat split; done.
Qed.

(** X9.  Whatever the server answers to an AI-move request, the client
    issues no further backend call on it, keeps its game id and ends without
    an uncaught exception. *)
Theorem ai_response_never_chains (r : fetch_result) (u : UI) :
  count is_backend (new_events u (exec (requestAiMove_resumed r) u)) = 0 /\
  gameId (exec (requestAiMove_resumed r) u) = gameId u /\
  ended (requestAiMove_resumed r) u = Done tt.
Proof.
  destruct (requestAiMove_resumed_any r u) as (evs & Hl & Hg & He & Hb & _).
  by rewrite (new_events_app _ _ _ Hl).
Qed.


(** The resumption of [postMove], whatever the response. *)
Lemma postMove_resumed_any (r : fetch_result) (u : UI) :
  exists pre,
    log (exec (postMove_resumed r) u) =
      log u ++ pre ++ (if asks_ai r u then Called RequestAiMove :: ai_fetch u else []) /\
    gameId (exec (postMove_resumed r) u) = gameId u /\
    ended (postMove_resumed r) u = Done tt /\
    count is_backend pre = 0 /\
    (muted u -> count is_beep pre = 0).
Proof.
  unfold exec, ended. destruct (postMove_resumed r u) as [o' u'] eqn:Hpm. cbn [fst snd].
  unfold postMove_resumed, try_catch, asks_ai in *.
  destruct r as [|ok data].
  - unfold setStatus, throw, bind, emit, modify in Hpm. simplify_eq.
    exists [ConsoleError FetchError]. destruct u; norm. by rewrite ?app_nil_r.
  - destruct ok; cbn [negb] in Hpm.
    + destruct (b_state data) as [st|]; cbn [updateFromState_of] in Hpm.
      * destruct (updateFromState_pair st u) as
          (o & u1 & evs & Hrun & Hl & He & Hso & Hg & Hb & Hc & Hm & Ho).
        unfold bind at 1 in Hpm. rewrite Hrun in Hpm.
        subst o; destruct (fitsb st u); cbn [andb].
        -- rewrite (bind_done _ _ _ _ _ (beep_eq _ _ _ u1)) in Hpm.
           assert (Hmu1 : muted u -> audioCtx (env u1) && soundOn u1 = false).
           { intros Hmu. unfold muted in Hmu. congruence. }
           destruct (truthy (winner st)); cbn [negb] in *;
             [unfold ret in Hpm
             |unfold requestAiMove, bind, emit, modify, get in Hpm; unfold ai_fetch];
             (destruct (audioCtx (env u1) && soundOn u1) eqn:Ea;
              [exists (evs ++ [Beep 880 (6 # 100) (4 # 100)]) | exists evs]);
             destruct u1; norm; subst;
             try (destruct (gameId u) as [g|]; [destruct (truthy (Some g))|]);
             unfold ret in Hpm; norm; simplify_eq; norm;
             rewrite ?app_nil_r, <- ?app_assoc; cbn [app];
             (split; [reflexivity|]); (split; [reflexivity|]); (split; [reflexivity|]);
             (split; [by rewrite ?count_app, ?Hb|]);
             intros Hmu; first [by rewrite ?count_app, ?(Hm Hmu) | by specialize (Hmu1 Hmu)].
        -- unfold setStatus, bind, emit, modify in Hpm. simplify_eq.
           exists (evs ++ [ConsoleError (TypeError "cellEl is undefined")]).
           destruct u1; norm. subst. rewrite app_nil_r, <- app_assoc.
           (split; [reflexivity|]); (split; [reflexivity|]); (split; [reflexivity|]).
           split; [by rewrite count_app, Hb|].
           intros Hmu. by rewrite count_app, (Hm Hmu).
      * unfold setStatus, bind, throw, emit, modify in Hpm. simplify_eq.
        exists [ConsoleError (TypeError "state is undefined")]. destruct u; norm. by rewrite ?app_nil_r.
    + unfold setStatus, modify in Hpm. simplify_eq. exists []. destruct u; norm. by rewrite ?app_nil_r.
Qed.

(** X10.  A response to a player move is followed by at most one AI
    request: [requestAiMove] is called, once and as the last thing, exactly
    when the response is a success whose state renders on the page and has a
    falsy winner; on every other response no backend call is made.  The
    resumption never ends in an uncaught exception and keeps the game id. *)
Theorem move_response_asks_ai_at_most_once (r : fetch_result) (u : UI) :
  exists pre,
    new_events u (exec (postMove_resumed r) u) =
      pre ++ (if asks_ai r u then Called RequestAiMove :: ai_fetch u else []) /\
    count is_backend pre = 0 /\
    gameId (exec (postMove_resumed r) u) = gameId u /\
    ended (postMove_resumed r) u = Done tt.
Proof.
  destruct (postMove_resumed_any r u) as (pre & Hl & Hg & He & Hb & _).
  exists pre. by rewrite (new_events_app _ _ _ Hl).
Qed.

(** X8.  A failed player move changes nothing but the status line (and the
    console): a rejection shows the server's reason, or "Move rejected" when
    the reason is missing or empty; a transport failure and a success
    response without a state both show "Error" and log the exception. *)
Theorem failed_move_only_sets_status (data : Body) (u : UI) :
  exec (postMove_resumed (Response false data)) u =
    set_statusText (or_else (b_error data) "Move rejected") u /\
  exec (postMove_resumed Rejected) u =
    set_statusText "Error" (set_log (log u ++ [ConsoleError FetchError]) u) /\
  (b_state data = None ->
   exec (postMove_resumed (Response true data)) u =
     set_statusText "Error"
       (set_log (log u ++ [ConsoleError (TypeError "state is undefined")]) u)).
Proof.
  split; [by destruct u|]. split; [by destruct u|].
  intros Hst. unfold exec, postMove_resumed, try_catch. cbn [negb]. rewrite Hst.
  by destruct u.
Qed.

Lemma failed_move_only_sets_status_witness :
  statusText (exec (postMove_resumed (Response false (mkBody None (Some "Cell occupied"))))
                   (Examples.session true)) = "Cell occupied" /\
  statusText (exec (postMove_resumed (Response true (mkBody None None)))
                   (Examples.session true)) = "Error".
Proof.
  split.
  - rewrite (proj1 (failed_move_only_sets_status (mkBody None (Some "Cell occupied"))
                      (Examples.session true))). reflexivity.
  - rewrite (proj2 (proj2 (failed_move_only_sets_status (mkBody None None)
                      (Examples.session true))) eq_refl). reflexivity.
Defined.

(** X7.  [updateFromState] plays exactly one tone when it applies a
    non-[Tie] win that fits the page with the sound on and an audio context,
    and none otherwise; with the sound off or without an audio context no
    response handler plays any tone. *)
Theorem tones_follow_the_sound_switch (u : UI) :
  (forall st,
     count is_beep (new_events u (exec (updateFromState st) u)) =
     if is_win st && fitsb st u && (audioCtx (env u) && soundOn u) then 1 else 0) /\
  (muted u ->
   (forall r, count is_beep (new_events u (exec (postMove_resumed r) u)) = 0) /\
   (forall r, count is_beep (new_events u (exec (requestAiMove_resumed r) u)) = 0)).
Proof.
  split.
  - intros st. destruct (updateFromState_any st u) as (evs & Hl & _ & _ & _ & _ & _ & Hb & _).
    by rewrite (new_events_app _ _ _ Hl).
  - intros Hm. split; intros r.
    + destruct (postMove_resumed_any r u) as (pre & Hl & _ & _ & _ & Hbeep).
      rewrite (new_events_app _ _ _ Hl), count_app, (Hbeep Hm).
      destruct (asks_ai r u); [|done]. unfold ai_fetch.
      destruct (gameId u) as [g|]; [destruct (truthy (Some g))|]; done.
    + destruct (requestAiMove_resumed_any r u) as (evs & Hl & _ & _ & _ & Hbeep).
      by rewrite (new_events_app _ _ _ Hl), (Hbeep Hm).
Qed.

Lemma tones_follow_the_sound_switch_witness :
  count is_beep
    (new_events (set_soundOn false (Examples.session true))
       (exec (postMove_resumed (Response true (mkBody (Some Examples.top_row_win) None)))
             (set_soundOn false (Examples.session true)))) = 0.
Proof.
  exact (proj1 (proj2 (tones_follow_the_sound_switch
                         (set_soundOn false (Examples.session true))) eq_refl)
               (Response true (mkBody (Some Examples.top_row_win) None))).
Defined.

Lemma no_fetch_in (l : list event) : Forall (fun e => is_fetch e = false) l -> count is_fetch l = 0.
Proof.
  induction 1 as [|e l He _ IH]; [done|].
  rewrite count_cons, He. done.
Qed.

Section Appends.
Context (I : UI -> Prop) (P : event -> Prop).

Lemma appends_ret {A : Type} (a : A) : appends I P (ret a).
Proof. intros v Hv. split; [done|]. exists []. by rewrite app_nil_r. Qed.

Lemma appends_throw {A : Type} (e : exn) : appends I P (@throw A e).
Proof. intros v Hv. split; [done|]. exists []. by rewrite app_nil_r. Qed.

Lemma appends_bind {A B : Type} (m : M A) (k : A -> M B) :
  appends I P m -> (forall a, appends I P (k a)) -> appends I P (bind m k).
Proof.
  intros Hm Hk v Hv. destruct (Hm v Hv) as (Hi & evs & Hl & Hf).
  unfold exec in Hi, Hl. unfold exec at 1 2. unfold bind.
  destruct (m v) as [[a|e] v1]; cbn [snd] in *.
  - destruct (Hk a v1 Hi) as (Hi2 & evs2 & Hl2 & Hf2). unfold exec in Hi2, Hl2.
    split; [done|].
    exists (evs ++ evs2). split; [by rewrite Hl2, Hl, app_assoc | by apply Forall_app].
  - split; [done|]. by exists evs.
Qed.

Lemma appends_emit (e : event) :
  P e -> (forall v l, I v -> I (set_log l v)) -> appends I P (emit e).
Proof.
  intros He Hi v Hv. split; [by apply Hi|]. exists [e].
  split; [by destruct v | by repeat constructor].
Qed.

Lemma appends_modify (f : UI -> UI) :
  (forall v, I v -> I (f v) /\ log (f v) = log v) -> appends I P (modify f).
Proof.
  intros Hf v Hv. destruct (Hf v Hv) as [Hi Hl]. split; [done|].
  exists []. by rewrite app_nil_r.
Qed.

Lemma appends_get : appends I P get.
Proof. intros v Hv. split; [done|]. exists []. by rewrite app_nil_r. Qed.

End Appends.

(** With a falsy game id the cell listeners append no fetch to the log. *)
Lemma keydown_appends_no_fetch (idx : nat) (key : string) :
  appends (fun v => truthy (gameId v) = false) (fun e => is_fetch e = false)
          (keydown idx key).
Proof.
  assert (Hfocus : forall i, appends (fun v => truthy (gameId v) = false)
                               (fun e => is_fetch e = false) (focusCell i)).
  { intros i. unfold focusCell. apply appends_bind; [apply appends_get|].
    intros v. destruct (cells v !! i); [|apply appends_throw].
    apply appends_modify. intros w Hw. by destruct w. }
  assert (Hpost : appends (fun v => truthy (gameId v) = false)
                          (fun e => is_fetch e = false) (postMove idx)).
  { unfold postMove. apply appends_bind.
    { apply appends_emit; [done|]. intros v l Hv. by destruct v. }
    intros _ v Hv. unfold exec, setStatus, bind, get, modify, emit.
    destruct v; norm. destruct gameId0 as [g|]; [rewrite Hv|]; norm;
      (split; [done|]); exists []; by rewrite app_nil_r. }
  assert (Hclick : appends (fun v => truthy (gameId v) = false)
                           (fun e => is_fetch e = false) (click idx)).
  { unfold click. apply appends_bind; [apply appends_get|].
    intros v. destruct (cells v !! idx) as [c|]; [|apply appends_ret].
    destruct (negb _); [apply appends_ret | apply Hpost]. }
  unfold keydown. apply appends_bind; [apply appends_get|].
  intros v. destruct (cells v !! idx); [|apply appends_ret].
  apply appends_bind.
  { destruct (_ || _); [|apply appends_ret].
    apply appends_bind; [|intros _; apply Hclick].
    apply appends_emit; [done|]. intros w l Hw. by destruct w. }
  intros _.
  repeat (apply appends_bind; [destruct (String.eqb key _); [apply Hfocus | apply appends_ret]|];
          intros _).
  destruct (String.eqb key _); [apply Hfocus | apply appends_ret].
Qed.

(** X11.  Without a game id (none yet, or an empty one) no cell interaction
    reaches the network: a click, any key pressed on a cell and a direct
    [requestAiMove] issue no fetch, and a click on a cell whose text is
    blank only sets the status to "Press New Game". *)
Theorem no_game_no_fetch (u : UI) (idx : nat) (key : string) :
  truthy (gameId u) = false ->
  count is_fetch (new_events u (exec (click idx) u)) = 0 /\
  count is_fetch (new_events u (exec (keydown idx key) u)) = 0 /\
  count is_fetch (new_events u (exec requestAiMove u)) = 0 /\
  (forall c, cells u !! idx = Some c -> Dom.trim (Dom.text_of (Dom.children c)) = "" ->
     exec (click idx) u =
       set_statusText "Press New Game" (set_log (log u ++ [Called (PostMove idx)]) u)).
Proof.
  intros Hg.
  assert (Hpost : exec (postMove idx) u =
              set_statusText "Press New Game" (set_log (log u ++ [Called (PostMove idx)]) u)).
  { unfold exec, postMove, bind, emit, modify, get, setStatus.
    destruct u; norm. destruct gameId0 as [g|]; [|done]. rewrite Hg. done. }
  split; [|split; [|split]].
  - destruct (keydown_appends_no_fetch idx "Enter" u Hg) as (_ & evs & Hl & Hf).
    unfold exec, click, bind, get. 
    destruct (cells u !! idx) as [c|]; [|by rewrite new_events_same].
    destruct (negb _); [by rewrite new_events_same|].
    unfold exec in Hpost. rewrite Hpost. unfold new_events. destruct u; norm.
    by rewrite drop_app_length.
  - destruct (keydown_appends_no_fetch idx key u Hg) as (_ & evs & Hl & Hf).
    rewrite (new_events_app _ _ _ Hl). by apply no_fetch_in.
  - unfold exec, requestAiMove, bind, emit, modify, get, new_events.
    destruct u; norm. destruct gameId0 as [g|]; [rewrite Hg|]; unfold ret; norm;
      by rewrite drop_app_length.
  - intros c Hc Ht. unfold exec at 1, click, bind, get. rewrite Hc, Ht. cbn [String.eqb negb].
    apply Hpost.
Qed.

Lemma no_game_no_fetch_witness :
  statusText (exec (click 4) (set_gameId None (Examples.session true))) = "Press New Game".
Proof.
  rewrite (proj2 (proj2 (proj2 (no_game_no_fetch (set_gameId None (Examples.session true))
                                   4 "Enter" eq_refl))) _ eq_refl eq_refl).
  reflexivity.
Defined.

(** X12.  The score is a tally of applied winning states, not of games:
    applying the same winning state a second time counts the win again and
    calls [launchConfetti] a second time. *)
Theorem repeated_win_is_counted_again (st : GameState) (u : UI) :
  fits st u -> winner st = Some "X" -> (default 0 (scoreX u) + 1 < 2 ^ 53)%N ->
  score_value (scoreX (exec (updateFromState st) (exec (updateFromState st) u))) =
    (score_value (scoreX u) + 2)%N /\
  scoreO (exec (updateFromState st) (exec (updateFromState st) u)) = scoreO u /\
  count is_launch
    (new_events u (exec (updateFromState st) (exec (updateFromState st) u))) = 2.
Proof.
  intros Hfit Hw Hsafe.
  assert (Hwin : is_win st = true) by (unfold is_win; by rewrite Hw).
  destruct (updateFromState_effect st u Hfit) as
    (u1 & evs1 & tms1 & Hrun1 & _ & _ & _ & Hc1 & _ & Hx1 & Ho1 & Hl1 & _ & _ & Hm1).
  rewrite (exec_updateFromState _ _ _ Hrun1).
  assert (Hfit1 : fits st u1).
  { unfold fits in *. by rewrite Hc1, render_cells_length. }
  destruct (updateFromState_effect st u1 Hfit1) as
    (u2 & evs2 & tms2 & Hrun2 & _ & _ & _ & _ & _ & Hx2 & Ho2 & Hl2 & _ & _ & Hm2).
  rewrite (exec_updateFromState _ _ _ Hrun2).
  rewrite Hwin in *. rewrite Hw in *. cbn in Hx1, Hx2, Ho1, Ho2.
  destruct Hm1 as [Hn1 _], Hm2 as [Hn2 _].
  split; [|split].
  - rewrite Hx2, Hx1. rewrite bump_value.
    + rewrite bump_value; [lia|]. unfold safe_score. lia.
    + unfold safe_score, bump, score_value.
      set (n := default 0%N (scoreX u)) in *. simpl.
      rewrite (to_double_exact n) by lia. rewrite (to_double_exact (n + 1)) by lia. lia.
  - congruence.
  - assert (Hl : log u2 = log u ++ (evs1 ++ evs2)) by (by rewrite Hl2, Hl1, app_assoc).
    by rewrite (new_events_app _ _ _ Hl), count_app, Hn1, Hn2.
Qed.

Lemma repeated_win_is_counted_again_witness :
  score_value
    (scoreX (exec (updateFromState Examples.top_row_win)
               (exec (updateFromState Examples.top_row_win) (Examples.session true)))) = 2%N.
Proof.
  apply (proj1 (repeated_win_is_counted_again Examples.top_row_win (Examples.session true)
                  ltac:(unfold fits; vm_compute; lia) eq_refl ltac:(vm_compute; reflexivity))).
Defined.

End BackendMore.


(** ** Confetti: particle ranges, motion, overlapping runs, resize *)

Section ConfettiMore.

Lemma QofN_nonneg (n : N) : (0 <= QofN n)%Q.
Proof. unfold QofN. change 0%Q with (inject_Z 0). rewrite <- Zle_Qle. lia. Qed.

Lemma pick_index (z : Z) :
  (0 <= z < 5)%Z -> exists c, pick z = Some c /\ In c colors.
Proof.
  intros Hz.
  assert (Hc : (z = 0 \/ z = 1 \/ z = 2 \/ z = 3 \/ z = 4)%Z) by lia.
  destruct Hc as [-> | [-> | [-> | [-> | ->]]]];
    (eexists; split; [reflexivity|]); repeat (first [left; reflexivity | right]).
Qed.

(** [Math.floor(Math.random()*colors.length)] is an index of the palette:
    the product of a binary64 value below 1 and 5 does not round up to 5. *)
Lemma pick_in_palette (q : Q) :
  (0 <= q)%Q -> (q < 1)%Q -> Double.representable q ->
  exists c,
    pick (Qfloor (Double.mul q (inject_Z (Z.of_nat (length colors))))) = Some c /\
    In c colors.
Proof.
  intros H0 H1 Hrep. apply pick_index.
  change (inject_Z (Z.of_nat (length colors))) with 5%Q.
  pose proof (representable_below_one q Hrep H1) as Hq.
  change (Double.pow2 (-53)) with (1 # 9007199254740992)%Q in Hq.
  assert (Hlo : (0 <= Double.mul q 5)%Q) by (apply mul_nonneg; lra).
  assert (Hhi : (Double.mul q 5 < 5)%Q).
  { apply (rnd_lt _ _ (inject_Z 5629499534213119 * Double.pow2 (-50))%Q).
    - apply representable_scaled; lia.
    - reflexivity.
    - change (inject_Z 5629499534213119 * Double.pow2 (-50))%Q
        with ((5629499534213119 # 1) * (1 # 1125899906842624))%Q. lra. }
  split.
  - change 0%Z with (Qfloor 0). by apply Qfloor_resp_le.
  - rewrite Zlt_Qlt. eapply Qle_lt_trans; [apply Qfloor_le|]. done.
Qed.

Lemma representable_N (n : N) : (n < 2 ^ 32)%N -> Double.representable (QofN n).
Proof. intros Hn. apply representable_Z. lia. Qed.

(** A product or a sum of a number in [[0, 1]] scaled into [[lo, hi]], the
    ends being binary64 values. *)
Lemma mul_between (x y lo hi : Q) :
  Double.representable lo -> Double.representable hi ->
  (lo <= x * y)%Q -> (x * y <= hi)%Q ->
  (lo <= Double.mul x y)%Q /\ (Double.mul x y <= hi)%Q.
Proof. intros Hlo Hhi H1 H2. split; [by apply rnd_ge | by apply rnd_le]. Qed.

Lemma add_between (x y lo hi : Q) :
  Double.representable lo -> Double.representable hi ->
  (lo <= x + y)%Q -> (x + y <= hi)%Q ->
  (lo <= Double.add x y)%Q /\ (Double.add x y <= hi)%Q.
Proof. intros Hlo Hhi H1 H2. split; [by apply rnd_ge | by apply rnd_le]. Qed.

Lemma sub_between (x y lo hi : Q) :
  Double.representable lo -> Double.representable hi ->
  (lo <= x - y)%Q -> (x - y <= hi)%Q ->
  (lo <= Double.sub x y)%Q /\ (Double.sub x y <= hi)%Q.
Proof. intros Hlo Hhi H1 H2. split; [by apply rnd_ge | by apply rnd_le]. Qed.

Ltac rep_int n := apply (representable_Z n); lia.

Lemma piece_of_ranges (e : Env) (W H : N) (k : nat) :
  random_ok e -> random_double e -> (W < 2 ^ 32)%N -> (H < 2 ^ 32)%N ->
  in_ranges W H (piece_of e W H k) /\ in_palette (piece_of e W H k).
Proof.
  intros Hr Hd HWs HHs. split.
  - unfold in_ranges, piece_of. cbn [p_x p_y p_vx p_vy p_s p_r p_vr].
    pose proof (QofN_nonneg W) as HW. pose proof (QofN_nonneg H) as HH.
    pose proof (representable_N W HWs) as HWr. pose proof (representable_N H HHs) as HHr.
    destruct (Hr k) as [? ?], (Hr (1 + k)) as [? ?], (Hr (2 + k)) as [? ?],
      (Hr (3 + k)) as [? ?], (Hr (4 + k)) as [? ?], (Hr (6 + k)) as [? ?],
      (Hr (7 + k)) as [? ?].
    assert (Hx : (0 <= Double.mul (random e k) (QofN W) /\
                  Double.mul (random e k) (QofN W) <= QofN W)%Q).
    { apply mul_between; [apply representable_0|done|..]; nra. }
    assert (Ha : (0 <= Double.mul (random e (1 + k)) (QofN H) /\
                  Double.mul (random e (1 + k)) (QofN H) <= QofN H)%Q).
    { apply mul_between; [apply representable_0|done|..]; nra. }
    assert (Hvx : (- (1 # 2) <= Double.sub (random e (2 + k)) (5 # 10) /\
                   Double.sub (random e (2 + k)) (5 # 10) <= 1 # 2)%Q).
    { apply sub_between; [apply (representable_scaled (-1) (-1)); lia
                         |apply (representable_scaled 1 (-1)); lia|..]; lra. }
    assert (Hvr : (- (1 # 2) <= Double.sub (random e (7 + k)) (5 # 10) /\
                   Double.sub (random e (7 + k)) (5 # 10) <= 1 # 2)%Q).
    { apply sub_between; [apply (representable_scaled (-1) (-1)); lia
                         |apply (representable_scaled 1 (-1)); lia|..]; lra. }
    assert (Hvy : (0 <= Double.mul (random e (3 + k)) 6 /\
                   Double.mul (random e (3 + k)) 6 <= 6)%Q).
    { apply mul_between; [apply representable_0|rep_int 6%Z|..]; lra. }
    assert (Hs : (0 <= Double.mul (random e (4 + k)) 8 /\
                  Double.mul (random e (4 + k)) 8 <= 8)%Q).
    { apply mul_between; [apply representable_0|rep_int 8%Z|..]; lra. }
    assert (Hy : (- ((20 + QofN H * (2 # 10)) * (1 + (1 # 1125899906842624))) <=
                  Double.sub (- (20))
                    (Double.mul (Double.mul (random e (1 + k)) (QofN H)) (Double.rnd (2 # 10))) /\
                  Double.sub (- (20))
                    (Double.mul (Double.mul (random e (1 + k)) (QofN H)) (Double.rnd (2 # 10)))
                  <= - (20))%Q).
    { revert Ha. generalize (Double.mul (random e (1 + k)) (QofN H)). intros a [Ha0 Ha1].
      assert (Ec : Double.rnd (2 # 10) = (3602879701896397 # 18014398509481984)%Q)
        by (vm_compute; reflexivity).
      rewrite Ec.
      assert (Hb0 : (0 <= Double.mul a (3602879701896397 # 18014398509481984))%Q)
        by (apply mul_nonneg; lra).
      destruct (rnd_close (a * (3602879701896397 # 18014398509481984))
                  (QofN H * (3602879701896397 # 18014398509481984))) as [_ Hb1].
      { apply Qabs_Qle_condition. split; nra. }
      fold (Double.mul a (3602879701896397 # 18014398509481984)) in Hb1.
      revert Hb0 Hb1. generalize (Double.mul a (3602879701896397 # 18014398509481984)).
      intros b Hb0 Hb1.
      destruct (rnd_close (- (20) - b) (20 + b)) as [Hy0 _].
      { apply Qabs_Qle_condition. split; lra. }
      fold (Double.sub (- (20)) b) in Hy0. split.
      - eapply Qle_trans; [|exact Hy0]. lra.
      - apply rnd_le; [rep_int (-20)%Z|lra]. }
    destruct Hx, Hy.
    split; [done|]. split; [done|]. split; [done|]. split; [done|].
    destruct Hvx as [? ?], Hvr as [? ?].
    destruct (mul_between (Double.sub (random e (2 + k)) (5 # 10)) 6 (- (3)) 3) as [V1 V2];
      [rep_int (-3)%Z|rep_int 3%Z|lra|lra|].
    destruct (mul_between (Double.sub (random e (7 + k)) (5 # 10)) 8 (- (4)) 4) as [V3 V4];
      [rep_int (-4)%Z|rep_int 4%Z|lra|lra|].
    destruct Hvy as [? ?], Hs as [? ?].
    destruct (add_between 2 (Double.mul (random e (3 + k)) 6) 2 8) as [? ?];
      [rep_int 2%Z|rep_int 8%Z|lra|lra|].
    destruct (add_between 6 (Double.mul (random e (4 + k)) 8) 6 14) as [? ?];
      [rep_int 6%Z|rep_int 14%Z|lra|lra|].
    destruct (mul_between (random e (6 + k)) 360 0 360) as [? ?];
      [apply representable_0|rep_int 360%Z|lra|lra|].
    repeat split; first [done | lra].
  - unfold in_palette, piece_of. cbn [p_c].
    destruct (Hr (5 + k)) as [? ?]. by apply pick_in_palette.
Qed.

Lemma batch_ranges (e : Env) (W H : N) (n : nat) :
  random_ok e -> random_double e -> (W < 2 ^ 32)%N -> (H < 2 ^ 32)%N ->
  forall k p, In p (batch e W H k n) -> in_ranges W H p /\ in_palette p.
Proof.
  intros Hr Hd HW HH. induction n as [|n IH]; intros k p; cbn [batch]; [intros []|].
  intros [<-|Hin]; [by apply piece_of_ranges | by eapply IH].
Qed.

(** X13.  Every particle [launchConfetti] creates starts inside the ranges
    of its object literal, as binary64 arithmetic keeps them: [x] across the
    canvas width, [y] at most [-20] and not below [-20 - 0.2 H] by more than
    a relative [2^-50], a downward speed from 2 to 8, a drift within 3
    either way, a size from 6 to 14, a spin within 4 either way, and a
    colour that is one of the five of the palette, never [undefined]. *)
Theorem particles_start_in_range (u : UI) :
  ctx (env u) = true -> random_ok (env u) -> random_double (env u) ->
  canvas_size_ok (env u) ->
  forall p, In p (particles_created u) ->
    in_ranges (canvasW (env u)) (canvasH (env u)) p /\ in_palette p.
Proof.
  intros Hctx Hr Hd [HW HH] p. unfold particles_created. rewrite new_runs_launch by done.
  cbn [map concat run_pieces]. rewrite app_nil_r. by apply batch_ranges.
Qed.

Lemma particles_start_in_range_witness :
  List.Forall (fun p => in_ranges 800 600 p /\ in_palette p)
              (particles_created (Examples.session true)).
Proof.
  apply List.Forall_forall.
  apply (particles_start_in_range (Examples.session true)).
  - reflexivity.
  - intros k. split; unfold Qle, Qlt; simpl; lia.
  - intros k. apply (representable_scaled 1 (-1)); lia.
  - split; reflexivity.
Defined.

(** X14.  A batch never has more than 120 particles nor more than one per
    8 pixels of canvas width; on a canvas narrower than 8 pixels no particle
    is created, yet the run is still started. *)
Theorem particle_count_bounds (u : UI) :
  ctx (env u) = true ->
  length (particles_created u) <= 120 /\
  (8 * N.of_nat (length (particles_created u)) <= canvasW (env u))%N /\
  ((canvasW (env u) < 8)%N ->
   particles_created u = [] /\
   new_runs u (exec launchConfetti u) = [mkRun (canvasW (env u)) (canvasH (env u)) [] 0]).
Proof.
  intros Hctx. unfold particles_created. rewrite new_runs_launch by done.
  cbn [map concat run_pieces]. rewrite app_nil_r, batch_length.
  unfold particle_count.
  pose proof (N.Div0.mul_div_le (canvasW (env u)) 8) as Hdiv.
  split; [lia|]. split; [lia|].
  intros Hsmall. rewrite (N.div_small _ _ Hsmall). cbn. done.
Qed.

Lemma particle_count_bounds_witness :
  particles_created (set_env (mkEnv true true 7 600 (Dom.mkRect 0 300 0 300) (fun _ => 1 # 2))
                             (Examples.session true)) = [].
Proof.
  apply (proj2 (proj2 (particle_count_bounds
           (set_env (mkEnv true true 7 600 (Dom.mkRect 0 300 0 300) (fun _ => 1 # 2))
                    (Examples.session true)) eq_refl))).
  reflexivity.
Defined.

Lemma advance_n_constant (k : nat) (p : Piece) :
  p_vx (advance_n k p) = p_vx p /\ p_vy (advance_n k p) = p_vy p /\
  p_vr (advance_n k p) = p_vr p /\ p_s (advance_n k p) = p_s p /\
  p_c (advance_n k p) = p_c p.
Proof.
  induction k as [|k (Hvx & Hvy & Hvr & Hs & Hc)]; [done|].
  rewrite advance_n_S. unfold advance at 1 2 3 4 5.
  cbn [p_vx p_vy p_vr p_s p_c]. done.
Qed.

(** A particle that starts at a binary64 height with a downward speed
    between 2 and 8 is lower after every tick, and [k] ticks take it down by
    [8 k] at most. *)
Lemma advance_n_falls (p : Piece) (k : nat) :
  Double.representable (p_y p) ->
  (- (8589934592) <= p_y p)%Q -> (p_y p <= - (20))%Q ->
  (2 <= p_vy p)%Q -> (p_vy p <= 8)%Q -> k <= 220 ->
  Double.representable (p_y (advance_n k p)) /\
  (- (8589934592) <= p_y (advance_n k p))%Q /\
  (p_y (advance_n k p) <= - (20) + inject_Z (8 * Z.of_nat k))%Q /\
  (p_y (advance_n k p) < p_y (advance_n (S k) p))%Q.
Proof.
  intros Hrep Hlo Hhi Hv2 Hv8 Hk.
  assert (Inv : Double.representable (p_y (advance_n k p)) /\
                (- (8589934592) <= p_y (advance_n k p))%Q /\
                (p_y (advance_n k p) <= - (20) + inject_Z (8 * Z.of_nat k))%Q).
  { induction k as [|k IH].
    - change (advance_n 0 p) with p. change (inject_Z (8 * Z.of_nat 0)) with 0%Q.
      split; [done|]. split; [done|]. lra.
    - destruct IH as (R & L & U); [lia|].
      rewrite advance_n_S. unfold advance at 1 2 3. cbn [p_y].
      destruct (advance_n_constant k p) as (_ & -> & _).
      split; [apply rnd_representable|]. split.
      + apply Qle_trans with (p_y (advance_n k p)); [done|]. apply rnd_ge; [done|lra].
      + assert (E : (- (20) + inject_Z (8 * Z.of_nat (S k)) ==
                     inject_Z (-20 + 8 * Z.of_nat (S k)))%Q).
        { rewrite (inject_Z_plus (-20)). reflexivity. }
        rewrite E. apply rnd_le; [apply representable_Z; lia|]. rewrite <- E.
        assert (E' : (inject_Z (8 * Z.of_nat (S k)) == inject_Z (8 * Z.of_nat k) + 8)%Q).
        { rewrite <- (inject_Z_plus _ 8). f_equiv. lia. }
        rewrite E'. lra. }
  destruct Inv as (R & L & U). split; [done|]. split; [done|]. split; [done|].
  rewrite advance_n_S. unfold advance at 1. cbn [p_y].
  destruct (advance_n_constant k p) as (_ & -> & _).
  set (y := p_y (advance_n k p)) in *.
  pose proof (Qfloor_le y) as F1. pose proof (Qlt_floor y) as F2.
  apply Qlt_le_trans with (inject_Z (Qfloor y + 1)); [done|].
  rewrite inject_Z_plus in F2. change (inject_Z 1) with 1%Q in F2.
  apply rnd_ge.
  - apply representable_Z.
    assert (H1 : (-8589934592 <= Qfloor y)%Z).
    { change (-8589934592)%Z with (Qfloor (- (8589934592))). by apply Qfloor_resp_le. }
    assert (H2 : (Qfloor y <= -20 + 8 * Z.of_nat k)%Z).
    { rewrite <- (Qfloor_Z (-20 + 8 * Z.of_nat k)). apply Qfloor_resp_le.
      rewrite (inject_Z_plus (-20)). exact U. }
    lia.
  - rewrite inject_Z_plus. change (inject_Z 1) with 1%Q. lra.
Qed.

(** X15.  While a run lasts a particle keeps the velocity, spin, size and
    colour it was created with, and it only falls: [k] ticks after the
    launch ([k < 220]) the pending run holds the created particles advanced
    [k] times, each with a greater [y] than a tick before and not further
    down than [y = -20 + 8 k].  (Each [+=] rounds, so a position after [k]
    ticks is not exactly the start plus [k] times the velocity.) *)
Theorem particles_keep_falling (u : UI) (k : nat) :
  idle_canvas u -> random_ok (env u) -> random_double (env u) ->
  canvas_size_ok (env u) -> k < 220 ->
  exists r,
    rafQueue (Nat.iter k (exec animation_tick) (exec launchConfetti u)) = [r] /\
    run_t r = k /\
    run_pieces r = map (advance_n k) (particles_created u) /\
    forall p, In p (particles_created u) ->
      p_vx (advance_n k p) = p_vx p /\ p_vy (advance_n k p) = p_vy p /\
      p_vr (advance_n k p) = p_vr p /\ p_s (advance_n k p) = p_s p /\
      p_c (advance_n k p) = p_c p /\
      (p_y (advance_n k p) <= - (20) + inject_Z (8 * Z.of_nat k))%Q /\
      (forall j, j <= k -> (p_y (advance_n j p) < p_y (advance_n (S j) p))%Q).
Proof.
  intros Hidle Hr Hd Hsz Hk. destruct (ticks_after_launch u k Hidle Hk) as (Hq & _ & _).
  eexists. split; [exact Hq|]. split; [done|]. split; [done|].
  intros p Hp.
  destruct (advance_n_constant k p) as (C1 & C2 & C3 & C4 & C5).
  do 5 (split; [done|]).
  destruct Hidle as (Hctx & _).
  assert (Hb : In p (batch (env u) (canvasW (env u)) (canvasH (env u)) (randomCalls u)
                       (N.to_nat (particle_count (canvasW (env u)))))).
  { revert Hp. unfold particles_created. rewrite new_runs_launch by done.
    cbn [map concat run_pieces]. by rewrite app_nil_r. }
  destruct (batch_ranges _ _ _ _ Hr Hd (proj1 Hsz) (proj2 Hsz) _ _ Hb)
    as ((_ & _ & Hy0 & Hy1 & _ & _ & Hv2 & Hv8 & _) & _).
  assert (Hrep : Double.representable (p_y p)).
  { revert Hb.
    generalize (randomCalls u) (N.to_nat (particle_count (canvasW (env u)))).
    intros i n. revert i. induction n as [|n IH]; intros i; cbn [batch]; [intros []|].
    intros [<-|Hin]; [|by eapply IH]. apply rnd_representable. }
  assert (Hlo : (- (8589934592) <= p_y p)%Q).
  { destruct Hsz as [_ HH].
    assert (QofN (canvasH (env u)) <= 4294967296)%Q.
    { unfold QofN. change 4294967296%Q with (inject_Z 4294967296). rewrite <- Zle_Qle. lia. }
    pose proof (QofN_nonneg (canvasH (env u))). lra. }
  split.
  - by apply (advance_n_falls p k); [..|lia].
  - intros j Hj. by apply (advance_n_falls p j); [..|lia].
Qed.

Lemma particles_keep_falling_witness :
  exists r,
    rafQueue (Nat.iter 3 (exec animation_tick) (exec launchConfetti (Examples.session true))) = [r] /\
    run_t r = 3 /\
    run_pieces r = map (advance_n 3) (particles_created (Examples.session true)) /\
    List.Forall
      (fun p =>
         p_vx (advance_n 3 p) = p_vx p /\ p_vy (advance_n 3 p) = p_vy p /\
         p_vr (advance_n 3 p) = p_vr p /\ p_s (advance_n 3 p) = p_s p /\
         p_c (advance_n 3 p) = p_c p /\
         (p_y (advance_n 3 p) <= - (20) + inject_Z (8 * Z.of_nat 3))%Q /\
         (forall j, j <= 3 -> (p_y (advance_n j p) < p_y (advance_n (S j) p))%Q))
      (particles_created (Examples.session true)).
Proof.
  destruct (particles_keep_falling (Examples.session true) 3) as (r & H1 & H2 & H3 & H4).
  - repeat split.
  - intros k. split; unfold Qle, Qlt; simpl; lia.
  - intros k. apply (representable_scaled 1 (-1)); lia.
  - split; reflexivity.
  - lia.
  - exists r. split; [exact H1|]. split; [exact H2|]. split; [exact H3|].
    apply List.Forall_forall. exact H4.
Defined.

(** X16.  A call of [frame] hands the drawing context back as it found it:
    whatever transformation, fill style and save stack were in force, they
    are in force again afterwards, and the call does not throw. *)
Theorem frame_restores_context (r : Run) (u : UI) :
  ended (frame r) u = Done tt /\
  Canvas.transform (ctx2d (exec (frame r) u)) = Canvas.transform (ctx2d u) /\
  Canvas.fillStyle (ctx2d (exec (frame r) u)) = Canvas.fillStyle (ctx2d u) /\
  Canvas.saved (ctx2d (exec (frame r) u)) = Canvas.saved (ctx2d u).
Proof.
  unfold ended, exec. destruct (frame r u) as [o u'] eqn:Hf. cbn [fst snd].
  unfold frame in Hf. unfold bind at 1, emit, modify in Hf. unfold bind at 1 in Hf.
  rewrite draw_eq in Hf. unfold bind at 1 in Hf.
  match type of Hf with context [frame_pieces ?ps ?v] =>
    destruct (frame_pieces_drew ps v) as (u2 & Hfp & (E2 & T2 & F2 & S2 & _));
    assert (Hv : Canvas.transform (ctx2d v) = Canvas.transform (ctx2d u) /\
                 Canvas.fillStyle (ctx2d v) = Canvas.fillStyle (ctx2d u) /\
                 Canvas.saved (ctx2d v) = Canvas.saved (ctx2d u))
  end.
  { destruct u as [e g so cs stx sx so' wl tm rq [tr fs sv pt] fo rc lg]. norm.
    cbn [Canvas.apply Canvas.transform]. by destruct (Canvas.covers _ _ _ _ _ _ _). }
  rewrite Hfp in Hf. rewrite <- T2, <- F2, <- S2 in Hv. clear E2 T2 F2 S2 Hfp.
  destruct Hv as (Hv1 & Hv2 & Hv3).
  destruct (S (run_t r) <? TICKS).
  - unfold requestAnimationFrame, bind, emit, modify in Hf. simplify_eq.
    by destruct u2.
  - rewrite draw_eq in Hf. simplify_eq.
    destruct u2 as [e g so cs stx sx so' wl tm rq [tr fs sv pt] fo rc lg]. norm.
    cbn [Canvas.apply Canvas.transform Canvas.fillStyle Canvas.saved] in *.
    by destruct (Canvas.covers _ _ _ _ _ _ _).
Qed.

End ConfettiMore.


Section ConfettiOverlap.

(** One tick over several runs that are equally far into their budget. *)
Lemma run_frames_same (t : nat) (rs : list Run) :
  forall u,
    ctx (env u) = true -> Canvas.transform (ctx2d u) = [] ->
    Forall (run_at u t) rs ->
    exists u' evs,
      run_frames rs u = (Done tt, u') /\
      env u' = env u /\ Canvas.transform (ctx2d u') = [] /\
      log u' = log u ++ evs /\
      count is_frame_call evs = length rs /\
      rafQueue u' = rafQueue u ++ (if S t <? TICKS then map next_run rs else []) /\
      (rs <> [] -> (S t <? TICKS) = false -> Canvas.painted (ctx2d u') = []).
Proof.
  induction rs as [|r rs IH]; intros u Hctx Htr Hall.
  - exists u, []. destruct (S t <? TICKS); cbn [map]; rewrite !app_nil_r;
      repeat split; try done; intros Hn; by destruct Hn.
  - apply Forall_cons in Hall as [(HW & HH & Ht) Hall].
    destruct (frame_step r u Hctx Htr HW HH) as
      (u1 & evs1 & Hf & He1 & Htr1 & Hl1 & Hc1 & Hrest).
    rewrite Ht in Hrest.
    destruct (IH u1) as (u2 & evs2 & Hrun & He2 & Htr2 & Hl2 & Hc2 & Hq2 & Hp2).
    { by rewrite He1. }
    { done. }
    { eapply Forall_impl; [exact Hall|]. intros r' (? & ? & ?). unfold run_at.
      by rewrite He1. }
    exists u2, ((Called Frame :: evs1) ++ evs2).
    cbn [run_frames]. rewrite (bind_done _ _ _ _ _ Hf).
    split; [done|]. split; [congruence|]. split; [done|].
    split. { by rewrite Hl2, Hl1, <- app_assoc. }
    split. { rewrite count_app, count_cons, Hc1, Hc2. done. }
    destruct (S t <? TICKS) eqn:Et.
    + destruct Hrest as [Hq1 _]. split; [|done].
      rewrite Hq2, Hq1, <- app_assoc. cbn [map app]. unfold next_run. by rewrite Ht.
    + destruct Hrest as (Hq1 & Hp1 & _). split.
      * rewrite Hq2, Hq1. done.
      * intros _ _. destruct rs as [|r2 rs]; [|by apply Hp2].
        cbn [run_frames] in Hrun. unfold ret in Hrun. by simplify_eq.
Qed.

(** Several runs, all [k+1] ticks before the end of their budget, finish
    together. *)
Lemma animate_runs (k : nat) :
  forall (fuel t : nat) (u : UI) (rs : list Run),
    rs <> [] -> rafQueue u = rs ->
    ctx (env u) = true -> Canvas.transform (ctx2d u) = [] ->
    Forall (run_at u t) rs ->
    t + S k = TICKS -> S k <= fuel ->
    exists u' evs,
      animate fuel u = (S k, u') /\
      rafQueue u' = [] /\
      Canvas.painted (ctx2d u') = [] /\
      log u' = log u ++ evs /\
      count is_frame_call evs = S k * length rs.
Proof.
  induction k as [|k IH]; intros fuel t u rs Hne Hq Hctx Htr Hall Hk Hfuel;
    (destruct fuel as [|fuel]; [lia|]); cbn [animate]; rewrite Hq;
    (destruct rs as [|r0 rs0] eqn:Ers; [done|]); rewrite <- Ers in *;
    unfold exec; rewrite animation_tick_eq, Hq;
    destruct (run_frames_same t rs (set_rafQueue [] u))
      as (u1 & evs & Hrun & He & Htr1 & Hl & Hc & Hq1 & Hp);
    try (by destruct u); rewrite Hrun; cbn [snd].
  - replace (S t <? TICKS) with false in *
      by (symmetry; apply Nat.ltb_ge; lia).
    assert (Hq1' : rafQueue u1 = []) by (rewrite Hq1; by destruct u).
    rewrite (animate_idle fuel u1 Hq1').
    exists u1, evs. split; [done|]. split; [done|]. split; [by apply Hp|].
    split; [rewrite Hl; by destruct u | lia].
  - replace (S t <? TICKS) with true in *
      by (symmetry; apply Nat.ltb_lt; lia).
    assert (Hq1' : rafQueue u1 = map next_run rs) by (rewrite Hq1; by destruct u).
    destruct (IH fuel (S t) u1 (map next_run rs)) as (u2 & evs2 & Ha & Hq2 & Hp2 & Hl2 & Hc2);
      try done; try lia.
    { rewrite Ers. done. }
    { by rewrite He. }
    { apply Forall_map. eapply Forall_impl; [exact Hall|].
      intros r' (HW & HH & Ht). unfold run_at, next_run. cbn.
      rewrite He. destruct u; norm. repeat split; try done. lia. }
    rewrite Ha. exists u2, (evs ++ evs2).
    split; [done|]. split; [done|]. split; [done|].
    split. { rewrite Hl2, Hl, <- app_assoc. by destruct u. }
    rewrite count_app, Hc, Hc2, length_map. lia.
Qed.

(** X17.  Two triggers in a row are not merged: the frame queue then holds
    two runs, each with its own batch; both take their 220 ticks side by
    side ([frame] is called 440 times), after which nothing is pending and
    the canvas is wiped. *)
Theorem overlapping_runs_both_finish (u : UI) (fuel : nat) :
  idle_canvas u -> 220 <= fuel ->
  length (rafQueue (exec launchConfetti (exec launchConfetti u))) = 2 /\
  exists u',
    animate fuel (exec launchConfetti (exec launchConfetti u)) = (220, u') /\
    count is_frame_call
      (new_events (exec launchConfetti (exec launchConfetti u)) u') = 440 /\
    rafQueue u' = [] /\
    Canvas.painted (ctx2d u') = [].
Proof.
  intros (Hctx & Hq & Htr) Hfuel.
  set (u1 := exec launchConfetti u).
  assert (H1 : ctx (env u1) = true /\ Canvas.transform (ctx2d u1) = [] /\
               env u1 = env u /\ exists r1, rafQueue u1 = [r1] /\ run_at u 0 r1).
  { subst u1. unfold exec. rewrite launchConfetti_eq, Hctx. cbn [snd].
    destruct u; norm. subst. repeat split; try done. eexists. split; [reflexivity|].
    by repeat split. }
  destruct H1 as (Hctx1 & Htr1 & He1 & r1 & Hq1 & Hr1).
  set (u2 := exec launchConfetti u1).
  assert (H2 : ctx (env u2) = true /\ Canvas.transform (ctx2d u2) = [] /\
               env u2 = env u /\ exists r2, rafQueue u2 = [r1; r2] /\ run_at u 0 r2).
  { subst u2. unfold exec. rewrite launchConfetti_eq, Hctx1. cbn [snd].
    destruct u1; norm. subst. repeat split; try done. eexists. split; [reflexivity|].
    by repeat split. }
  destruct H2 as (Hctx2 & Htr2 & He2 & r2 & Hq2 & Hr2).
  split; [by rewrite Hq2|].
  destruct (animate_runs 219 fuel 0 u2 [r1; r2]) as (u' & evs & Ha & Hq' & Hp & Hl & Hc);
    try done.
  { apply Forall_cons; split; [|apply Forall_cons; split; [|by apply Forall_nil]];
      unfold run_at in *; rewrite He2; tauto. }
  exists u'. rewrite (new_events_app _ _ _ Hl). done.
Qed.

Lemma overlapping_runs_both_finish_witness :
  length (rafQueue (exec launchConfetti (exec launchConfetti (Examples.session true)))) = 2.
Proof.
  apply (proj1 (overlapping_runs_both_finish (Examples.session true) 220
                  ltac:(repeat split) ltac:(lia))).
Defined.

(** X18.  [resizeCanvas] gives the canvas the window's size, wipes it and
    leaves pending runs alone; a run keeps the size captured at its launch,
    so once the window has grown in either direction the final [clearRect]
    of that run no longer spans the canvas: the last thing on the display
    list is a partial erasure, not a wipe. *)
Theorem resize_leaves_runs_stale (u : UI) (W' H' : N) (r : Run) :
  S (run_t r) = 220 -> (run_W r < W' \/ run_H r < H')%N ->
  canvasW (env (exec (resizeCanvas W' H') u)) = W' /\
  canvasH (env (exec (resizeCanvas W' H') u)) = H' /\
  Canvas.painted (ctx2d (exec (resizeCanvas W' H') u)) = [] /\
  rafQueue (exec (resizeCanvas W' H') u) = rafQueue u /\
  last (log (exec (frame r) (exec (resizeCanvas W' H') u))) = Some (full_clear r) /\
  last (Canvas.painted (ctx2d (exec (frame r) (exec (resizeCanvas W' H') u)))) =
    Some (Canvas.Erased [] 0 0 (QofN (run_W r)) (QofN (run_H r))).
Proof.
  intros Ht Hlt.
  set (v := exec (resizeCanvas W' H') u).
  assert (Hv : canvasW (env v) = W' /\ canvasH (env v) = H' /\
               Canvas.painted (ctx2d v) = [] /\ rafQueue v = rafQueue u /\
               Canvas.transform (ctx2d v) = []).
  { subst v. by destruct u. }
  destruct Hv as (HW & HH & Hp & Hq & Htr).
  do 4 (split; [done|]). clearbody v. clear Hq.
  unfold exec. destruct (frame r v) as [o w] eqn:Hf. cbn [snd].
  unfold frame in Hf. unfold bind at 1, emit, modify in Hf. unfold bind at 1 in Hf.
  rewrite draw_eq in Hf. unfold bind at 1 in Hf.
  match type of Hf with context [frame_pieces ?ps ?v0] =>
    destruct (frame_pieces_drew ps v0) as (u2 & Hfp & (E2 & T2 & F2 & S2 & _));
    assert (Hv0 : Canvas.transform (ctx2d v0) = [] /\ env v0 = env v)
  end.
  { destruct v as [e g so cs stx sx so' wl tm rq [tr fs sv pt] fo rc lg]. norm.
    cbn [Canvas.transform Canvas.painted] in *. subst.
    cbn [Canvas.apply Canvas.transform]. by destruct (Canvas.covers _ _ _ _ _ _ _). }
  destruct Hv0 as [Htr0 He0].
  rewrite Hfp in Hf. rewrite Htr0 in T2.
  assert (He2 : env u2 = env v).
  { rewrite E2. rewrite <- He0. by destruct u2. }
  replace (S (run_t r) <? TICKS) with false in Hf
    by (symmetry; apply Nat.ltb_ge; unfold TICKS; lia).
  rewrite draw_eq in Hf. injection Hf as _ <-.
  split.
  - destruct u2; norm. by rewrite last_snoc.
  - destruct u2 as [e g so cs stx sx so' wl tm rq [tr fs sv pt] fo rc lg]. norm.
    cbn [Canvas.transform] in T2. subst tr e. cbn [Canvas.apply Canvas.transform].
    rewrite HW, HH, (covers_stale _ _ _ _ Hlt). cbn [Canvas.painted].
    by rewrite last_snoc.
Qed.

Lemma resize_leaves_runs_stale_witness :
  last (Canvas.painted (ctx2d
     (exec (frame (mkRun 800 600 [] 219)) (exec (resizeCanvas 1024 600) (Examples.session true))))) =
  Some (Canvas.Erased [] 0 0 (QofN 800) (QofN 600)).
Proof.
  apply (proj2 (proj2 (proj2 (proj2 (proj2
           (resize_leaves_runs_stale (Examples.session true) 1024 600 (mkRun 800 600 [] 219)
              eq_refl ltac:(left; reflexivity))))))).
Defined.

End ConfettiOverlap.


(** ** Win-line animator and keyboard *)

Section AnimatorKeys.

(** X19.  The life of the win line: [animateWinLine(a, c)] shows a line of
    length zero at the centre of cell [a] and sets two timers, at 20 ms and
    1800 ms; the first callback stretches the line to the centre of cell [c],
    the second fades it out without moving it.  The centres are the points
    half-way between the sides of the cells, relative to the board's corner,
    as binary64 arithmetic gives them: within [2^-50] of the size of the
    coordinates (up to [2^1022]), and exact on a layout grid.  When one of
    the two cells does not exist the call throws before it touches the line
    or sets a timer. *)
Theorem win_line_lifecycle (u : UI) (a c : nat) :
  (forall ca cc,
     cells u !! a = Some ca -> cells u !! c = Some cc ->
     exists ax ay cx cy,
       new_timers u (exec (animateWinLine a c) u) =
         [(20%Q, DrawWinLine cx cy); (1800%Q, FadeWinLine)] /\
       winLineSvg (exec (animateWinLine a c) u) =
         mkWinLine (Some ax) (Some ay) (Some ax) (Some ay) (Some 1%Q)
                   (Some "opacity .25s linear") (strokeDashoffset (winLineSvg u)) /\
       winLineSvg (exec (run_callback (DrawWinLine cx cy)) (exec (animateWinLine a c) u)) =
         mkWinLine (Some ax) (Some ay) (Some cx) (Some cy) (Some 1%Q)
                   (Some "stroke-dashoffset 700ms cubic-bezier(.2,.9,.2,1), x2 700ms")
                   (Some 0%Q) /\
       winLineSvg (exec (run_callback FadeWinLine)
                     (exec (run_callback (DrawWinLine cx cy)) (exec (animateWinLine a c) u))) =
         mkWinLine (Some ax) (Some ay) (Some cx) (Some cy) (Some 0%Q)
                   (Some "opacity 600ms") (Some 0%Q) /\
       (forall M : Q,
          (1 <= M)%Q -> (M <= Double.pow2 1022)%Q -> within M (boardRect (env u)) ->
          within M (Dom.rect ca) -> within M (Dom.rect cc) ->
          near M (ax, ay) (centre_in (boardRect (env u)) (Dom.rect ca)) /\
          near M (cx, cy) (centre_in (boardRect (env u)) (Dom.rect cc))) /\
       (forall j : Z,
          (0 <= j <= 1000)%Z -> rect_on_grid j (boardRect (env u)) ->
          rect_on_grid j (Dom.rect ca) -> rect_on_grid j (Dom.rect cc) ->
          same_point (ax, ay) (centre_in (boardRect (env u)) (Dom.rect ca)) /\
          same_point (cx, cy) (centre_in (boardRect (env u)) (Dom.rect cc)))) /\
  (cells u !! a = None \/ cells u !! c = None ->
     (exists e, ended (animateWinLine a c) u = Thrown e) /\
     winLineSvg (exec (animateWinLine a c) u) = winLineSvg u /\
     timers (exec (animateWinLine a c) u) = timers u).
Proof.
  split.
  - intros ca cc Ea Ec. eexists _, _, _, _.
    unfold exec. rewrite (animateWinLine_eq a c u ca cc Ea Ec). cbn [snd].
    split.
    { unfold new_timers. cbn [timers set_timers]. rewrite <- app_assoc, drop_app_length.
      reflexivity. }
    split. { cbn [winLineSvg set_timers set_winLineSvg]. reflexivity. }
    split. { unfold run_callback, modify. cbn [snd winLineSvg set_timers set_winLineSvg x1 y1].
             reflexivity. }
    split. { unfold run_callback, modify.
             cbn [snd winLineSvg set_timers set_winLineSvg x1 y1 x2 y2 strokeDashoffset].
             reflexivity. }
    split.
    + intros M HM _ HB Ha Hc. split; by apply centre_near.
    + intros j Hj HB Ha Hc. split; by apply (centre_exact j).
  - intros Hmiss. unfold ended, exec, animateWinLine, bind, emit, modify, get.
    destruct u; norm.
    destruct (cells0 !! a) as [ca|]; [|split; [by eexists|done]].
    destruct (cells0 !! c) as [cc|]; [|split; [by eexists|done]].
    by destruct Hmiss.
Qed.

Lemma win_line_lifecycle_witness :
  exists ax ay cx cy,
    winLineSvg (exec (run_callback FadeWinLine)
                  (exec (run_callback (DrawWinLine cx cy))
                     (exec (animateWinLine 0 2) (Examples.session true)))) =
    mkWinLine (Some ax) (Some ay) (Some cx) (Some cy) (Some 0%Q)
              (Some "opacity 600ms") (Some 0%Q) /\
    (ax == 50 /\ ay == 50 /\ cx == 250 /\ cy == 50)%Q.
Proof.
  destruct (proj1 (win_line_lifecycle (Examples.session true) 0 2) _ _ eq_refl eq_refl)
    as (ax & ay & cx & cy & _ & _ & _ & Hw & _ & Hex).
  exists ax, ay, cx, cy. split; [exact Hw|].
  assert (G : forall n : Z, (Z.abs n <= 2 ^ 51)%Z -> on_grid 0 (inject_Z n)).
  { intros n Hn. exists n. split; [exact Hn|]. change (Double.pow2 (- 0)) with 1%Q.
    symmetry. apply Qmult_1_r. }
  destruct (Hex 0%Z) as [[E1 E2] [E3 E4]].
  - lia.
  - repeat split; apply (G _); vm_compute; discriminate.
  - repeat split; apply (G _); vm_compute; discriminate.
  - repeat split; apply (G _); vm_compute; discriminate.
  - cbn [fst snd] in E1, E2, E3, E4.
    split; [rewrite E1; reflexivity|]. split; [rewrite E2; reflexivity|].
    split; [rewrite E3; reflexivity | rewrite E4; reflexivity].
Defined.

Lemma keydown_plain (u : UI) (idx : nat) (key : string) (c : Dom.Cell) :
  cells u !! idx = Some c ->
  String.eqb key "ArrowRight" = false -> String.eqb key "ArrowLeft" = false ->
  String.eqb key "ArrowDown" = false -> String.eqb key "ArrowUp" = false ->
  keydown idx key u =
  (if String.eqb key "Enter" || String.eqb key " "
   then bind (emit PreventDefault) (fun _ => click idx) else ret tt) u.
Proof.
  intros Hc H1 H2 H3 H4. unfold keydown. unfold bind at 1, get. rewrite Hc, H1, H2, H3, H4.
  unfold bind at 1.
  destruct ((if String.eqb key "Enter" || String.eqb key " "
             then bind (emit PreventDefault) (fun _ => click idx) else ret tt) u)
    as [[[]|e] v]; reflexivity.
Qed.

(** X20.  On an existing cell, [Enter] and the space bar do what a click
    does, after [preventDefault]; a key that is neither of these nor an
    arrow leaves the session exactly as it was. *)
Theorem activation_keys_click (u : UI) (idx : nat) (key : string) (c : Dom.Cell) :
  cells u !! idx = Some c ->
  (key = "Enter" \/ key = " " ->
     exec (keydown idx key) u = exec (click idx) (set_log (log u ++ [PreventDefault]) u)) /\
  (~ In key ["Enter"; " "; "ArrowRight"; "ArrowLeft"; "ArrowDown"; "ArrowUp"] ->
     exec (keydown idx key) u = u /\ ended (keydown idx key) u = Done tt).
Proof.
  intros Hc. split.
  - intros Hkey. unfold exec.
    destruct Hkey as [-> | ->]; rewrite (keydown_plain u idx _ c Hc) by reflexivity;
      reflexivity.
  - intros Hnot. cbn [In] in Hnot.
    assert (He : forall k, In k ["Enter"; " "; "ArrowRight"; "ArrowLeft"; "ArrowDown"; "ArrowUp"] ->
                           String.eqb key k = false).
    { intros k Hk. apply String.eqb_neq. intros ->. cbn [In] in Hk. tauto. }
    unfold exec, ended.
    rewrite (keydown_plain u idx key c Hc) by (apply He; cbn; tauto).
    rewrite !He by (cbn; tauto). done.
Qed.

Lemma activation_keys_click_witness :
  exec (keydown 4 "Tab") (Examples.session true) = Examples.session true.
Proof.
  apply (proj2 (activation_keys_click (Examples.session true) 4 "Tab" _ eq_refl)).
  cbn [In]. intros [H|[H|[H|[H|[H|[H|[]]]]]]]; discriminate H.
Defined.

(** X21.  On the nine-cell board the arrow keys walk a torus: from a
    focused cell [i], one step keeps the focus on the board, [ArrowRight]
    and [ArrowLeft] stay in the row of [i], [ArrowDown] and [ArrowUp] in its
    column; opposite keys undo each other, and three presses of one key lead
    back to [i]. *)
Theorem arrow_keys_walk_a_torus (u : UI) (i : nat) :
  length (cells u) = 9 -> focused u = Some i -> i < 9 ->
  (forall key, In key ["ArrowRight"; "ArrowLeft"; "ArrowDown"; "ArrowUp"] ->
     exists j, focused (exec (press key) u) = Some j /\ j < 9 /\ j <> i /\
               focused (exec (press key) (exec (press key) (exec (press key) u))) = Some i) /\
  (forall key, In key ["ArrowRight"; "ArrowLeft"] ->
     exists j, focused (exec (press key) u) = Some j /\ j / 3 = i / 3) /\
  (forall key, In key ["ArrowDown"; "ArrowUp"] ->
     exists j, focused (exec (press key) u) = Some j /\ j mod 3 = i mod 3) /\
  focused (exec (press "ArrowLeft") (exec (press "ArrowRight") u)) = Some i /\
  focused (exec (press "ArrowRight") (exec (press "ArrowLeft") u)) = Some i /\
  focused (exec (press "ArrowUp") (exec (press "ArrowDown") u)) = Some i /\
  focused (exec (press "ArrowDown") (exec (press "ArrowUp") u)) = Some i.
Proof.
  intros Hlen Hf Hi.
  destruct u as [e g so cs stx sx so' wl tm rq c2 fo rc lg]. cbn in Hlen, Hf. subst fo.
  do 10 (destruct cs as [|? cs]; try discriminate Hlen).
  do 9 (destruct i as [|i];
    [ split; [intros key [<-|[<-|[<-|[<-|[]]]]]; eexists; (split; [reflexivity|]);
              (split; [vm_compute; lia|]); (split; [vm_compute; lia|]); reflexivity|];
      split; [intros key [<-|[<-|[]]]; eexists; (split; [reflexivity|]); reflexivity|];
      split; [intros key [<-|[<-|[]]]; eexists; (split; [reflexivity|]); reflexivity|];
      repeat split; reflexivity |]).
  lia.
Qed.

Lemma arrow_keys_walk_a_torus_witness :
  focused (exec (press "ArrowLeft")
             (exec (press "ArrowRight") (set_focused (Some 2) (Examples.session true)))) =
  Some 2.
Proof.
  apply (proj1 (proj2 (proj2 (proj2
           (arrow_keys_walk_a_torus (set_focused (Some 2) (Examples.session true)) 2
              eq_refl eq_refl ltac:(lia)))))).
Defined.

End AnimatorKeys.


(** ** Game creation, reset and the sound button *)

Section PageGlue.

Lemma pbind_done {A B : Type} (m : P A) (k : A -> P B) (p p1 : Page) (a : A) :
  m p = (PDone a, p1) -> pbind m k p = k a p1.
Proof. intros H. unfold pbind. by rewrite H. Qed.

Lemma lift_run {A : Type} (m : M A) (p : Page) (o : outcome A) (u' : UI) (evs : list event) :
  m (ui p) = (o, u') -> log u' = log (ui p) ++ evs ->
  lift m p =
  (match o with Done a => PDone a | Thrown e => PThrown (Session e) end,
   set_plog (plog p ++ map Base evs) (set_ui u' p)).
Proof.
  intros Hm Hl. unfold lift. rewrite Hm, Hl, drop_app_length. by destruct o.
Qed.

Lemma new_pevents_app (p p' : Page) (l : list pevent) :
  plog p' = plog p ++ l -> new_pevents p p' = l.
Proof. intros H. unfold new_pevents. by rewrite H, drop_app_length. Qed.

Lemma requestAiMove_eq (u : UI) :
  requestAiMove u =
  (Done tt, set_log (log u ++ Called RequestAiMove :: ai_fetch u) u).
Proof.
  unfold requestAiMove, ai_fetch, bind, emit, modify, get. destruct u; norm.
  destruct gameId0 as [g|]; [destruct (truthy (Some g))|]; unfold ret; norm;
    rewrite <- ?app_assoc; reflexivity.
Qed.

Lemma lift_beep (f : Z) (d v : Q) (p : Page) :
  exists u',
    lift (beep f d v) p =
      (PDone tt,
       set_plog (plog p ++ map Base (if audioCtx (env (ui p)) && soundOn (ui p)
                                     then [Beep f d v] else []))
                (set_ui u' p)) /\
    env u' = env (ui p) /\ gameId u' = gameId (ui p) /\ cells u' = cells (ui p) /\
    statusText u' = statusText (ui p) /\ scoreX u' = scoreX (ui p) /\
    scoreO u' = scoreO (ui p) /\ soundOn u' = soundOn (ui p).
Proof.
  pose proof (beep_eq f d v (ui p)) as Hb.
  destruct (audioCtx (env (ui p)) && soundOn (ui p)).
  - eexists. split; [apply (lift_run _ _ _ _ [Beep f d v] Hb); by destruct (ui p)|].
    by destruct (ui p).
  - eexists. split; [apply (lift_run _ _ _ _ [] Hb); by rewrite app_nil_r|]. done.
Qed.

Lemma lift_requestAiMove (p : Page) :
  lift requestAiMove p =
    (PDone tt,
     set_plog (plog p ++ map Base (Called RequestAiMove :: ai_fetch (ui p)))
       (set_ui (set_log (log (ui p) ++ Called RequestAiMove :: ai_fetch (ui p)) (ui p)) p)).
Proof. apply (lift_run _ _ _ _ _ (requestAiMove_eq _)). by destruct (ui p). Qed.

(** What follows [updateFromState] in [createNewGame] and [resetBoard]:
    the optional start tone and the AI request for a selected ["O"]. *)
Lemma after_state (tone : bool) (p : Page) :
  exists p',
    ((if tone then lift (beep 660 (6 # 100) (8 # 100)) else pret tt);;
     q <- pget;;
     if String.eqb (startPlayerValue q) "O" then lift requestAiMove else pret tt)%page p
    = (PDone tt, p') /\
    gameId (ui p') = gameId (ui p) /\ cells (ui p') = cells (ui p) /\
    statusText (ui p') = statusText (ui p) /\
    scoreX (ui p') = scoreX (ui p) /\ scoreO (ui p') = scoreO (ui p) /\
    plog p' = plog p ++
      map Base ((if tone && (audioCtx (env (ui p)) && soundOn (ui p))
                 then [Beep 660 (6 # 100) (8 # 100)] else []) ++
                (if String.eqb (startPlayerValue p) "O"
                 then Called RequestAiMove :: ai_fetch (ui p) else [])).
Proof.
  assert (Hstep : exists p1 tone_evs,
            (if tone then lift (beep 660 (6 # 100) (8 # 100)) else pret tt) p = (PDone tt, p1) /\
            tone_evs = (if tone && (audioCtx (env (ui p)) && soundOn (ui p))
                        then [Beep 660 (6 # 100) (8 # 100)] else []) /\
            plog p1 = plog p ++ map Base tone_evs /\
            startPlayerValue p1 = startPlayerValue p /\
            gameId (ui p1) = gameId (ui p) /\ cells (ui p1) = cells (ui p) /\
            statusText (ui p1) = statusText (ui p) /\
            scoreX (ui p1) = scoreX (ui p) /\ scoreO (ui p1) = scoreO (ui p)).
  { destruct tone; cbn [andb].
    - destruct (lift_beep 660 (6 # 100) (8 # 100) p) as (u' & Hl & He & Hg & Hc & Hs & Hx & Ho & _).
      eexists _, _. split; [exact Hl|]. split; [reflexivity|]. by destruct p.
    - exists p, []. unfold pret. cbn [map]. rewrite app_nil_r. done. }
  destruct Hstep as (p1 & tone_evs & Hrun & -> & Hl1 & Hsp & Hg & Hc & Hs & Hx & Ho).
  rewrite (pbind_done _ _ _ _ _ Hrun). unfold pbind, pget. rewrite Hsp.
  destruct (String.eqb (startPlayerValue p) "O").
  - rewrite lift_requestAiMove. eexists. split; [reflexivity|].
    cbn [ui set_ui set_plog plog]. rewrite Hl1.
    assert (Hai : ai_fetch (ui p1) = ai_fetch (ui p)) by (unfold ai_fetch; by rewrite Hg).
    rewrite Hai, map_app, <- app_assoc.
    destruct (ui p1); norm. done.
  - unfold pret. eexists. split; [reflexivity|]. rewrite Hl1, app_nil_r. done.
Qed.

Lemma pbind_thrown {A B : Type} (m : P A) (k : A -> P B) (p p1 : Page) (e : pexn) :
  m p = (PThrown e, p1) -> pbind m k p = (PThrown e, p1).
Proof. intros H. unfold pbind. by rewrite H. Qed.

Lemma lift_missing_state (p : Page) :
  lift (updateFromState_of None) p = (PThrown (Session (TypeError "state is undefined")), p).
Proof.
  cbn [updateFromState_of].
  rewrite (lift_run (throw (TypeError "state is undefined")) p
             (Thrown (TypeError "state is undefined")) (ui p) [] eq_refl)
    by (by rewrite app_nil_r).
  cbn [map]. rewrite app_nil_r. by destruct p.
Qed.

Lemma pemit_then {B : Type} (e : pevent) (k : unit -> P B) (p : Page) :
  pbind (pemit e) k p = k tt (set_plog (plog p ++ [e]) p).
Proof. reflexivity. Qed.

Lemma lift_set_gameId (g : jsval) (p : Page) :
  lift (modify (set_gameId g)) p = (PDone tt, set_ui (set_gameId g (ui p)) p).
Proof.
  rewrite (lift_run _ p (Done tt) (set_gameId g (ui p)) [] eq_refl)
    by (rewrite app_nil_r; by destruct (ui p)).
  cbn [map]. rewrite app_nil_r. by destruct p.
Qed.

Lemma lift_setStatus (s : string) (p : Page) :
  lift (setStatus s) p = (PDone tt, set_ui (set_statusText s (ui p)) p).
Proof.
  rewrite (lift_run _ p (Done tt) (set_statusText s (ui p)) [] eq_refl)
    by (rewrite app_nil_r; by destruct (ui p)).
  cbn [map]. rewrite app_nil_r. by destruct p.
Qed.

(** [updateFromState] followed by the tail of [createNewGame] or
    [resetBoard], on a state that fits. *)
Lemma state_then_tail (tone : bool) (st : GameState) (p : Page) :
  fits st (ui p) ->
  exists p',
    (lift (updateFromState_of (Some st));;
     (if tone then lift (beep 660 (6 # 100) (8 # 100)) else pret tt);;
     q <- pget;;
     if String.eqb (startPlayerValue q) "O" then lift requestAiMove else pret tt)%page p
    = (PDone tt, p') /\
    gameId (ui p') = gameId (ui p) /\
    cells (ui p') = render_cells 0 (board st) (cells (ui p)) /\
    statusText (ui p') = status_of st /\
    scoreX (ui p') = (if is_win st && strict_eq (winner st) (Some "X")
                      then bump (scoreX (ui p)) else scoreX (ui p)) /\
    scoreO (ui p') = (if is_win st && strict_eq (winner st) (Some "O")
                      then bump (scoreO (ui p)) else scoreO (ui p)) /\
    plog p' = plog p ++
      map Base (new_events (ui p) (exec (updateFromState st) (ui p)) ++
                (if tone && (audioCtx (env (ui p)) && soundOn (ui p))
                 then [Beep 660 (6 # 100) (8 # 100)] else []) ++
                (if String.eqb (startPlayerValue p) "O"
                 then Called RequestAiMove :: ai_fetch (ui p) else [])).
Proof.
  intros Hfit. cbn [updateFromState_of].
  destruct (updateFromState_effect st (ui p) Hfit) as
    (u2 & evs & tms & Hrun & He & Hg & Hso & Hc & Hst & Hx & Ho & Hl & _).
  rewrite (exec_updateFromState _ _ _ Hrun), (new_events_app _ _ _ Hl).
  rewrite (pbind_done _ _ _ _ _ (lift_run _ _ _ _ evs Hrun Hl)).
  destruct (after_state tone (set_plog (plog p ++ map Base evs) (set_ui u2 p)))
    as (p' & Htail & Hg' & Hc' & Hs' & Hx' & Ho' & Hl').
  exists p'. split; [exact Htail|].
  destruct p as [u sp ai ap fill pl]. cbn [ui set_ui set_plog plog startPlayerValue] in *.
  split; [congruence|]. split; [congruence|]. split; [congruence|].
  split; [congruence|]. split; [congruence|].
  rewrite Hl', He, Hso. unfold ai_fetch. rewrite Hg.
  by rewrite <- app_assoc, <- map_app.
Qed.

(** X22.  A successful [/api/new] response whose state fits the page
    installs the returned game id, renders the state, plays the start tone
    unless the game was created automatically (or the sound is muted), and
    then asks for an AI move exactly when ["O"] is selected as the starting
    player; nothing is written to the console. *)
Theorem new_game_success (auto : bool) (data : NewBody) (st : GameState) (p : Page) :
  n_state data = Some st -> fits st (ui p) ->
  gameId (ui (pexec (createNewGame_resumed auto (NewResponse true data)) p)) =
    n_game_id data /\
  cells (ui (pexec (createNewGame_resumed auto (NewResponse true data)) p)) =
    render_cells 0 (board st) (cells (ui p)) /\
  statusText (ui (pexec (createNewGame_resumed auto (NewResponse true data)) p)) =
    status_of st /\
  new_pevents p (pexec (createNewGame_resumed auto (NewResponse true data)) p) =
    map Base
      (new_events (set_gameId (n_game_id data) (ui p))
         (exec (updateFromState st) (set_gameId (n_game_id data) (ui p))) ++
       (if negb auto && (audioCtx (env (ui p)) && soundOn (ui p))
        then [Beep 660 (6 # 100) (8 # 100)] else []) ++
       (if String.eqb (startPlayerValue p) "O"
        then Called RequestAiMove :: ai_fetch (set_gameId (n_game_id data) (ui p)) else [])).
Proof.
  intros Hst Hfit. unfold pexec, createNewGame_resumed, ptry. cbn [negb]. rewrite Hst.
  rewrite (pbind_done _ _ _ _ _ (lift_set_gameId _ _)).
  destruct (state_then_tail (negb auto) st (set_ui (set_gameId (n_game_id data) (ui p)) p))
    as (p' & Hrun & Hg & Hc & Hs & _ & _ & Hl).
  { unfold fits in *. by destruct p as [[] ? ? ? ? ?]. }
  rewrite Hrun. cbn [snd].
  destruct p as [u sp ai ap fill pl]. cbn [ui set_ui set_plog plog startPlayerValue] in *.
  split; [rewrite Hg; by destruct u|]. split; [rewrite Hc; by destruct u|].
  split; [done|].
  apply new_pevents_app. cbn [plog]. rewrite Hl. by destruct u.
Qed.

Lemma new_game_success_witness :
  gameId (ui (pexec (createNewGame_resumed true
                       (NewResponse true (mkNewBody (Some "g7") (Some Examples.after_first_move) None)))
                    (page_of (Examples.session true) "O"))) = Some "g7" /\
  In (Base (Fetch "/api/ai_move/g7" None))
     (new_pevents (page_of (Examples.session true) "O")
        (pexec (createNewGame_resumed true
                  (NewResponse true (mkNewBody (Some "g7") (Some Examples.after_first_move) None)))
               (page_of (Examples.session true) "O"))).
Proof.
  pose proof (new_game_success true
                (mkNewBody (Some "g7") (Some Examples.after_first_move) None)
                Examples.after_first_move (page_of (Examples.session true) "O")
                eq_refl ltac:(unfold fits; vm_compute; lia)) as (Hg & _ & _ & Hl).
  split; [exact Hg|]. rewrite Hl. vm_compute. tauto.
Defined.

(** X23.  A [/api/new] request that is rejected, or answered with a status
    that is not ok, changes nothing but the status line: game id, board,
    scores and timers stay as they were, no tone is played and no request
    follows; the error is written to the console, with the server's message
    or ["Create failed"] in its place. *)
Theorem failed_new_game_only_reports (auto : bool) (data : NewBody) (p : Page) :
  (ui (pexec (createNewGame_resumed auto NewRejected) p) =
     set_statusText "Could not create game" (ui p) /\
   new_pevents p (pexec (createNewGame_resumed auto NewRejected) p) =
     [Console (Session FetchError)]) /\
  (ui (pexec (createNewGame_resumed auto (NewResponse false data)) p) =
     set_statusText "Could not create game" (ui p) /\
   new_pevents p (pexec (createNewGame_resumed auto (NewResponse false data)) p) =
     [Console (Error (or_else (n_error data) "Create failed"))]).
Proof.
  unfold pexec, createNewGame_resumed, ptry, pthrow. cbn [negb].
  split.
  - rewrite pemit_then, lift_setStatus. cbn [snd].
    split; [by destruct p|].
    apply new_pevents_app. by destruct p.
  - rewrite pemit_then, lift_setStatus. cbn [snd].
    split; [by destruct p|].
    apply new_pevents_app. by destruct p.
Qed.

(** X24.  An ok [/api/new] response that carries no state is reported as a
    failure, and yet the game id of the response has already replaced the
    old one: later moves go to the new game while the board still shows the
    old one. *)
Theorem new_game_without_state_keeps_new_id (auto : bool) (data : NewBody) (p : Page) :
  n_state data = None ->
  ui (pexec (createNewGame_resumed auto (NewResponse true data)) p) =
    set_statusText "Could not create game" (set_gameId (n_game_id data) (ui p)) /\
  new_pevents p (pexec (createNewGame_resumed auto (NewResponse true data)) p) =
    [Console (Session (TypeError "state is undefined"))].
Proof.
  intros Hst. unfold pexec, createNewGame_resumed, ptry. cbn [negb]. rewrite Hst.
  rewrite (pbind_done _ _ _ _ _ (lift_set_gameId _ _)).
  rewrite (pbind_thrown _ _ _ _ _ (lift_missing_state _)).
  rewrite pemit_then, lift_setStatus. cbn [snd].
  split; [by destruct p as [[] ? ? ? ? ?]|].
  apply new_pevents_app. by destruct p.
Qed.

Lemma new_game_without_state_keeps_new_id_witness :
  gameId (ui (pexec (createNewGame_resumed false
                       (NewResponse true (mkNewBody (Some "g9") None None)))
                    (page_of (Examples.session true) "X"))) = Some "g9".
Proof.
  exact (f_equal gameId
           (proj1 (new_game_without_state_keeps_new_id false
                     (mkNewBody (Some "g9") None None)
                     (page_of (Examples.session true) "X") eq_refl))).
Defined.

(** X25.  A successful reset keeps the game id, renders the returned state
    and asks for an AI move exactly when ["O"] is selected to start.  It
    plays no start tone, and it leaves the scoreboard alone unless the
    returned state is itself a win. *)
Theorem reset_success (data : Body) (st : GameState) (p : Page) :
  b_state data = Some st -> fits st (ui p) ->
  gameId (ui (pexec (resetBoard_resumed (Response true data)) p)) = gameId (ui p) /\
  cells (ui (pexec (resetBoard_resumed (Response true data)) p)) =
    render_cells 0 (board st) (cells (ui p)) /\
  statusText (ui (pexec (resetBoard_resumed (Response true data)) p)) = status_of st /\
  scoreX (ui (pexec (resetBoard_resumed (Response true data)) p)) =
    (if is_win st && strict_eq (winner st) (Some "X")
     then bump (scoreX (ui p)) else scoreX (ui p)) /\
  scoreO (ui (pexec (resetBoard_resumed (Response true data)) p)) =
    (if is_win st && strict_eq (winner st) (Some "O")
     then bump (scoreO (ui p)) else scoreO (ui p)) /\
  new_pevents p (pexec (resetBoard_resumed (Response true data)) p) =
    map Base
      (new_events (ui p) (exec (updateFromState st) (ui p)) ++
       (if String.eqb (startPlayerValue p) "O"
        then Called RequestAiMove :: ai_fetch (ui p) else [])).
Proof.
  intros Hst Hfit. unfold pexec, resetBoard_resumed, ptry. cbn [negb]. rewrite Hst.
  destruct (state_then_tail false st p Hfit) as (p' & Hrun & Hg & Hc & Hs & Hx & Ho & Hl).
  cbn [andb app] in Hl.
  change ((lift (updateFromState_of (Some st));;
           q <- pget;;
           if String.eqb (startPlayerValue q) "O" then lift requestAiMove else pret tt)%page p
          = (PDone tt, p')) in Hrun.
  rewrite Hrun. cbn [snd].
  repeat (split; [assumption|]).
  by apply new_pevents_app.
Qed.

Lemma reset_success_witness :
  scoreX (ui (pexec (resetBoard_resumed
                       (Response true (mkBody (Some Examples.after_first_move) None)))
                    (page_of (Examples.session true) "X"))) =
    scoreX (Examples.session true) /\
  new_pevents (page_of (Examples.session true) "X")
              (pexec (resetBoard_resumed
                        (Response true (mkBody (Some Examples.after_first_move) None)))
                     (page_of (Examples.session true) "X")) = [].
Proof.
  pose proof (reset_success (mkBody (Some Examples.after_first_move) None)
                Examples.after_first_move (page_of (Examples.session true) "X")
                eq_refl ltac:(unfold fits; vm_compute; lia)) as (_ & _ & _ & Hx & _ & Hl).
  split; [exact Hx|]. rewrite Hl. reflexivity.
Defined.

(** X26.  A reset that fails - the request is rejected, the status is not
    ok, or the ok response carries no state - changes nothing but the status
    line, which reads ["Reset failed"]; the error goes to the console. *)
Theorem failed_reset_only_reports (data : Body) (p : Page) :
  (ui (pexec (resetBoard_resumed Rejected) p) = set_statusText "Reset failed" (ui p) /\
   new_pevents p (pexec (resetBoard_resumed Rejected) p) = [Console (Session FetchError)]) /\
  (ui (pexec (resetBoard_resumed (Response false data)) p) =
     set_statusText "Reset failed" (ui p) /\
   new_pevents p (pexec (resetBoard_resumed (Response false data)) p) =
     [Console (Error (or_else (b_error data) "Reset failed"))]) /\
  (b_state data = None ->
   ui (pexec (resetBoard_resumed (Response true data)) p) =
     set_statusText "Reset failed" (ui p) /\
   new_pevents p (pexec (resetBoard_resumed (Response true data)) p) =
     [Console (Session (TypeError "state is undefined"))]).
Proof.
  unfold pexec, resetBoard_resumed, ptry, pthrow. cbn [negb].
  split; [|split].
  - rewrite pemit_then, lift_setStatus. cbn [snd].
    split; [by destruct p|].
    apply new_pevents_app. by destruct p.
  - rewrite pemit_then, lift_setStatus. cbn [snd].
    split; [by destruct p|].
    apply new_pevents_app. by destruct p.
  - intros ->. rewrite (pbind_thrown _ _ _ _ _ (lift_missing_state _)).
    rewrite pemit_then, lift_setStatus. cbn [snd].
    split; [by destruct p as [[] ? ? ? ? ?]|].
    apply new_pevents_app. by destruct p as [[] ? ? ? ? ?].
Qed.

Lemma failed_reset_only_reports_witness :
  statusText (ui (pexec (resetBoard_resumed (Response true (mkBody None None)))
                        (page_of (Examples.session true) "X"))) = "Reset failed".
Proof.
  exact (f_equal statusText
           (proj1 (proj2 (proj2 (failed_reset_only_reports (mkBody None None)
                                   (page_of (Examples.session true) "X"))) eq_refl))).
Defined.

(** X27.  Pressing Reset sends exactly one request and changes nothing on
    the page: to [/api/reset/<id>] when there is a game id, and otherwise -
    also for an empty id - the request of New Game, with the selected
    starting player and AI mode. *)
Theorem resetBoard_single_request (p : Page) :
  ui (pexec resetBoard p) = ui p /\
  new_pevents p (pexec resetBoard p) =
    [if truthy (gameId (ui p))
     then FetchReset ("/api/reset/" ++ default "" (gameId (ui p)))%string (startPlayerValue p)
     else FetchNew (startPlayerValue p) (aiModeValue p)] /\
  (truthy (gameId (ui p)) = false -> resetBoard p = createNewGame p).
Proof.
  unfold pexec, resetBoard, createNewGame, pbind, pget, pemit.
  destruct (gameId (ui p)) as [g|] eqn:Hg.
  - destruct (truthy (Some g)) eqn:Ht; cbn [snd default];
      (split; [by destruct p|]);
      (split; [apply new_pevents_app; by destruct p|]); done.
  - cbn [truthy snd]. split; [by destruct p|].
    split; [apply new_pevents_app; by destruct p|]. done.
Qed.

Lemma resetBoard_single_request_witness :
  resetBoard (page_of (set_gameId None (Examples.session true)) "X") =
  createNewGame (page_of (set_gameId None (Examples.session true)) "X").
Proof.
  exact (proj2 (proj2 (resetBoard_single_request
                         (page_of (set_gameId None (Examples.session true)) "X"))) eq_refl).
Defined.

(** X28.  The sound button flips the switch and shows it: after a click
    [aria-pressed] is the new value of [soundOn] and the icon is filled with
    the accent colour exactly when the sound is on; nothing else changes,
    and a second click gives the session back as it was. *)
Theorem soundToggle_flips_and_shows (p : Page) :
  ui (pexec soundToggle_click p) = set_soundOn (negb (soundOn (ui p))) (ui p) /\
  ariaPressed (pexec soundToggle_click p) =
    Some (if soundOn (ui (pexec soundToggle_click p)) then "true" else "false") /\
  iconFill (pexec soundToggle_click p) =
    Some (if soundOn (ui (pexec soundToggle_click p))
          then "var(--accent)" else "var(--muted)") /\
  new_pevents p (pexec soundToggle_click p) = [] /\
  ui (pexec soundToggle_click (pexec soundToggle_click p)) = ui p.
Proof.
  assert (Hrun : forall q,
            pexec soundToggle_click q =
            set_button (Some (if negb (soundOn (ui q)) then "true" else "false"))
                       (Some (if negb (soundOn (ui q)) then "var(--accent)" else "var(--muted)"))
                       (set_ui (set_soundOn (negb (soundOn (ui q))) (ui q)) q)).
  { intros q. unfold pexec, soundToggle_click.
    rewrite (pbind_done _ _ _ _ _
               (lift_run _ q (Done tt) (set_soundOn (negb (soundOn (ui q))) (ui q)) []
                  eq_refl ltac:(rewrite app_nil_r; by destruct (ui q)))).
    cbn [map]. rewrite app_nil_r.
    unfold pbind, pget. cbn [snd]. by destruct q as [[] ? ? ? ? ?]. }
  rewrite !Hrun. destruct p as [u sp ai ap fill pl], u; cbn.
  rewrite negb_involutive.
  repeat split. unfold new_pevents. cbn. by rewrite drop_all.
Qed.

End PageGlue.
